(** * Idea Shelf (draftfield): canvas engine and durability subsystem

    A shallow embedding of [src/app.js] and the properties of its
    specification.

    - JavaScript numbers are IEEE-754 binary64 values.  They are modelled
      with the Standard Library's executable specification of binary
      floating point ([SpecFloat], precision 53, exponent bound 1024), so
      that division by zero, infinities and NaN behave as they do in the
      program.
    - Epoch-millisecond timestamps and the change counter are integers far
      below 2^53; they are modelled as [Z].
    - The Dexie tables are finite maps keyed by primary key; a table is
      read in the order of its keys.
    - [Math.hypot] is computed as V8 and JavaScriptCore compute it.
    - A backup file is read back through [JSON.stringify] and
      [JSON.parse]; an element of one of its lists is a row of the table
      or a value without a primary key.
    - [async] functions run sequentially; they are written in a small state
      monad over the persistent store, the banner and the clock.
    - The Konva stage is a record of its scale and position; the layer is
      the list of node groups in scan order.  Stage events are dispatched
      to the handlers of [wireCanvasGestures] in registration order.
    - The repositioning arithmetic is also read over the rationals, to
      state what the binary64 computation approximates.
    - The bookshelf, the book operations, import and export, and the
      editing of nodes run over the same store, together with the open
      book and what the bookshelf shows; an [async] function that rejects
      stops where it is.  What the environment supplies (answers of
      dialogs, drawn identifiers and palette indices, the parsed file) is
      an argument of the handler that asks for it. *)

From Stdlib Require Import ZArith QArith Bool List Lia Ascii.
From Stdlib Require Import SpecFloat.
From stdpp Require Import gmap strings list sorting vector.

Open Scope Z_scope.

(* ===================================================================== *)
(** * JavaScript numbers                                                  *)
(* ===================================================================== *)

Module JS.

Definition number : Type := spec_float.

Definition prec : Z := 53.
Definition emax : Z := 1024.

Definition NaN : number := S754_nan.
Definition Infinity : number := S754_infinity false.
Definition NegInfinity : number := S754_infinity true.
Definition pos_zero : number := S754_zero false.
Definition neg_zero : number := S754_zero true.

(** Arithmetic operators [+ - * /] and [Math.sqrt]: correctly rounded. *)
Definition add : number -> number -> number := SFadd prec emax.
Definition sub : number -> number -> number := SFsub prec emax.
Definition mul : number -> number -> number := SFmul prec emax.
Definition div : number -> number -> number := SFdiv prec emax.
Definition sqrt : number -> number := SFsqrt prec emax.

(** [x < y]; false when either side is NaN. *)
Definition lt (x y : number) : bool := SFltb x y.
(** [x > y] is evaluated as [y < x]. *)
Definition gt (x y : number) : bool := SFltb y x.
(** [x <= y] on numbers; false when either side is NaN. *)
Definition le (x y : number) : bool := SFleb x y.
(** [x === y] on numbers: NaN differs from everything, [+0 === -0]. *)
Definition eq (x y : number) : bool := SFeqb x y.

Definition is_nan (x : number) : bool :=
  match x with S754_nan => true | _ => false end.
Definition is_infinite (x : number) : bool :=
  match x with S754_infinity _ => true | _ => false end.
Definition is_zero (x : number) : bool :=
  match x with S754_zero _ => true | _ => false end.
Definition is_finite (x : number) : bool :=
  match x with
  | S754_zero _ | S754_finite _ _ _ => true
  | _ => false
  end.
Definition is_positive_finite (x : number) : bool :=
  match x with S754_finite false _ _ => true | _ => false end.
Definition is_neg_zero (x : number) : bool :=
  match x with S754_zero true => true | _ => false end.
Definition is_pos_zero (x : number) : bool :=
  match x with S754_zero false => true | _ => false end.

(** An integer literal. *)
Definition of_Z (n : Z) : number := binary_normalize prec emax n 0 false.

(** A decimal literal [n/d]: the binary64 value nearest to the quotient
    of two exactly representable integers. *)
Definition literal (n d : Z) : number := div (of_Z n) (of_Z d).

(** [Math.min(...args)] (ECMAScript, Math.min): start from +Infinity; a
    NaN argument makes the result NaN; -0 is below +0. *)
Fixpoint Math_min_from (lowest : number) (args : list number) : number :=
  match args with
  | [] => lowest
  | n :: rest =>
      if is_nan n then NaN
      else
        let lowest1 :=
          if is_neg_zero n && is_pos_zero lowest then neg_zero else lowest in
        let lowest2 := if lt n lowest1 then n else lowest1 in
        Math_min_from lowest2 rest
  end.
Definition Math_min (args : list number) : number :=
  Math_min_from Infinity args.

(** [Math.max(...args)] (ECMAScript, Math.max): start from -Infinity; a
    NaN argument makes the result NaN; +0 is above -0. *)
Fixpoint Math_max_from (highest : number) (args : list number) : number :=
  match args with
  | [] => highest
  | n :: rest =>
      if is_nan n then NaN
      else
        let highest1 :=
          if is_pos_zero n && is_neg_zero highest then pos_zero else highest in
        let highest2 := if gt n highest1 then n else highest1 in
        Math_max_from highest2 rest
  end.
Definition Math_max (args : list number) : number :=
  Math_max_from NegInfinity args.

(** [Math.abs] *)
Definition abs (x : number) : number := SFabs x.

(** [Math.hypot(...args)].  ECMAScript fixes the special cases (an
    infinite argument gives +Infinity, otherwise a NaN argument gives NaN,
    zeros alone give +0) and leaves the value otherwise to the engine.
    V8 and JavaScriptCore compute it the same way, which is what is
    written here: the largest absolute value [max] is found first; the
    squares of the ratios to [max] are summed with Kahan's compensation;
    the result is the square root of the sum, times [max]. *)
Definition largest_abs (highest x : number) : number :=
  if is_nan x then highest
  else if gt (abs x) highest then abs x else highest.

(** One turn of the summation loop over [(sum, compensation)]. *)
Definition kahan_step (max : number) (acc : number * number) (x : number)
    : number * number :=
  let n := div (abs x) max in
  let summand := sub (mul n n) acc.2 in
  let preliminary := add acc.1 summand in
  (preliminary, sub (sub preliminary acc.1) summand).

Definition Math_hypot_of (args : list number) : number :=
  let max := fold_left largest_abs args pos_zero in
  if eq max Infinity then Infinity
  else if existsb is_nan args then NaN
  else if eq max pos_zero then pos_zero
  else mul (sqrt (fold_left (kahan_step max) args (pos_zero, pos_zero)).1) max.

Definition Math_hypot (x y : number) : number := Math_hypot_of [x; y].

End JS.

Abbreviation number := JS.number.

(* ===================================================================== *)
(** * Durability and backup subsystem                                     *)
(* ===================================================================== *)

Module Durability.

(** ** Persisted rows *)

Record Book := mkBook {
  book_id : string;
  book_title : string;
  book_color : string;
  book_createdAt : Z;
  book_updatedAt : Z }.

Record NodeRow := mkNodeRow {
  node_id : string;
  node_bookId : string;
  node_x : number;
  node_y : number;
  node_color : string;
  node_updatedAt : Z }.

(** The object built by [buildBackupObject]; [exportedAt] is kept as the
    clock reading that [new Date()] formats. *)
Record Backup := mkBackup {
  version : Z;
  exportedAt : Z;
  data_books : list Book;
  data_nodes : list NodeRow;
  data_settings : list (string * Z) }.

Record Snapshot := mkSnapshot {
  createdAt : Z;
  backup : Backup }.

(** [db.version(1).stores({...})]: four tables; [snapshots] has the
    auto-incremented primary key [++id], whose generator only grows. *)
Record Db := mkDb {
  books : gmap string Book;
  nodes : gmap string NodeRow;
  settings : gmap string Z;
  snapshots : gmap Z Snapshot;
  snapshots_keygen : Z }.

(** The store, the banner's [hidden] class, and [Date.now()]: [clock k]
    is the value of the [k]-th reading, [ticks] counts the readings made
    so far. *)
Record World := mkWorld {
  db : Db;
  banner_hidden : bool;
  clock : nat -> Z;
  ticks : nat }.

(** ** Sequencing of the awaited calls *)

Definition M (A : Type) : Type := World -> A * World.

Definition ret {A} (a : A) : M A := fun w => (a, w).
Definition bind {A B} (m : M A) (k : A -> M B) : M B :=
  fun w => let '(a, w1) := m w in k a w1.
Definition exec {A} (m : M A) (w : World) : World := snd (m w).
Definition eval {A} (m : M A) (w : World) : A := fst (m w).

Declare Scope js_scope.
Delimit Scope js_scope with js.
Notation "'let*' x ':=' c1 'in' c2" := (bind c1 (fun x => c2))
  (at level 10, x name, c1 at level 100, c2 at level 200) : js_scope.
Notation "c1 ;; c2" := (bind c1 (fun _ => c2))
  (at level 100, c2 at level 200, right associativity) : js_scope.
Open Scope js_scope.

Definition get_db : M Db := fun w => (db w, w).
Definition put_db (d : Db) : M unit :=
  fun w => (tt, mkWorld d (banner_hidden w) (clock w) (ticks w)).
Definition set_banner_hidden (h : bool) : M unit :=
  fun w => (tt, mkWorld (db w) h (clock w) (ticks w)).

(** ** Settings keys and time *)

Definition lastChangedAt : string := "lastChangedAt".
Definition lastExternalBackupAt : string := "lastExternalBackupAt".
Definition lastNudgeDismissAt : string := "lastNudgeDismissAt".
Definition changeCount : string := "changeCount".

Definition now : M Z :=
  fun w => (clock w (ticks w),
            mkWorld (db w) (banner_hidden w) (clock w) (S (ticks w))).

Definition dayMs : Z := 24 * 60 * 60 * 1000.

(** [row?.value ?? fallback] *)
Definition getSetting (key : string) (fallback : Z) : M Z :=
  let* d := get_db in
  ret (match settings d !! key with
       | Some value => value
       | None => fallback
       end).

Definition setSetting (key : string) (value : Z) : M unit :=
  let* d := get_db in
  put_db (mkDb (books d) (nodes d) (<[key := value]> (settings d))
               (snapshots d) (snapshots_keygen d)).

(** ** Snapshots *)

(** The rows of a table whose primary key is a string, each with its key,
    in the order of the primary key: the store keeps a table sorted by
    key, strings being compared character by character. *)
Definition rows_by_key {V} (t : gmap string V) : list (string * V) :=
  merge_sort (fun a b : string * V => String.le a.1 b.1) (map_to_list t).

(** [table.toArray()]: the rows of a table, in the order of the primary
    key. *)
Definition toArray {V} (t : gmap string V) : list V := (rows_by_key t).*2.

Definition buildBackupObject : M Backup :=
  let* d := get_db in
  let* t := now in
  ret (mkBackup 1 t (toArray (books d)) (toArray (nodes d))
                (rows_by_key (settings d))).

(** [db.snapshots.add(row)]: the key generator is advanced and the row is
    stored under the new key. *)
Definition snapshots_add (s : Snapshot) : M unit :=
  let* d := get_db in
  let id := snapshots_keygen d + 1 in
  put_db (mkDb (books d) (nodes d) (settings d)
               (<[id := s]> (snapshots d)) id).

(** Order of the [createdAt] index: by creation time, then by primary
    key. *)
Definition createdAt_le (a b : Z * Snapshot) : Prop :=
  createdAt a.2 < createdAt b.2 \/
  (createdAt a.2 = createdAt b.2 /\ a.1 <= b.1).

#[global] Instance createdAt_le_dec a b : Decision (createdAt_le a b).
Proof. unfold createdAt_le. apply _. Defined.

(** [db.snapshots.orderBy("createdAt").toArray()], each row with its
    [id]. *)
Definition snapshots_orderBy_createdAt : M (list (Z * Snapshot)) :=
  let* d := get_db in
  ret (merge_sort createdAt_le (map_to_list (snapshots d))).

Definition snapshots_bulkDelete (ids : list Z) : M unit :=
  let* d := get_db in
  put_db (mkDb (books d) (nodes d) (settings d)
               (foldr delete (snapshots d) ids) (snapshots_keygen d)).

Definition createInternalSnapshot : M unit :=
  let* backup := buildBackupObject in
  let* t := now in
  snapshots_add (mkSnapshot t backup) ;;
  (* keep last 10 *)
  let* all := snapshots_orderBy_createdAt in
  if (10 <? length all)%nat then
    let toDelete := (take (length all - 10) all).*1 in
    snapshots_bulkDelete toDelete
  else ret tt.

(** ** Backup nudge *)

Definition maybeShowBackupNudge : M unit :=
  let* lastChanged := getSetting lastChangedAt 0 in
  let* lastExternal := getSetting lastExternalBackupAt 0 in
  let* lastDismiss := getSetting lastNudgeDismissAt 0 in
  let changedSinceExternal := lastChanged >? lastExternal in
  let* t1 := now in
  let beenADay := t1 - lastExternal >=? dayMs in
  let* t2 := now in
  let dismissedToday := t2 - lastDismiss <? dayMs in
  if changedSinceExternal && beenADay && negb dismissedToday
  then set_banner_hidden false
  else set_banner_hidden true.

(** ** Change tracking *)

Definition markChanged : M unit :=
  let* t := now in
  setSetting lastChangedAt t ;;
  let* c := getSetting changeCount 0 in
  let count := c + 1 in
  setSetting changeCount count ;;
  (* Auto-snapshot every 25 changes *)
  (if Z.rem count 25 =? 0 then createInternalSnapshot else ret tt) ;;
  maybeShowBackupNudge.

(** The banner's dismiss button. *)
Definition bannerDismiss : M unit :=
  let* t := now in
  setSetting lastNudgeDismissAt t ;;
  set_banner_hidden true.

(** A store in which nothing was ever recorded: no settings row, no
    snapshot. *)
Definition fresh_db (bs : gmap string Book) (ns : gmap string NodeRow) : Db :=
  mkDb bs ns ∅ ∅ 0.

Definition fresh_world (bs : gmap string Book) (ns : gmap string NodeRow)
    (banner : bool) (clk : nat -> Z) : World :=
  mkWorld (fresh_db bs ns) banner clk 0.

(** The table that the retention step of [createInternalSnapshot] leaves,
    as a function of the table it finds. *)
Definition keep_last_10 (snaps : gmap Z Snapshot) : gmap Z Snapshot :=
  let all := merge_sort createdAt_le (map_to_list snaps) in
  if (10 <? length all)%nat
  then foldr delete snaps (take (length all - 10) all).*1
  else snaps.

(** The clock never goes back. *)
Definition monotone_clock (clk : nat -> Z) : Prop :=
  forall i j : nat, (i <= j)%nat -> clk i <= clk j.

(** The state of the snapshot table after [n] creations on a store that
    started without snapshots, read on the clock [clk]: the creation number
    [k] took readings [2k-2] and [2k-1], and the rows kept are the last ten
    created. *)
Definition after_creations (clk : nat -> Z) (n : nat) (w : World) : Prop :=
  clock w = clk /\
  ticks w = (2 * n)%nat /\
  snapshots_keygen (db w) = Z.of_nat n /\
  size (snapshots (db w)) = (n `min` 10)%nat /\
  forall k : Z,
    createdAt <$> snapshots (db w) !! k =
    if decide (Z.max 1 (Z.of_nat n - 9) <= k <= Z.of_nat n)
    then Some (clk (Z.to_nat (2 * k - 1)))
    else None.

(** The creation time of the [k]-th snapshot created on a fresh store. *)
Definition creation_time (clk : nat -> Z) (k : Z) : Z :=
  clk (Z.to_nat (2 * k - 1)).

(** The same after [n] creations on any clock: every row kept is one of
    the [n] created, and every created row that is gone comes before every
    kept row in the order of the creation-time index. *)
Definition newest_kept (clk : nat -> Z) (n : nat) (w : World) : Prop :=
  clock w = clk /\
  ticks w = (2 * n)%nat /\
  snapshots_keygen (db w) = Z.of_nat n /\
  size (snapshots (db w)) = (n `min` 10)%nat /\
  (forall k v, snapshots (db w) !! k = Some v ->
     1 <= k <= Z.of_nat n /\ createdAt v = creation_time clk k) /\
  ((n <= 10)%nat ->
     forall j, 1 <= j <= Z.of_nat n -> is_Some (snapshots (db w) !! j)) /\
  (forall j k v,
     1 <= j <= Z.of_nat n ->
     snapshots (db w) !! j = None ->
     snapshots (db w) !! k = Some v ->
     creation_time clk j < createdAt v \/
     (creation_time clk j = createdAt v /\ j <= k)).

(** The counters after [n] calls of [markChanged] on a store that started
    with no settings and no snapshots. *)
Definition after_changes (n : nat) (w : World) : Prop :=
  default 0 (settings (db w) !! changeCount) = Z.of_nat n /\
  snapshots_keygen (db w) = Z.of_nat n / 25 /\
  Z.of_nat (size (snapshots (db w))) = Z.min (Z.of_nat n / 25) 10 /\
  forall k v, snapshots (db w) !! k = Some v -> k <= snapshots_keygen (db w).

(** A clock for examples: some instant in 2023, one millisecond per
    reading. *)
Definition sample_clock (k : nat) : Z := 1700000000000 + Z.of_nat k.

(** The store of the nudge scenario: last change at [T], last external
    backup 25 hours before, last dismissal [ago] milliseconds before; the
    clock reads [T]. *)
Definition scenario_world (T ago : Z) : World :=
  mkWorld
    (mkDb ∅ ∅
          (<[lastChangedAt := T]>
             (<[lastExternalBackupAt := T - 25 * 60 * 60 * 1000]>
                (<[lastNudgeDismissAt := T - ago]> ∅)))
          ∅ 0)
    true (fun _ => T) 0.

(** [n] successive runs of an action. *)
Fixpoint repeat_run (n : nat) (m : M unit) (w : World) : World :=
  match n with
  | O => w
  | S k => repeat_run k m (exec m w)
  end.

End Durability.

(* ===================================================================== *)
(** * Spatial canvas engine                                               *)
(* ===================================================================== *)

Module Canvas.
Import JS.

Record Point := mkPoint { pt_x : number; pt_y : number }.

(** ** Visual rules held in [APP] *)

Definition dotLineThickness : number := Eval vm_compute in of_Z 2.
Definition dotRadius : number := Eval vm_compute in of_Z 4.
Definition readableThreshold : number := Eval vm_compute in literal 85 100.
Definition nearestColorRadiusWorld : number := Eval vm_compute in of_Z 220.

(** ** Number literals of the gesture code *)

Definition zero : number := pos_zero.
Definition one : number := Eval vm_compute in of_Z 1.
Definition two : number := Eval vm_compute in of_Z 2.
Definition minScale : number := Eval vm_compute in literal 25 100.
Definition maxScale : number := Eval vm_compute in of_Z 3.
Definition scaleBy : number := Eval vm_compute in literal 105 100.

(** ** The scene graph *)

Definition stroke_shown : string := "rgba(255,255,255,0.9)".
Definition stroke_clear : string := "rgba(255,255,255,0.0)".

(** A child shape of a node group: its visibility and its stroke. *)
Record Shape := mkShape { visible : bool; stroke : string }.

(** The group drawn for a node: [children] are [bubble], [outline],
    [dot], [label], in this order. *)
Record Group := mkGroup {
  g_x : number;
  g_y : number;
  g_nodeId : string;
  g_ideaColor : string;
  g_draggable : bool;
  g_isDragging : bool;
  bubble : Shape;
  outline : Shape;
  dot : Shape;
  label : Shape }.

Record Stage := mkStage {
  scaleX : number;
  scaleY : number;
  stage_x : number;
  stage_y : number }.

(** [APP] together with the local variables that [wireCanvasGestures]
    closes over. *)
Record State := mkState {
  stage : Stage;
  layer : list Group;
  selectedNodeId : option string;
  lastCenter : option Point;
  lastDist : number;
  isPinching : bool;
  panStart : option Point }.

Definition set_visible (v : bool) (s : Shape) : Shape :=
  mkShape v (stroke s).
Definition set_stroke (c : string) (s : Shape) : Shape :=
  mkShape (visible s) c.

(** [stage.scale({x, y})] and [stage.position({x, y})] *)
Definition stage_scale (sx sy : number) (st : Stage) : Stage :=
  mkStage sx sy (stage_x st) (stage_y st).
Definition stage_position (p : Point) (st : Stage) : Stage :=
  mkStage (scaleX st) (scaleY st) (pt_x p) (pt_y p).

(** Modelled from the spec: the scene-graph service's inverse-transform
    query (the rendering library is not part of the sources).  The stage
    transform is translate-then-scale, so its inverse subtracts the
    translation and divides by the scale. *)
Definition screenToWorld (st : Stage) (point : Point) : Point :=
  mkPoint (div (sub (pt_x point) (stage_x st)) (scaleX st))
          (div (sub (pt_y point) (stage_y st)) (scaleY st)).

(** ** Color inheritance *)

Definition node_distance (worldPoint : Point) (g : Group) : number :=
  Math_hypot (sub (g_x g) (pt_x worldPoint)) (sub (g_y g) (pt_y worldPoint)).

(** One turn of the [forEach] body over [(best, bestD)]. *)
Definition nearest_step (worldPoint : Point)
    (acc : option string * number) (g : Group) : option string * number :=
  let d := node_distance worldPoint g in
  if lt d nearestColorRadiusWorld && lt d acc.2
  then (Some (g_ideaColor g), d)
  else acc.

Definition findNearestNodeColor (groups : list Group) (worldPoint : Point)
    : option string :=
  (fold_left (nearest_step worldPoint) groups (None, Infinity)).1.

(** ** Level of detail *)

Definition updateNodeRenderForScale (group : Group) (scale : number) : Group :=
  let isDot := lt scale readableThreshold in
  mkGroup (g_x group) (g_y group) (g_nodeId group) (g_ideaColor group)
          (g_draggable group) (g_isDragging group)
          (set_visible (negb isDot) (bubble group))
          (set_visible (negb isDot) (outline group))
          (set_visible isDot (dot group))
          (set_visible (negb isDot) (label group)).

Definition update_all_for_scale (scale : number) (groups : list Group)
    : list Group :=
  map (fun g => updateNodeRenderForScale g scale) groups.

(** The group that [drawNode] adds to the layer. *)
Definition drawNode (id color : string) (x y : number) (st : Stage) : Group :=
  updateNodeRenderForScale
    (mkGroup x y id color false false
             (mkShape true "") (mkShape true stroke_clear)
             (mkShape true "") (mkShape true ""))
    (scaleX st).

(** ** Selection *)

Definition select_in_group (nodeId : string) (g : Group) : Group :=
  let selected := bool_decide (g_nodeId g = nodeId) in
  mkGroup (g_x g) (g_y g) (g_nodeId g) (g_ideaColor g)
          selected (g_isDragging g)
          (bubble g)
          (set_stroke (if selected then stroke_shown else stroke_clear)
                      (outline g))
          (dot g) (label g).

Definition selectNode (nodeId : string) (s : State) : State :=
  mkState (stage s) (map (select_in_group nodeId) (layer s)) (Some nodeId)
          (lastCenter s) (lastDist s) (isPinching s) (panStart s).

Definition deselect_group (g : Group) : Group :=
  mkGroup (g_x g) (g_y g) (g_nodeId g) (g_ideaColor g)
          false (g_isDragging g)
          (bubble g) (set_stroke stroke_clear (outline g))
          (dot g) (label g).

(** Tap on the background rectangle. *)
Definition background_tap (s : State) : State :=
  mkState (stage s) (map deselect_group (layer s)) None
          (lastCenter s) (lastDist s) (isPinching s) (panStart s).

(** ** Zoom *)

(** [Math.max(0.25, Math.min(3.0, newScale))] *)
Definition clampScale (newScale : number) : number :=
  Math_max [minScale; Math_min [maxScale; newScale]].

(** The common tail of the pinch and wheel handlers: scale the stage,
    reposition it so that [pointTo] stays under [focus], and refresh the
    render mode of every node. *)
Definition zoom_about (focus pointTo : Point) (newScale : number)
    (s : State) : State :=
  let newPos :=
    mkPoint (sub (pt_x focus) (mul (pt_x pointTo) newScale))
            (sub (pt_y focus) (mul (pt_y pointTo) newScale)) in
  mkState (stage_position newPos (stage_scale newScale newScale (stage s)))
          (update_all_for_scale newScale (layer s))
          (selectedNodeId s)
          (lastCenter s) (lastDist s) (isPinching s) (panStart s).

Record Touch := mkTouch { clientX : number; clientY : number }.

Definition set_pinch (c : option Point) (d : number) (p : bool) (s : State)
    : State :=
  mkState (stage s) (layer s) (selectedNodeId s) c d p (panStart s).

(** [stage.on("touchmove", ...)]: pinch zoom with two contacts. *)
Definition touchmove_pinch (touches : option (list Touch)) (s : State)
    : State :=
  match touches with
  | None => s
  | Some [t0; t1] =>
      let p1 := mkPoint (clientX t0) (clientY t0) in
      let p2 := mkPoint (clientX t1) (clientY t1) in
      let center :=
        mkPoint (div (add (pt_x p1) (pt_x p2)) two)
                (div (add (pt_y p1) (pt_y p2)) two) in
      let dist :=
        Math_hypot (sub (pt_x p1) (pt_x p2)) (sub (pt_y p1) (pt_y p2)) in
      match lastCenter s with
      | None => set_pinch (Some center) dist true s
      | Some _ =>
          let oldScale := scaleX (stage s) in
          let newScale := mul oldScale (div dist (lastDist s)) in
          let newScale := clampScale newScale in
          let pointTo := screenToWorld (stage s) center in
          set_pinch (Some center) dist true
                    (zoom_about center pointTo newScale s)
      end
  | Some _ => s
  end.

(** [stage.on("touchend", ...)] *)
Definition touchend_pinch (s : State) : State :=
  set_pinch None zero false s.

(** [stage.on("wheel", ...)]: one multiplicative step per event. *)
Definition wheel (deltaY : number) (pointer : option Point) (s : State)
    : State :=
  let oldScale := scaleX (stage s) in
  match pointer with
  | None => s
  | Some pointer =>
      let mousePointTo := screenToWorld (stage s) pointer in
      let dir : Z := if gt deltaY zero then 1 else -1 in
      let newScale :=
        if dir >? 0 then div oldScale scaleBy else mul oldScale scaleBy in
      let newScale := clampScale newScale in
      zoom_about pointer mousePointTo newScale s
  end.

(** ** Pan *)

Definition set_panStart (p : option Point) (s : State) : State :=
  mkState (stage s) (layer s) (selectedNodeId s)
          (lastCenter s) (lastDist s) (isPinching s) p.

(** [stage.on("touchstart mousedown", ...)] *)
Definition pan_start (target_is_background : bool) (pointer : option Point)
    (s : State) : State :=
  if negb target_is_background then s
  else if isPinching s then s
  else set_panStart pointer s.

(** Whether the selected node's group is being dragged. *)
Definition selected_is_dragging (s : State) : bool :=
  match selectedNodeId s with
  | None => false
  | Some id =>
      if bool_decide (id = EmptyString) then false
      else
        match find (fun g => bool_decide (g_nodeId g = id)) (layer s) with
        | Some g => g_isDragging g
        | None => false
        end
  end.

(** [stage.on("touchmove mousemove", ...)] *)
Definition pan_move (pointer : option Point) (s : State) : State :=
  match panStart s with
  | None => s
  | Some start =>
      if isPinching s then s
      else if selected_is_dragging s then s
      else
        match pointer with
        | None => s
        | Some pos =>
            let dx := sub (pt_x pos) (pt_x start) in
            let dy := sub (pt_y pos) (pt_y start) in
            let st := stage s in
            let moved :=
              stage_position
                (mkPoint (add (stage_x st) dx) (add (stage_y st) dy)) st in
            mkState moved (layer s) (selectedNodeId s)
                    (lastCenter s) (lastDist s) (isPinching s) (Some pos)
        end
  end.

(** [stage.on("touchend mouseup", ...)] *)
Definition pan_end (s : State) : State := set_panStart None s.

(** ** Input dispatch: listeners run in registration order *)

Inductive Event :=
| TouchStart (target_is_background : bool) (pointer : option Point)
| TouchMove (touches : option (list Touch)) (pointer : option Point)
| TouchEnd
| MouseDown (target_is_background : bool) (pointer : option Point)
| MouseMove (pointer : option Point)
| MouseUp
| Wheel (deltaY : number) (pointer : option Point).

Definition step (s : State) (e : Event) : State :=
  match e with
  | TouchStart bg pointer => pan_start bg pointer s
  | TouchMove touches pointer => pan_move pointer (touchmove_pinch touches s)
  | TouchEnd => pan_end (touchend_pinch s)
  | MouseDown bg pointer => pan_start bg pointer s
  | MouseMove pointer => pan_move pointer s
  | MouseUp => pan_end s
  | Wheel deltaY pointer => wheel deltaY pointer s
  end.

Definition run (s : State) (es : list Event) : State := fold_left step es s.

(** The stage as [initStage] creates it (unit scale, no translation),
    with no gesture in progress. *)
Definition initial_stage : Stage := mkStage one one zero zero.
Definition initial_state (groups : list Group) : State :=
  mkState initial_stage groups None None zero false None.

(** Inputs for examples: integer screen coordinates, two contacts reported
    at the same point, and two contacts ten units apart around it. *)
Definition point (x y : Z) : Point := mkPoint (of_Z x) (of_Z y).
Definition touch (x y : Z) : Touch := mkTouch (of_Z x) (of_Z y).
Definition touches_down : Event := TouchStart true (Some (point 5 5)).
Definition touches_together : Event :=
  TouchMove (Some [touch 5 5; touch 5 5]) (Some (point 5 5)).
Definition touches_apart : Event :=
  TouchMove (Some [touch 2 1; touch 8 9]) (Some (point 2 1)).

(** A node is within the inheritance radius when its distance tests below
    [nearestColorRadiusWorld]. *)
Definition within_radius (p : Point) (g : Group) : Prop :=
  lt (node_distance p g) nearestColorRadiusWorld = true.

(** [g], at index [i] of [groups], is the nearest node within the radius:
    no node within the radius is strictly nearer, and it is strictly nearer
    than every node within the radius that is scanned before it. *)
Definition nearest_at (p : Point) (groups : list Group) (i : nat) (g : Group)
    : Prop :=
  groups !! i = Some g /\
  within_radius p g /\
  forall (j : nat) (g' : Group),
    groups !! j = Some g' -> within_radius p g' ->
    lt (node_distance p g') (node_distance p g) = false /\
    le (node_distance p g) (node_distance p g') = true /\
    ((j < i)%nat -> lt (node_distance p g) (node_distance p g') = true).

(** What the accumulator [(best, bestD)] holds after scanning [groups]. *)
Definition scanned (p : Point) (groups : list Group)
    (acc : option string * number) : Prop :=
  match acc.1 with
  | None =>
      acc.2 = Infinity /\ forall g, g ∈ groups -> ~ within_radius p g
  | Some c =>
      exists (i : nat) (g : Group),
        nearest_at p groups i g /\
        c = g_ideaColor g /\ acc.2 = node_distance p g
  end.

(** A layer with two nodes, for examples. *)
Definition sample_layer : list Group :=
  [ drawNode "a" "#f4d03f" zero zero initial_stage;
    drawNode "b" "#58d68d" one two initial_stage ].
Definition sample_state : State := initial_state sample_layer.

(** The zoom range. *)
Definition scale_in_range (s : number) : bool :=
  le minScale s && le s maxScale.

(** The two contacts of a pinch move are a positive, finite distance
    apart. *)
Definition contacts_apart (e : Event) : Prop :=
  match e with
  | TouchMove (Some [t0; t1]) _ =>
      is_positive_finite
        (Math_hypot (sub (clientX t0) (clientX t1))
                    (sub (clientY t0) (clientY t1))) = true
  | _ => True
  end.

(** The scale is in range and a recorded pinch distance is positive and
    finite. *)
Definition zoom_ready (s : State) : Prop :=
  scale_in_range (scaleX (stage s)) = true /\
  (lastCenter s <> None -> is_positive_finite (lastDist s) = true).

(** The two render modes of a node group, by what is visible. *)
Definition shows_dot_only (g : Group) : Prop :=
  visible (dot g) = true /\ visible (bubble g) = false /\
  visible (outline g) = false /\ visible (label g) = false.

Definition shows_readable (g : Group) : Prop :=
  visible (dot g) = false /\ visible (bubble g) = true /\
  visible (outline g) = true /\ visible (label g) = true.

(** A selected node shows its outline stroke and can be dragged; any other
    node has a clear outline stroke and cannot. *)
Definition is_selected (g : Group) : Prop :=
  stroke (outline g) = stroke_shown /\ g_draggable g = true.

Definition is_unselected (g : Group) : Prop :=
  stroke (outline g) = stroke_clear /\ g_draggable g = false.

End Canvas.

(* ===================================================================== *)
(** * The repositioning arithmetic over exact numbers                     *)
(* ===================================================================== *)

(** The arithmetic of [screenToWorld] and of the [newPos] computation of
    the pinch and wheel handlers, for one coordinate, read over the
    rationals: what the binary64 computation approximates when no
    infinity or NaN is involved. *)
Module ExactZoom.

Definition screenToWorld (scale pos point : Q) : Q := (point - pos) / scale.

Definition newPos (focus pointTo newScale : Q) : Q :=
  focus - pointTo * newScale.

End ExactZoom.

(* ===================================================================== *)
(** * Properties of gesture sequences: what they are stated with          *)
(* ===================================================================== *)

Module Gestures.
Import JS Canvas.

(** The parts of a group are shown as the render mode of the scale [s]
    asks. *)
Definition rendered_for (s : number) (g : Group) : Prop :=
  visible (dot g) = lt s readableThreshold /\
  visible (bubble g) = negb (lt s readableThreshold) /\
  visible (outline g) = negb (lt s readableThreshold) /\
  visible (label g) = negb (lt s readableThreshold).

(** Every node of the layer is rendered for the scale of the stage. *)
Definition lod_consistent (s : State) : Prop :=
  Forall (rendered_for (scaleX (stage s))) (layer s).

(** What a node is, apart from the visibility of its parts: identifier,
    color, position, whether it can be dragged and is being dragged, and
    the stroke of its outline. *)
Definition node_attrs (g : Group)
    : string * string * number * number * bool * bool * string :=
  (g_nodeId g, g_ideaColor g, g_x g, g_y g, g_draggable g, g_isDragging g,
   stroke (outline g)).

(** The gesture variables of [wireCanvasGestures] and the pan start. *)
Definition gesture_vars (s : State)
    : option Point * number * bool * option Point :=
  (lastCenter s, lastDist s, isPinching s, panStart s).

(** Two contacts twenty units apart, and a wheel step, for examples. *)
Definition touches_wide : Event :=
  TouchMove (Some [touch 0 0; touch 12 16]) (Some (point 0 0)).
Definition wheel_in : Event := Wheel (of_Z (-100)) (Some (point 5 5)).
Definition wheel_out : Event := Wheel (of_Z 100) (Some (point 5 5)).

(** The sample canvas after four wheel steps out: its scale, 1/1.05^4, is
    below the readable threshold, so its nodes are drawn as dots. *)
Definition zoomed_out_state : State := run sample_state (replicate 4 wheel_out).

(** The state in which a pinch has recorded a zero distance. *)
Definition stuck_state : State :=
  run sample_state [touches_down; touches_together].

End Gestures.

(* ===================================================================== *)
(** * Bookshelf, book operations and backup files                         *)
(* ===================================================================== *)

Module Bookshelf.
Import JS Durability.

(** [COLORS]; an index drawn by
    [Math.floor(Math.random() * COLORS.length)] is one of its ten
    positions. *)
Definition COLORS : vec string 10 :=
  [# "#f4d03f"; "#58d68d"; "#5dade2"; "#af7ac5"; "#f1948a";
     "#48c9b0"; "#f5b041"; "#ec7063"; "#85929e"; "#7dcea0"].

(** ** Answers of [prompt] *)

(** Strings are sequences of 8-bit code units.  Of the characters that
    [trim] removes, those below 256 are the code units 9 to 13, 32 and
    160. *)
Definition is_white_space (a : ascii) : bool :=
  let n := nat_of_ascii a in
  ((9 <=? n) && (n <=? 13) || (n =? 32) || (n =? 160))%nat.

Fixpoint trimStart (s : string) : string :=
  match s with
  | EmptyString => EmptyString
  | String a rest => if is_white_space a then trimStart rest else s
  end.

Fixpoint trimEnd (s : string) : string :=
  match s with
  | EmptyString => EmptyString
  | String a rest =>
      match trimEnd rest with
      | EmptyString => if is_white_space a then EmptyString
                       else String a EmptyString
      | kept => String a kept
      end
  end.

Definition trim (s : string) : string := trimEnd (trimStart s).

(** [!title] for the answer of a prompt: [null] (cancel) and the empty
    string test false. *)
Definition falsy (answer : option string) : bool :=
  match answer with
  | None => true
  | Some s => bool_decide (s = EmptyString)
  end.

(** [toLowerCase] on a code unit below 256: the letters A to Z and the
    accented capitals 192 to 222, the multiplication sign 215 apart, have
    their small letter 32 places on. *)
Definition lower_ascii (a : ascii) : ascii :=
  let n := nat_of_ascii a in
  if ((65 <=? n) && (n <=? 90)
      || (192 <=? n) && (n <=? 222) && negb (n =? 215))%nat
  then ascii_of_nat (n + 32)
  else a.

Fixpoint toLowerCase (s : string) : string :=
  match s with
  | EmptyString => EmptyString
  | String a rest => String (lower_ascii a) (toLowerCase rest)
  end.

(** ** Shelves *)

(** [arr.slice(start, end)] on integer arguments. *)
Definition slice {A} (arr : list A) (start end_ : Z) : list A :=
  let len := Z.of_nat (length arr) in
  let k := if start <? 0 then Z.max (len + start) 0 else Z.min start len in
  let final := if end_ <? 0 then Z.max (len + end_) 0 else Z.min end_ len in
  take (Z.to_nat (final - k)) (drop (Z.to_nat k) arr).

(** The [for] loop of [chunk], from index [i] with [out] built so far.
    [fuel] bounds the number of turns; [None] when it runs out. *)
Fixpoint chunk_loop {A} (fuel : nat) (arr : list A) (n i : Z)
    (out : list (list A)) : option (list (list A)) :=
  match fuel with
  | O => if i <? Z.of_nat (length arr) then None else Some out
  | S fuel' =>
      if i <? Z.of_nat (length arr)
      then chunk_loop fuel' arr n (i + n) (out ++ [slice arr i (i + n)])
      else Some out
  end.

Definition chunk {A} (fuel : nat) (arr : list A) (n : Z)
    : option (list (list A)) :=
  chunk_loop fuel arr n 0 [].

(** Order of the [updatedAt] index: by time of update, then by primary
    key. *)
Definition updatedAt_le (a b : string * Book) : Prop :=
  book_updatedAt a.2 < book_updatedAt b.2 \/
  (book_updatedAt a.2 = book_updatedAt b.2 /\ String.le a.1 b.1).

#[global] Instance updatedAt_le_dec a b : Decision (updatedAt_le a b).
Proof. unfold updatedAt_le. apply _. Defined.

(** [db.books.orderBy("updatedAt").reverse().toArray()] *)
Definition books_newest_first (d : Db) : list Book :=
  (reverse (merge_sort updatedAt_le (map_to_list (books d)))).*2.

Definition books_orderBy_updatedAt_reverse : M (list Book) :=
  let* d := get_db in
  ret (books_newest_first d).

(** The shelves that [renderBookshelf] lays out for a list of books: the
    loop of [chunk] takes at most one turn per book. *)
Definition shelves_of (books : list Book) : option (list (list Book)) :=
  chunk (length books) books 6.

(** ** Table operations *)

Definition set_books (bs : gmap string Book) : M unit :=
  let* d := get_db in
  put_db (mkDb bs (nodes d) (settings d) (snapshots d) (snapshots_keygen d)).

Definition set_nodes (ns : gmap string NodeRow) : M unit :=
  let* d := get_db in
  put_db (mkDb (books d) ns (settings d) (snapshots d) (snapshots_keygen d)).

(** [db.books.get(id)] *)
Definition books_get (id : string) : M (option Book) :=
  let* d := get_db in
  ret (books d !! id).

(** [db.books.update(id, changes)]: nothing happens when the key is
    absent. *)
Definition books_update (id : string) (changes : Book -> Book) : M unit :=
  let* d := get_db in
  set_books (alter changes id (books d)).

Definition books_delete (id : string) : M unit :=
  let* d := get_db in
  set_books (delete id (books d)).

Definition nodes_update (id : string) (changes : NodeRow -> NodeRow)
    : M unit :=
  let* d := get_db in
  set_nodes (alter changes id (nodes d)).

(** [db.nodes.where("bookId").equals(bookId).delete()] *)
Definition nodes_where_bookId_delete (bookId : string) : M unit :=
  let* d := get_db in
  set_nodes (filter (fun kv => node_bookId kv.2 <> bookId) (nodes d)).

(** [db.nodes.where("bookId").equals(bookId).toArray()]: the rows of the
    book in the order of the primary key. *)
Definition nodes_where_bookId_toArray (bookId : string) : M (list NodeRow) :=
  let* d := get_db in
  ret (merge_sort (fun a b : string * NodeRow => String.le a.1 b.1)
         (map_to_list
            (filter (fun kv => node_bookId kv.2 = bookId) (nodes d)))).*2.

(** The changes objects of the update calls. *)
Definition retitle (title : string) (t : Z) (b : Book) : Book :=
  mkBook (book_id b) title (book_color b) (book_createdAt b) t.

Definition touch_book (t : Z) (b : Book) : Book :=
  mkBook (book_id b) (book_title b) (book_color b) (book_createdAt b) t.

Definition move_node (x y : number) (t : Z) (r : NodeRow) : NodeRow :=
  mkNodeRow (node_id r) (node_bookId r) x y (node_color r) t.

(** An element of a list of a backup file, as [bulkAdd] meets it: a row
    of the table, from which the key path of the table gives a valid key,
    or a value from which it gives none (an object without the key
    property, a number, null). *)
Inductive FileRow (V : Type) :=
| Keyed (row : V)
| Unkeyed.
Arguments Keyed {V} row.
Arguments Unkeyed {V}.

(** [table.bulkAdd(rows)] inside a transaction: every row is added under
    its key; a row without a valid key, or with a key that is already
    present, fails the call, and with it the transaction. *)
Fixpoint bulkAdd {R V} (key : R -> string) (value : R -> V)
    (rows : list (FileRow R)) (t : gmap string V) : option (gmap string V) :=
  match rows with
  | [] => Some t
  | Unkeyed :: _ => None
  | Keyed r :: rest =>
      match t !! key r with
      | Some _ => None
      | None => bulkAdd key value rest (<[key r := value r]> t)
      end
  end.

(** ** Export *)

(** [exportBackup]: the result is the clock reading that names the file
    and the object that is downloaded. *)
Definition exportBackup : M (Z * Backup) :=
  let* backup := buildBackupObject in
  let* date := now in
  (* best-effort: treat as successful external backup *)
  let* t := now in
  setSetting lastExternalBackupAt t ;;
  maybeShowBackupNudge ;;
  ret (date, backup).

(** ** What a backup file parses to *)

(** The three lists of [obj.data]; a list is [None] when the property is
    absent or tests false, and is an array otherwise.  An element with a
    key is a row of its table, with the properties of such a row. *)
Record BackupData := mkBackupData {
  obj_books : option (list (FileRow Book));
  obj_nodes : option (list (FileRow NodeRow));
  obj_settings : option (list (FileRow (string * Z))) }.

(** [obj_version] is [None] when the property is absent or not a
    number, [obj_data] when it is absent or tests false. *)
Record BackupObject := mkBackupObject {
  obj_version : option Z;
  obj_data : option BackupData }.

(** The outcome of [JSON.parse(text)]: an exception, a value that tests
    false or has no properties, or an object. *)
Inductive Parsed :=
| SyntaxError
| NotAnObject
| ParsedObject (obj : BackupObject).

(** A number written by [JSON.stringify] and read back by [JSON.parse]:
    NaN and the infinities are written as null, -0 is written as 0, and
    every other number is read back as it was. *)
Definition json_number (x : number) : option number :=
  if is_nan x || is_infinite x then None
  else if is_zero x then Some pos_zero
  else Some x.

(** A node row read back from a file; [None] when a coordinate is null in
    the file, which is then no row of numbers. *)
Definition json_node (r : NodeRow) : option NodeRow :=
  match json_number (node_x r), json_number (node_y r) with
  | Some x, Some y =>
      Some (mkNodeRow (node_id r) (node_bookId r) x y (node_color r)
                      (node_updatedAt r))
  | _, _ => None
  end.

(** The object of a backup, as [JSON.parse] reads it from the file that
    [JSON.stringify] wrote: identifiers, titles, colors and times are read
    back as they were, coordinates as [json_number] tells.  The result is
    [None] when a coordinate is null in the file. *)
Definition parsed_backup (b : Backup) : option Parsed :=
  match mapM json_node (data_nodes b) with
  | Some rows =>
      Some (ParsedObject
              (mkBackupObject (Some (version b))
                 (Some (mkBackupData (Some (Keyed <$> data_books b))
                                     (Some (Keyed <$> rows))
                                     (Some (Keyed <$> data_settings b))))))
  | None => None
  end.

(** The tables that the import transaction builds from the three lists
    of the file, when every row has a key and no key is repeated. *)
Definition import_tables (data : BackupData)
    : option (gmap string Book * gmap string NodeRow * gmap string Z) :=
  match bulkAdd book_id id (default [] (obj_books data)) ∅ with
  | None => None
  | Some bs =>
      match bulkAdd node_id id (default [] (obj_nodes data)) ∅ with
      | None => None
      | Some ns =>
          match bulkAdd fst snd (default [] (obj_settings data)) ∅ with
          | None => None
          | Some ss => Some (bs, ns, ss)
          end
      end
  end.

(** The rows of a list of a file that have a key, and whether a row has
    one. *)
Fixpoint keyed_rows {V} (rows : list (FileRow V)) : list V :=
  match rows with
  | [] => []
  | Keyed v :: rest => v :: keyed_rows rest
  | Unkeyed :: rest => keyed_rows rest
  end.

Definition has_key {V} (r : FileRow V) : Prop :=
  match r with Keyed _ => True | Unkeyed => False end.

(** Every row of the three lists has a key, and no list repeats one. *)
Definition importable (data : BackupData) : Prop :=
  Forall has_key (default [] (obj_books data)) /\
  Forall has_key (default [] (obj_nodes data)) /\
  Forall has_key (default [] (obj_settings data)) /\
  NoDup (book_id <$> keyed_rows (default [] (obj_books data))) /\
  NoDup (node_id <$> keyed_rows (default [] (obj_nodes data))) /\
  NoDup (keyed_rows (default [] (obj_settings data))).*1.

(** Both coordinates of a node row are finite numbers. *)
Definition finite_position (r : NodeRow) : Prop :=
  is_finite (node_x r) = true /\ is_finite (node_y r) = true.

(** ** Well-formed stores *)

(** Every row is stored under its own [id]. *)
Definition keyed_by_id (d : Db) : Prop :=
  map_Forall (fun k b => book_id b = k) (books d) /\
  map_Forall (fun k r => node_id r = k) (nodes d).

(** The change counter, as [getSetting] reads it. *)
Definition change_count (w : World) : Z := eval (getSetting changeCount 0) w.

(** A text begins, or ends, with a character that [trim] removes. *)
Definition starts_with_space (s : string) : bool :=
  match s with
  | EmptyString => false
  | String a _ => is_white_space a
  end.

Fixpoint all_white_space (s : string) : bool :=
  match s with
  | EmptyString => true
  | String a rest => is_white_space a && all_white_space rest
  end.

Fixpoint ends_with_space (s : string) : bool :=
  match s with
  | EmptyString => false
  | String a EmptyString => is_white_space a
  | String _ rest => ends_with_space rest
  end.

(** A store for examples: two books, three nodes, two of them in the
    first book. *)
Definition sample_books : gmap string Book :=
  <["b1" := mkBook "b1" "Plans" "#f4d03f" 1000 5000]>
    (<["b2" := mkBook "b2" "Notes" "#58d68d" 2000 3000]> ∅).

Definition sample_nodes : gmap string NodeRow :=
  <["n1" := mkNodeRow "n1" "b1" (of_Z 10) (of_Z 20) "#5dade2" 1500]>
    (<["n2" := mkNodeRow "n2" "b2" (of_Z 0) (of_Z 0) "#af7ac5" 2500]>
       (<["n3" := mkNodeRow "n3" "b1" (of_Z 300) (of_Z 400) "#f1948a" 4000]> ∅)).

Definition sample_world : World :=
  fresh_world sample_books sample_nodes true sample_clock.

End Bookshelf.

(* ===================================================================== *)
(** * The application: screens, book operations, import, node editing    *)
(* ===================================================================== *)

Module App.
Import JS Durability Canvas Bookshelf.

(** An open book: [APP.currentBookId] with the stage, the layer and the
    gesture variables that [openBook] sets up for it. *)
Record Session := mkSession {
  currentBookId : string;
  canvas : State }.

(** The store, banner and clock; the open book, if the canvas screen is
    shown; the text of [UI.canvasTitle]; the spines of [UI.shelves], shelf
    by shelf. *)
Record AppState := mkApp {
  world : World;
  session : option Session;
  canvasTitle : string;
  shelves : list (list Book) }.

(** ** Sequencing with rejection *)

(** An [async] function either returns or rejects; a rejection leaves the
    state as it was at that point and skips the rest. *)
Definition E (X : Type) : Type := AppState -> option X * AppState.

Definition eret {X} (x : X) : E X := fun a => (Some x, a).
Definition ebind {X Y} (m : E X) (k : X -> E Y) : E Y :=
  fun a =>
    match m a with
    | (Some x, a1) => k x a1
    | (None, a1) => (None, a1)
    end.
Definition reject {X} : E X := fun a => (None, a).
Definition after {X} (m : E X) (a : AppState) : AppState := snd (m a).
Definition result {X} (m : E X) (a : AppState) : option X := fst (m a).

(** An action on the store, banner and clock. *)
Definition lift {X} (m : M X) : E X :=
  fun a =>
    let '(x, w) := m (world a) in
    (Some x, mkApp w (session a) (canvasTitle a) (shelves a)).

Declare Scope app_scope.
Delimit Scope app_scope with app.
Notation "'let*' x ':=' c1 'in' c2" := (ebind c1 (fun x => c2))
  (at level 10, x name, c1 at level 100, c2 at level 200) : app_scope.
Notation "c1 ;; c2" := (ebind c1 (fun _ => c2))
  (at level 100, c2 at level 200, right associativity) : app_scope.
Open Scope app_scope.

Definition get_session : E (option Session) := fun a => (Some (session a), a).
Definition put_session (s : option Session) : E unit :=
  fun a => (Some tt, mkApp (world a) s (canvasTitle a) (shelves a)).
Definition set_canvasTitle (t : string) : E unit :=
  fun a => (Some tt, mkApp (world a) (session a) t (shelves a)).
Definition set_shelves (sh : list (list Book)) : E unit :=
  fun a => (Some tt, mkApp (world a) (session a) (canvasTitle a) sh).

(** [table.add(row)]: rejects when the key is already present. *)
Definition books_add (b : Book) : E unit :=
  let* d := lift get_db in
  match books d !! book_id b with
  | Some _ => reject
  | None => lift (set_books (<[book_id b := b]> (books d)))
  end.

Definition nodes_add (r : NodeRow) : E unit :=
  let* d := lift get_db in
  match nodes d !! node_id r with
  | Some _ => reject
  | None => lift (set_nodes (<[node_id r := r]> (nodes d)))
  end.

(** ** Bookshelf *)

(** [renderBookshelf]: a call of [chunk] that does not return does not
    let [renderBookshelf] return either. *)
Definition renderBookshelf : E unit :=
  let* books := lift books_orderBy_updatedAt_reverse in
  match shelves_of books with
  | None => reject
  | Some sh =>
      set_shelves sh ;;
      lift maybeShowBackupNudge
  end.

Definition seedIfEmpty (uuid : string) : E unit :=
  let* d := lift get_db in
  let count := size (books d) in
  if (count =? 0)%nat then
    let* t1 := lift now in
    let* t2 := lift now in
    books_add (mkBook uuid "New Book" (COLORS !!! 0%fin) t1 t2)
  else eret tt.

(** [main] *)
Definition main (uuid : string) : E unit :=
  seedIfEmpty uuid ;;
  renderBookshelf.

Definition showBookshelf : E unit := put_session None.

Definition addBook (title : option string) (pick : fin 10) (uuid : string)
    : E unit :=
  match title with
  | None => eret tt
  | Some title =>
      if falsy (Some title) then eret tt
      else
        let color := COLORS !!! pick in
        let* t1 := lift now in
        let* t2 := lift now in
        books_add (mkBook uuid (trim title) color t1 t2) ;;
        lift markChanged ;;
        renderBookshelf
  end.

(** [answer] is what the prompt returns if it is shown. *)
Definition renameBook (bookId : string) (answer : option string) : E unit :=
  let* book := lift (books_get bookId) in
  match book with
  | None => eret tt
  | Some _ =>
      match answer with
      | None => eret tt
      | Some title =>
          if falsy (Some title) then eret tt
          else
            let* t := lift now in
            lift (books_update bookId (retitle (trim title) t)) ;;
            lift markChanged ;;
            set_canvasTitle (trim title) ;;
            renderBookshelf
      end
  end.

(** [ok] is what the confirmation returns if it is shown. *)
Definition deleteBook (bookId : string) (ok : bool) : E unit :=
  let* book := lift (books_get bookId) in
  match book with
  | None => eret tt
  | Some _ =>
      if negb ok then eret tt
      else
        lift (nodes_where_bookId_delete bookId) ;;
        lift (books_delete bookId) ;;
        lift markChanged ;;
        (* If we were in that book, go back *)
        let* ses := get_session in
        (match ses with
         | Some ses =>
             if bool_decide (currentBookId ses = bookId) then showBookshelf
             else eret tt
         | None => eret tt
         end) ;;
        renderBookshelf
  end.

Definition openBookActions (book : Book) (choice answer : option string)
    (ok : bool) : E unit :=
  match choice with
  | None => eret tt
  | Some choice =>
      if falsy (Some choice) then eret tt
      else if bool_decide (toLowerCase choice = "r")
      then renameBook (book_id book) answer
      else if bool_decide (toLowerCase choice = "d")
      then deleteBook (book_id book) ok
      else eret tt
  end.

(** ** Import *)

(** The transaction of [importBackup]: when a [bulkAdd] fails, the
    transaction is rolled back and the call rejects. *)
Definition import_transaction (data : BackupData) : E unit :=
  match import_tables data with
  | None => reject
  | Some (bs, ns, ss) =>
      lift (let* d := get_db in
            put_db (mkDb bs ns ss (snapshots d) (snapshots_keygen d)) ;;
            (* Mark as changed so nudge logic stays sane *)
            let* t := now in
            setSetting lastChangedAt t)%js
  end.

(** [importBackup]: the result is the text of the alert, if one is
    shown. *)
Definition importBackup (parsed : Parsed) (ok : bool) : E (option string) :=
  match parsed with
  | SyntaxError => reject
  | NotAnObject => eret (Some "Backup format not recognized.")
  | ParsedObject obj =>
      match obj_data obj with
      | Some data =>
          if bool_decide (obj_version obj = Some 1) then
            if negb ok then eret None
            else
              import_transaction data ;;
              renderBookshelf ;;
              eret (Some "Imported.")
          else eret (Some "Backup format not recognized.")
      | None => eret (Some "Backup format not recognized.")
      end
  end.

(** ** Opening a book *)

Definition set_layer (groups : list Group) (s : State) : State :=
  mkState (stage s) groups (selectedNodeId s)
          (lastCenter s) (lastDist s) (isPinching s) (panStart s).

(** [drawNode(node)] for a stored row. *)
Definition drawNode_row (st : Stage) (r : NodeRow) : Group :=
  drawNode (node_id r) (node_color r) (node_x r) (node_y r) st.

(** A function of the canvas applied to the open book's canvas; without a
    stage there is no listener and nothing happens. *)
Definition on_canvas (f : State -> State) : E unit :=
  let* ses := get_session in
  match ses with
  | None => eret tt
  | Some ses => put_session (Some (mkSession (currentBookId ses) (f (canvas ses))))
  end.

(** [loadNodesToStage]: without a layer the first statement throws. *)
Definition loadNodesToStage : E unit :=
  let* ses := get_session in
  match ses with
  | None => reject
  | Some ses =>
      let* rows := lift (nodes_where_bookId_toArray (currentBookId ses)) in
      on_canvas (fun s => set_layer (drawNode_row (stage s) <$> rows) s)
  end.

(** [openBook]: [initStage] makes a new stage at unit scale with an empty
    layer and wires the gestures anew. *)
Definition openBook (bookId : string) : E unit :=
  let* book := lift (books_get bookId) in
  set_canvasTitle (match book with
                   | Some b => book_title b
                   | None => "Book"
                   end) ;;
  put_session (Some (mkSession bookId (initial_state []))) ;;
  loadNodesToStage.

(** ** Editing nodes *)

(** [inherited || COLORS[...]]: an inherited color that tests false (the
    empty string) gives way to the drawn one. *)
Definition color_or_random (inherited : option string) (pick : fin 10)
    : string :=
  match inherited with
  | Some c => if falsy (Some c) then COLORS !!! pick else c
  | None => COLORS !!! pick
  end.

Definition addNodeAtWorld (worldPoint : Point) (pick : fin 10)
    (uuid : string) : E unit :=
  let* ses := get_session in
  match ses with
  | None => reject
  | Some ses =>
      let inherited := findNearestNodeColor (layer (canvas ses)) worldPoint in
      let color := color_or_random inherited pick in
      let* t := lift now in
      let node := mkNodeRow uuid (currentBookId ses)
                            (pt_x worldPoint) (pt_y worldPoint) color t in
      nodes_add node ;;
      let* t2 := lift now in
      lift (books_update (currentBookId ses) (touch_book t2)) ;;
      lift markChanged ;;
      on_canvas (fun s => set_layer (layer s ++ [drawNode_row (stage s) node]) s)
  end.

(** [bgRect.on("dbltap", ...)] *)
Definition background_dbltap (pointer : option Point) (pick : fin 10)
    (uuid : string) : E unit :=
  let* ses := get_session in
  match ses with
  | None => eret tt
  | Some ses =>
      match pointer with
      | None => eret tt
      | Some pos =>
          let world := screenToWorld (stage (canvas ses)) pos in
          addNodeAtWorld world pick uuid
      end
  end.

(** [stage.on("dragend", ...)]: persist node moves.  [target] is the
    group that was dragged, if the event has one. *)
Definition dragend (target : option Group) : E unit :=
  let* ses := get_session in
  match ses with
  | None => eret tt
  | Some ses =>
      match target with
      | None => eret tt
      | Some g =>
          let nodeId := g_nodeId g in
          if falsy (Some nodeId) then eret tt
          else
            let* t := lift now in
            lift (nodes_update nodeId (move_node (g_x g) (g_y g) t)) ;;
            let* t2 := lift now in
            lift (books_update (currentBookId ses) (touch_book t2)) ;;
            lift markChanged
      end
  end.

(** ** UI wiring *)

(** The events that the listeners answer, with what the environment
    supplies to each: answers of dialogs, drawn numbers and identifiers,
    the parsed file.  A spine is named by its shelf and its place on it, a
    node group by its index in the layer. *)
Inductive Action :=
| ClickAddBook (title : option string) (pick : fin 10) (uuid : string)
| ClickExport
| ChangeImportFile (file : option Parsed) (ok : bool)
| ClickBack
| ClickRenameBook (answer : option string)
| ClickDeleteBook (ok : bool)
| ClickBannerSave
| ClickBannerDismiss
| ClickSpine (shelf place : nat)
| ClickSpineMenu (shelf place : nat) (choice answer : option string) (ok : bool)
| StageEvent (e : Event)
| TapNode (index : nat)
| TapBackground
| DblTapBackground (pointer : option Point) (pick : fin 10) (uuid : string)
| DragEnd (index : nat).

Definition spine_at (shelf place : nat) (a : AppState) : option Book :=
  match shelves a !! shelf with
  | Some spines => spines !! place
  | None => None
  end.

Definition group_at (index : nat) (a : AppState) : option Group :=
  match session a with
  | Some ses => layer (canvas ses) !! index
  | None => None
  end.

Definition perform (act : Action) : E unit :=
  match act with
  | ClickAddBook title pick uuid => addBook title pick uuid
  | ClickExport => lift exportBackup ;; eret tt
  | ChangeImportFile file ok =>
      match file with
      | None => eret tt
      | Some parsed => importBackup parsed ok ;; eret tt
      end
  | ClickBack => showBookshelf ;; renderBookshelf
  | ClickRenameBook answer =>
      let* ses := get_session in
      match ses with
      | None => eret tt
      | Some ses =>
          if falsy (Some (currentBookId ses)) then eret tt
          else renameBook (currentBookId ses) answer
      end
  | ClickDeleteBook ok =>
      let* ses := get_session in
      match ses with
      | None => eret tt
      | Some ses =>
          if falsy (Some (currentBookId ses)) then eret tt
          else deleteBook (currentBookId ses) ok
      end
  | ClickBannerSave => lift exportBackup ;; eret tt
  | ClickBannerDismiss => lift bannerDismiss
  | ClickSpine shelf place =>
      fun a =>
        match spine_at shelf place a with
        | Some book => openBook (book_id book) a
        | None => eret tt a
        end
  | ClickSpineMenu shelf place choice answer ok =>
      fun a =>
        match spine_at shelf place a with
        | Some book => openBookActions book choice answer ok a
        | None => eret tt a
        end
  | StageEvent e => on_canvas (fun s => step s e)
  | TapNode index =>
      fun a =>
        match group_at index a with
        | Some g => on_canvas (selectNode (g_nodeId g)) a
        | None => eret tt a
        end
  | TapBackground => on_canvas background_tap
  | DblTapBackground pointer pick uuid => background_dbltap pointer pick uuid
  | DragEnd index =>
      fun a =>
        match group_at index a with
        | Some g => dragend (Some g) a
        | None => eret tt a
        end
  end.

(** A sequence of events, each handled to its end before the next; a
    handler that rejects leaves the state it reached. *)
Definition perform_all (acts : list Action) (a : AppState) : AppState :=
  fold_left (fun a act => after (perform act) a) acts a.

(** The application before [main]: the bookshelf screen, nothing
    rendered. *)
Definition initial_app (w : World) : AppState := mkApp w None "" [].

(** ** Invariants of the running application *)

(** While a book is open, the layer holds one group for each stored node
    of that book and no other group. *)
Definition layer_mirrors_store (a : AppState) : Prop :=
  match session a with
  | None => True
  | Some ses =>
      NoDup (g_nodeId <$> layer (canvas ses)) /\
      forall id : string,
        id ∈ g_nodeId <$> layer (canvas ses) <->
        exists r, nodes (db (world a)) !! id = Some r /\
                  node_bookId r = currentBookId ses
  end.

(** While the bookshelf screen is shown, its spines are the stored books,
    the most recently updated first, six to a shelf. *)
Definition shelf_shows_store (a : AppState) : Prop :=
  session a = None ->
  shelves_of (books_newest_first (db (world a))) = Some (shelves a).

(** The event is the choice of a file to import. *)
Definition is_import (act : Action) : Prop :=
  match act with
  | ChangeImportFile _ _ => True
  | _ => False
  end.

(** The same book is open, with the same nodes on its layer, or no book
    is open. *)
Definition same_nodes_shown (s s' : option Session) : Prop :=
  match s, s' with
  | None, None => True
  | Some x, Some y =>
      currentBookId y = currentBookId x /\
      g_nodeId <$> layer (canvas y) = g_nodeId <$> layer (canvas x)
  | _, _ => False
  end.

(** What one event keeps, from the state [a] before it to the state [a']
    after it: the keys of the store, the agreement of layer and store, the
    shelves of the visible bookshelf, and the count of changes. *)
Definition step_invariants (a a' : AppState) : Prop :=
  (keyed_by_id (db (world a)) -> keyed_by_id (db (world a'))) /\
  (keyed_by_id (db (world a)) -> layer_mirrors_store a ->
   layer_mirrors_store a') /\
  (shelf_shows_store a -> shelf_shows_store a') /\
  ((change_count (world a') = change_count (world a) /\
    books (db (world a')) = books (db (world a)) /\
    nodes (db (world a')) = nodes (db (world a))) \/
   change_count (world a') = change_count (world a) + 1).

(** Files are imported only while the bookshelf screen is shown. *)
Fixpoint imports_on_bookshelf (acts : list Action) (a : AppState) : Prop :=
  match acts with
  | [] => True
  | act :: rest =>
      (is_import act -> session a = None) /\
      imports_on_bookshelf rest (after (perform act) a)
  end.

(** For examples: the sample store after [main]; a backup file with one
    book, no list of nodes, and a change counter of 7; and a sitting in
    which the first book is opened, a node is added by a double tap,
    selected, the view zoomed by the wheel, and the node dropped after a
    drag. *)
Definition sample_app : AppState :=
  after (main "b0") (initial_app sample_world).

Definition sample_data : BackupData :=
  mkBackupData (Some [Keyed (mkBook "b7" "Ideas" "#48c9b0" 100 200)]) None
               (Some [Keyed (changeCount, 7)]).
Definition sample_file : BackupObject :=
  mkBackupObject (Some 1) (Some sample_data).

Definition sample_sitting : list Action :=
  [ ClickBack;
    ClickSpine 0 0;
    DblTapBackground (Some (point 5 5)) 3%fin "n9";
    TapNode 0;
    StageEvent (Wheel (of_Z (-100)) (Some (point 5 5)));
    DragEnd 0 ].
Definition sample_import : list Action :=
  [ ClickBack; ChangeImportFile (Some (ParsedObject sample_file)) true ].

End App.

(* ===================================================================== *)
(** * Order and arithmetic facts on JavaScript numbers                    *)
(* ===================================================================== *)

Module JSProps.
Import JS.

(** Case analysis on the shape and sign of every number in the context. *)
Ltac float_cases :=
  repeat match goal with
  | x : number |- _ => destruct x as [[]|[]| |[] ? ?]
  | x : spec_float |- _ => destruct x as [[]|[]| |[] ? ?]
  end.

(** Case analysis on the exponent and mantissa comparisons that
    [SFcompare] makes between two finite numbers. *)
Ltac compare_cases :=
  repeat match goal with
  | H : context [Pos.compare_cont Eq ?a ?b] |- _ =>
      change (Pos.compare_cont Eq a b) with (Pos.compare a b) in H
  | |- context [Pos.compare_cont Eq ?a ?b] =>
      change (Pos.compare_cont Eq a b) with (Pos.compare a b)
  end;
  repeat match goal with
  | H : context [Z.compare ?a ?b] |- _ =>
      destruct (Z.compare_spec a b); cbn in *
  | H : context [Pos.compare ?a ?b] |- _ =>
      destruct (Pos.compare_spec a b); cbn in *
  | |- context [Z.compare ?a ?b] => destruct (Z.compare_spec a b); cbn in *
  | |- context [Pos.compare ?a ?b] => destruct (Pos.compare_spec a b); cbn in *
  end.

(** Order facts by unfolding the comparisons to [SFcompare]. *)
Ltac float_order :=
  unfold lt, gt, le, eq, SFltb, SFleb, SFeqb, SFcompare in *;
  float_cases; cbn in *; try congruence;
  compare_cases; subst; try congruence; try lia.

Lemma lt_not_nan (a b : number) :
  lt a b = true -> is_nan a = false /\ is_nan b = false.
Proof. intros H. split; float_order. Qed.

Lemma lt_irrefl (a : number) : lt a a = false.
Proof. float_order. Qed.

Lemma lt_asym (a b : number) : lt a b = true -> lt b a = false.
Proof. intros H. float_order. Qed.

(** [a < b] and not [c < b], with [c] a number: then [a < c]. *)
Lemma lt_between (a b c : number) :
  lt a b = true -> lt c b = false -> is_nan c = false -> lt a c = true.
Proof. intros Hab Hcb Hc. float_order. Qed.

Lemma lt_trans (a b c : number) :
  lt a b = true -> lt b c = true -> lt a c = true.
Proof.
  intros Hab Hbc. apply (lt_between a b c Hab).
  - apply lt_asym, Hbc.
  - apply (lt_not_nan b c Hbc).
Qed.

Lemma lt_le (a b : number) : lt a b = true -> le a b = true.
Proof. intros H. float_order. Qed.

Lemma not_lt_le (a b : number) :
  lt b a = false -> is_nan a = false -> is_nan b = false -> le a b = true.
Proof. intros H Ha Hb. float_order. Qed.

Lemma lt_Infinity (a b : number) : lt a b = true -> lt a Infinity = true.
Proof. intros H. unfold Infinity. float_order. Qed.

(** ** Subtraction of a finite number from itself *)


(** ** [Math.hypot] never yields a negative number *)







Lemma Math_hypot_zero : Math_hypot pos_zero pos_zero = pos_zero.
Proof. reflexivity. Qed.

(** ** Rounding never invents a NaN *)

Lemma shr_1_nonneg mrs : 0 <= shr_m mrs -> 0 <= shr_m (shr_1 mrs).
Proof.
  destruct mrs as [m r s]. cbn. intros Hm.
  destruct m as [|[p|p|]|p]; cbn; lia.
Qed.

Lemma iter_pos_shr_1_nonneg p mrs :
  0 <= shr_m mrs -> 0 <= shr_m (SpecFloat.iter_pos shr_1 p mrs).
Proof.
  revert mrs. induction p as [p IH|p IH|]; intros mrs Hm; cbn.
  - apply IH, IH, shr_1_nonneg, Hm.
  - apply IH, IH, Hm.
  - apply shr_1_nonneg, Hm.
Qed.

Lemma shr_fexp_nonneg m e l :
  0 <= m -> 0 <= shr_m (shr_fexp prec emax m e l).1.
Proof.
  intros Hm. unfold shr_fexp, shr.
  assert (H0 : 0 <= shr_m (shr_record_of_loc m l))
    by (destruct l as [|[]]; exact Hm).
  destruct (fexp prec emax (Zdigits2 m + e) - e); cbn; auto.
  apply iter_pos_shr_1_nonneg, H0.
Qed.

Lemma round_nearest_even_nonneg m l : 0 <= m -> 0 <= round_nearest_even m l.
Proof.
  intros Hm. destruct l as [|[]]; cbn; try lia. destruct (Z.even m); lia.
Qed.

Lemma binary_round_aux_not_nan sx mx ex lx :
  0 <= mx -> is_nan (binary_round_aux prec emax sx mx ex lx) = false.
Proof.
  intros Hm. unfold binary_round_aux.
  pose proof (shr_fexp_nonneg mx ex lx Hm) as H1.
  destruct (shr_fexp prec emax mx ex lx) as [mrs' e']. cbn [fst] in H1.
  pose proof (shr_fexp_nonneg _ e' loc_Exact
                (round_nearest_even_nonneg _ (loc_of_shr_record mrs') H1)) as H2.
  destruct (shr_fexp prec emax _ e' loc_Exact) as [mrs'' e'']. cbn [fst] in H2.
  destruct (shr_m mrs''); [reflexivity| |lia].
  destruct (e'' <=? emax - prec); reflexivity.
Qed.

Lemma mul_finite_not_nan sx mx ex y :
  is_nan y = false -> is_nan (mul (S754_finite sx mx ex) y) = false.
Proof.
  destruct y as [sy|sy| |sy my ey]; try reflexivity; try discriminate.
  intros _. apply binary_round_aux_not_nan. lia.
Qed.

Lemma div_by_finite_not_nan x sy my ey :
  is_nan x = false -> is_nan (div x (S754_finite sy my ey)) = false.
Proof.
  destruct x as [sx|sx| |sx mx ex]; try reflexivity; try discriminate.
  intros _. unfold div, SFdiv.
  destruct (SFdiv_core_binary prec emax (Z.pos mx) ex (Z.pos my) ey)
    as [[mz ez] lz] eqn:Hcore.
  apply binary_round_aux_not_nan.
  unfold SFdiv_core_binary in Hcore.
  set (s := ex - ey - _) in Hcore.
  set (m' := match s with Z.pos _ => _ | _ => _ end) in Hcore.
  assert (Hm' : 0 <= m').
  { unfold m'. destruct s; try lia. apply Z.shiftl_nonneg. lia. }
  pose proof (Z_div_mod m' (Z.pos my) eq_refl) as Hdm.
  destruct (Z.div_eucl m' (Z.pos my)) as [q r]. injection Hcore as <- _ _.
  nia.
Qed.

(** ** [Math.min] and [Math.max] against a positive finite bound *)

Lemma Math_min_bound (m : positive) (e : Z) (x : number) :
  let bound := S754_finite false m e in
  Math_min [bound; x] =
    if is_nan x then NaN else if lt x bound then x else bound.
Proof.
  cbn. destruct x as [[]|[]| |[] mx ex]; reflexivity.
Qed.

Lemma Math_max_bound (m : positive) (e : Z) (x : number) :
  let bound := S754_finite false m e in
  Math_max [bound; x] =
    if is_nan x then NaN else if lt bound x then x else bound.
Proof.
  cbn. destruct x as [[]|[]| |[] mx ex]; reflexivity.
Qed.



End JSProps.

(* ===================================================================== *)
(** * Properties of the canvas engine                                     *)
(* ===================================================================== *)

Module CanvasProps.
Import JS Canvas JSProps.

(** ** Level of detail *)

Lemma updateNodeRenderForScale_visible (g : Group) (s : number) :
  let g' := updateNodeRenderForScale g s in
  visible (dot g') = lt s readableThreshold /\
  visible (bubble g') = negb (lt s readableThreshold) /\
  visible (outline g') = negb (lt s readableThreshold) /\
  visible (label g') = negb (lt s readableThreshold).
Proof. cbn. auto. Qed.

Lemma updateNodeRenderForScale_anchor (g : Group) (s : number) :
  g_x (updateNodeRenderForScale g s) = g_x g /\
  g_y (updateNodeRenderForScale g s) = g_y g.
Proof. split; reflexivity. Qed.

(** C6: for every scale [s] and every node group, whatever scales the
    group was rendered for before, rendering it for [s] shows the dot
    only (bubble, outline and label hidden) if and only if [s < 0.85],
    and otherwise shows bubble, outline and label with the dot hidden. *)
Theorem render_mode_threshold (g : Group) (history : list number) (s : number) :
  let g' :=
    updateNodeRenderForScale (fold_left updateNodeRenderForScale history g) s in
  (shows_dot_only g' <-> lt s (literal 85 100) = true) /\
  (shows_readable g' <-> lt s (literal 85 100) = false) /\
  (shows_dot_only g' \/ shows_readable g').
Proof.
  intros g'.
  destruct (updateNodeRenderForScale_visible
              (fold_left updateNodeRenderForScale history g) s)
    as (Hd & Hb & Ho & Hl).
  fold g' in Hd, Hb, Ho, Hl.
  change (literal 85 100) with readableThreshold.
  unfold shows_dot_only, shows_readable.
  rewrite Hd, Hb, Ho, Hl.
  destruct (lt s readableThreshold); cbn; intuition congruence.
Qed.

(** ** Zoom range *)

(** The constants of the canvas, as the source writes them. *)
Lemma two_literal : two = of_Z 2.
Proof. vm_compute. reflexivity. Qed.

Lemma minScale_literal : minScale = literal 25 100.
Proof. vm_compute. reflexivity. Qed.

Lemma maxScale_literal : maxScale = of_Z 3.
Proof. vm_compute. reflexivity. Qed.

Lemma scale_in_range_literal (x : number) :
  scale_in_range x = le (literal 25 100) x && le x (of_Z 3).
Proof.
  unfold scale_in_range. rewrite minScale_literal, maxScale_literal.
  reflexivity.
Qed.


Lemma clampScale_eq (x : number) :
  clampScale x =
    if is_nan x then NaN
    else if lt x maxScale
         then (if lt minScale x then x else minScale)
         else maxScale.
Proof.
  unfold clampScale. unfold maxScale at 1. rewrite Math_min_bound. cbv zeta.
  destruct (is_nan x) eqn:Hnan; [reflexivity|].
  unfold minScale at 1. rewrite Math_max_bound. cbv zeta.
  fold maxScale minScale.
  destruct (lt x maxScale); [rewrite Hnan|]; reflexivity.
Qed.

(** The clamp yields a scale in [[0.25, 3.0]] for every number, and NaN
    for NaN. *)
Lemma clampScale_in_range (x : number) :
  scale_in_range (clampScale x) = negb (is_nan x).
Proof.
  rewrite clampScale_eq. destruct (is_nan x) eqn:Hnan; [reflexivity|].
  destruct (lt x maxScale) eqn:Hmax; [|reflexivity].
  destruct (lt minScale x) eqn:Hmin; [|reflexivity].
  unfold scale_in_range. rewrite (lt_le _ _ Hmax), (lt_le _ _ Hmin).
  reflexivity.
Qed.

Lemma pan_move_scale (pointer : option Point) (s : State) :
  scaleX (stage (pan_move pointer s)) = scaleX (stage s).
Proof.
  unfold pan_move. destruct (panStart s); [|reflexivity].
  destruct (isPinching s); [reflexivity|].
  destruct (selected_is_dragging s); [reflexivity|].
  destruct pointer; reflexivity.
Qed.

Lemma pan_start_scale (bg : bool) (pointer : option Point) (s : State) :
  scaleX (stage (pan_start bg pointer s)) = scaleX (stage s).
Proof.
  unfold pan_start. destruct (negb bg); [reflexivity|].
  destruct (isPinching s); reflexivity.
Qed.

(** Every event leaves the scale as it was or sets it to a clamped
    value. *)
Lemma step_scale (s : State) (e : Event) :
  scaleX (stage (step s e)) = scaleX (stage s) \/
  exists x, scaleX (stage (step s e)) = clampScale x.
Proof.
  destruct e as [bg pointer|touches pointer| |bg pointer|pointer|
                 |deltaY pointer]; cbn [step].
  - left. apply pan_start_scale.
  - rewrite pan_move_scale. unfold touchmove_pinch.
    destruct touches as [[|t0 [|t1 [|t2 rest]]]|]; try (left; reflexivity).
    destruct (lastCenter s); [|left; reflexivity].
    right. eexists. reflexivity.
  - left. reflexivity.
  - left. apply pan_start_scale.
  - left. apply pan_move_scale.
  - left. reflexivity.
  - unfold wheel. destruct pointer; [|left; reflexivity].
    right. eexists. reflexivity.
Qed.

(** From a scale in range, every sequence of events leaves the scale in
    range or makes it NaN. *)
Lemma run_scale_in_range_or_nan (es : list Event) (s : State) :
  scale_in_range (scaleX (stage s)) = true ->
  scale_in_range (scaleX (stage (run s es))) = true \/
  is_nan (scaleX (stage (run s es))) = true.
Proof.
  revert s. induction es as [|e es IH] using rev_ind; intros s Hs.
  - left. exact Hs.
  - unfold run in *. rewrite fold_left_app. cbn [fold_left].
    destruct (step_scale (fold_left step es s) e) as [Hsame|[x Hx]].
    + rewrite Hsame. apply IH, Hs.
    + rewrite Hx, clampScale_in_range.
      destruct (is_nan x) eqn:Hnan; [right|left; reflexivity].
      rewrite clampScale_eq, Hnan. reflexivity.
Qed.

Lemma scale_in_range_finite (x : number) :
  scale_in_range x = true -> exists m e, x = S754_finite false m e.
Proof.
  destruct x as [[]|[]| |[] m e]; try discriminate. intros _. eauto.
Qed.

Lemma pan_move_pinch (pointer : option Point) (s : State) :
  lastCenter (pan_move pointer s) = lastCenter s /\
  lastDist (pan_move pointer s) = lastDist s.
Proof.
  unfold pan_move. destruct (panStart s); [|auto].
  destruct (isPinching s); [auto|].
  destruct (selected_is_dragging s); [auto|].
  destruct pointer; auto.
Qed.

Lemma step_zoom_ready (s : State) (e : Event) :
  contacts_apart e -> zoom_ready s -> zoom_ready (step s e).
Proof.
  intros He [Hscale Hdist].
  destruct (scale_in_range_finite _ Hscale) as (ms & es & Hs).
  destruct e as [bg pointer|touches pointer| |bg pointer|pointer|
                 |deltaY pointer]; cbn [step].
  - unfold pan_start. destruct (negb bg); [split; assumption|].
    destruct (isPinching s); split; assumption.
  - unfold zoom_ready. rewrite pan_move_scale.
    destruct (pan_move_pinch pointer (touchmove_pinch touches s)) as [-> ->].
    unfold touchmove_pinch.
    destruct touches as [[|t0 [|t1 [|t2 rest]]]|]; try (split; assumption).
    cbn [contacts_apart] in He.
    destruct (lastCenter s) as [c|] eqn:Hc.
    + cbn -[clampScale scale_in_range mul div sub Math_hypot].
      split; [|intros _; exact He].
      rewrite clampScale_in_range. apply negb_true_iff.
      specialize (Hdist ltac:(discriminate)).
      destruct (lastDist s) as [| | |[] ml el]; try discriminate.
      rewrite Hs. apply mul_finite_not_nan, div_by_finite_not_nan.
      destruct (Math_hypot _ _); try discriminate; reflexivity.
    + cbn -[scale_in_range sub Math_hypot].
      split; [exact Hscale|intros _; exact He].
  - split; [exact Hscale|]. cbn. congruence.
  - unfold pan_start. destruct (negb bg); [split; assumption|].
    destruct (isPinching s); split; assumption.
  - unfold zoom_ready. rewrite pan_move_scale.
    destruct (pan_move_pinch pointer s) as [-> ->]. split; assumption.
  - split; assumption.
  - unfold wheel. destruct pointer as [pointer|]; [|split; assumption].
    split; [|exact Hdist].
    cbn -[clampScale scale_in_range mul div Z.gtb scaleBy].
    rewrite clampScale_in_range.
    apply negb_true_iff. rewrite Hs.
    destruct (_ >? 0).
    + apply div_by_finite_not_nan. reflexivity.
    + apply mul_finite_not_nan. reflexivity.
Qed.

(** From a scale in range, every sequence of wheel steps and of pinch
    steps whose contacts are a positive finite distance apart keeps the
    scale in range. *)
Lemma run_zoom_ready (es : list Event) (s : State) :
  Forall contacts_apart es -> zoom_ready s -> zoom_ready (run s es).
Proof.
  intros Hes. revert s. induction Hes as [|e es He _ IH]; intros s Hs.
  - exact Hs.
  - cbn. apply IH, step_zoom_ready; assumption.
Qed.

(** X8 — The first two-contact move of a gesture only records the center
    and the distance: the stage, the layer and the selection are left as
    they are, the gesture is in pinching mode, the recorded center is the
    midpoint of the two contacts (the sum of the coordinates divided by 2)
    and the recorded distance is [Math.hypot] of their coordinate
    differences. *)
Lemma first_pinch_move_records (s : State) (t0 t1 : Touch)
    (pointer : option Point) :
  lastCenter s = None ->
  let s' := step s (TouchMove (Some [t0; t1]) pointer) in
  stage s' = stage s /\ layer s' = layer s /\
  selectedNodeId s' = selectedNodeId s /\
  isPinching s' = true /\
  lastCenter s' =
    Some (mkPoint (div (add (clientX t0) (clientX t1)) (of_Z 2))
                  (div (add (clientY t0) (clientY t1)) (of_Z 2))) /\
  lastDist s' = Math_hypot (sub (clientX t0) (clientX t1))
                           (sub (clientY t0) (clientY t1)).
Proof.
  intros Hnone. cbn [step]. unfold touchmove_pinch. rewrite Hnone.
  unfold pan_move, set_pinch. rewrite <- two_literal. cbn.
  destruct (panStart s); repeat split; reflexivity.
Qed.

(** X9 — What a pinch update does when a center is recorded and the
    recorded distance is zero, from any scale in range: with the contacts
    apart the quotient is [Infinity] and the scale jumps to the upper
    bound, with the contacts together the quotient is NaN and so is the
    scale. *)
Lemma pinch_on_zero_distance (s : State) (c : Point) (t0 t1 : Touch)
    (pointer : option Point) :
  lastCenter s = Some c ->
  lastDist s = pos_zero ->
  scale_in_range (scaleX (stage s)) = true ->
  let dist := Math_hypot (sub (clientX t0) (clientX t1))
                         (sub (clientY t0) (clientY t1)) in
  let s' := step s (TouchMove (Some [t0; t1]) pointer) in
  (is_positive_finite dist = true -> scaleX (stage s') = maxScale) /\
  (is_zero dist = true -> scaleX (stage s') = NaN).
Proof.
  intros Hc Hd Hscale dist s'.
  destruct (scale_in_range_finite _ Hscale) as (ms & es & Hs).
  assert (Hs' : scaleX (stage s') =
                clampScale (mul (scaleX (stage s)) (div dist pos_zero))).
  { unfold s'. cbn [step]. rewrite pan_move_scale.
    unfold touchmove_pinch. rewrite Hc, Hd. reflexivity. }
  rewrite Hs', Hs. split; intros Hdist.
  - destruct dist as [| | |[] md ed]; try discriminate. reflexivity.
  - destruct dist as [[]| | |]; try discriminate; reflexivity.
Qed.

(** A wheel event without a pointer position changes nothing. *)
Lemma wheel_without_pointer (deltaY : number) (s : State) :
  step s (Wheel deltaY None) = s.
Proof. reflexivity. Qed.

(** In exact arithmetic the repositioning keeps the world point under the
    focal point for every nonzero new scale, clamped or not. *)
Lemma exact_anchor_fixed (scale pos focus newScale : Q) :
  ~ (newScale == 0)%Q ->
  (ExactZoom.screenToWorld newScale
     (ExactZoom.newPos focus (ExactZoom.screenToWorld scale pos focus) newScale)
     focus
   == ExactZoom.screenToWorld scale pos focus)%Q.
Proof.
  intros Hnew.
  generalize (ExactZoom.screenToWorld scale pos focus). intros pointTo.
  unfold ExactZoom.screenToWorld, ExactZoom.newPos. field. exact Hnew.
Qed.

(** C1 (the code departs from it): two contacts reported at the same point
    record a previous distance of zero and leave the stage as it was; the
    next pinch update, with the contacts ten units apart, is not skipped:
    it divides by the zero distance, the quotient [Infinity] is clamped,
    and the stage jumps from scale 1 at the origin to scale 3 at
    (-10, -10). *)
Theorem pinch_after_zero_distance :
  lastCenter (run sample_state [touches_down; touches_together])
    = Some (point 5 5) /\
  lastDist (run sample_state [touches_down; touches_together]) = pos_zero /\
  stage (run sample_state [touches_down; touches_together])
    = mkStage (of_Z 1) (of_Z 1) pos_zero pos_zero /\
  stage (run sample_state [touches_down; touches_together; touches_apart])
    = mkStage (of_Z 3) (of_Z 3) (of_Z (-10)) (of_Z (-10)).
Proof. repeat split; vm_compute; reflexivity. Qed.

(** C5 (the code departs from it): starting from scale 1, which is in
    [[0.25, 3.0]], two pinch updates with both contacts at the same point
    compute 0/0: the clamp passes NaN through and the stage scale is NaN,
    outside the range; a wheel step after that leaves it NaN. *)
Theorem pinch_zero_by_zero_scale :
  scale_in_range (scaleX (stage sample_state)) = true /\
  scaleX (stage (run sample_state
                     [touches_down; touches_together; touches_together]))
    = NaN /\
  scale_in_range
    (scaleX (stage (run sample_state
                        [touches_down; touches_together; touches_together])))
    = false /\
  scaleX (stage (run sample_state
                     [touches_down; touches_together; touches_together;
                      Wheel (of_Z 1) (Some (point 5 5))]))
    = NaN.
Proof. repeat split; vm_compute; reflexivity. Qed.

(** C7 (the code departs from it): before the second of two pinch updates
    with both contacts at (5, 5), the world point under the focal point
    (5, 5) is (5, 5); after it the scale and the position are NaN, and the
    world point under the same screen point is (NaN, NaN), equal to
    nothing. *)
Theorem pinch_zero_by_zero_anchor :
  screenToWorld (stage (run sample_state [touches_down; touches_together]))
                (point 5 5)
    = point 5 5 /\
  screenToWorld
    (stage (run sample_state
                [touches_down; touches_together; touches_together]))
    (point 5 5)
    = mkPoint NaN NaN /\
  eq (pt_x (screenToWorld
              (stage (run sample_state [touches_down; touches_together]))
              (point 5 5)))
     (pt_x (screenToWorld
              (stage (run sample_state
                          [touches_down; touches_together; touches_together]))
              (point 5 5)))
    = false.
Proof. repeat split; vm_compute; reflexivity. Qed.

(** ** Color inheritance *)

Lemma scanned_nil (p : Point) : scanned p [] (None, Infinity).
Proof. split; [reflexivity|]. intros g Hg. inversion Hg. Qed.

Lemma scanned_snoc (p : Point) (groups : list Group) (g' : Group)
    (acc : option string * number) :
  scanned p groups acc -> scanned p (groups ++ [g']) (nearest_step p acc g').
Proof.
  intros Hacc. unfold nearest_step.
  destruct (lt (node_distance p g') nearestColorRadiusWorld) eqn:Hwithin; cbn [andb].
  2:{ (* the new node is out of range *)
    destruct acc as [[c|] bestD]; unfold scanned in *; cbn [fst snd] in *.
    - destruct Hacc as (i & g & (Hi & Hg & Hmin) & Hc & Hd).
      exists i, g. split; [|auto]. split; [|split; [exact Hg|]].
      { rewrite lookup_app_l; [exact Hi|]. eapply lookup_lt_Some, Hi. }
      intros j gj Hj Hgj. apply lookup_app_Some in Hj as [Hj|[_ Hj]].
      + exact (Hmin j gj Hj Hgj).
      + apply list_lookup_singleton_Some in Hj as [_ <-].
        unfold within_radius in Hgj. congruence.
    - destruct Hacc as [Hd Hnone]. split; [exact Hd|].
      intros g Hg. apply elem_of_app in Hg as [Hg|Hg]; [auto|].
      apply list_elem_of_singleton in Hg as ->.
      unfold within_radius. congruence. }
  destruct (lt (node_distance p g') acc.2) eqn:Hbetter.
  - (* the new node is the best so far *)
    unfold scanned. cbn [fst snd].
    exists (length groups), g'. split; [|auto].
    split; [|split; [exact Hwithin|]].
    { rewrite lookup_app_r, Nat.sub_diag by lia. reflexivity. }
    intros j gj Hj Hgj.
    assert (Hnn : is_nan (node_distance p gj) = false)
      by (apply (lt_not_nan _ _ Hgj)).
    assert (Hnn' : is_nan (node_distance p g') = false)
      by (apply (lt_not_nan _ _ Hwithin)).
    apply lookup_app_Some in Hj as [Hj|[Hlen Hj]].
    + assert (Hlt : lt (node_distance p g') (node_distance p gj) = true).
      { destruct acc as [[c|] bestD]; unfold scanned in Hacc;
          cbn [fst snd] in *.
        - destruct Hacc as (i & g & (Hi & Hg & Hmin) & Hc & ->).
          destruct (Hmin j gj Hj Hgj) as (Hnot & _ & _).
          exact (lt_between _ _ _ Hbetter Hnot Hnn).
        - destruct Hacc as [_ Hnone]. exfalso.
          apply (Hnone gj); [|exact Hgj].
          apply list_elem_of_lookup. eauto. }
      split; [apply lt_asym, Hlt|]. split; [apply lt_le, Hlt|].
      intros _. exact Hlt.
    + apply list_lookup_singleton_Some in Hj as [Hj <-].
      split; [apply lt_irrefl|]. split.
      * apply not_lt_le; [apply lt_irrefl|exact Hnn'|exact Hnn'].
      * intros Hji. lia.
  - (* the best so far stays *)
    destruct acc as [[c|] bestD]; unfold scanned in *; cbn [fst snd] in *.
    + destruct Hacc as (i & g & (Hi & Hg & Hmin) & Hc & ->).
      exists i, g. split; [|auto]. split; [|split; [exact Hg|]].
      { rewrite lookup_app_l; [exact Hi|]. eapply lookup_lt_Some, Hi. }
      intros j gj Hj Hgj. apply lookup_app_Some in Hj as [Hj|[Hlen Hj]].
      * exact (Hmin j gj Hj Hgj).
      * apply list_lookup_singleton_Some in Hj as [Hj <-].
        split; [exact Hbetter|]. split.
        -- apply not_lt_le; [exact Hbetter|apply (lt_not_nan _ _ Hg)
                            |apply (lt_not_nan _ _ Hwithin)].
        -- intros Hji. apply lookup_lt_Some in Hi. lia.
    + destruct Hacc as [-> _].
      rewrite (lt_Infinity _ _ Hwithin) in Hbetter. discriminate.
Qed.

Lemma scanned_fold (p : Point) (groups : list Group) :
  scanned p groups (fold_left (nearest_step p) groups (None, Infinity)).
Proof.
  induction groups as [|g' groups IH] using rev_ind.
  - apply scanned_nil.
  - rewrite fold_left_app. cbn [fold_left]. apply scanned_snoc, IH.
Qed.


Lemma nearest_at_unique (p : Point) (groups : list Group)
    (i i' : nat) (g g' : Group) :
  nearest_at p groups i g -> nearest_at p groups i' g' -> i = i' /\ g = g'.
Proof.
  intros (Hi & Hg & Hmin) (Hi' & Hg' & Hmin').
  destruct (Nat.lt_total i i') as [Hlt|[Heq|Hgt]].
  - destruct (Hmin' i g Hi Hg) as (_ & _ & Hfirst).
    destruct (Hmin i' g' Hi' Hg') as (Hnot & _ & _).
    rewrite (Hfirst Hlt) in Hnot. discriminate.
  - subst i'. split; [reflexivity|congruence].
  - destruct (Hmin i' g' Hi' Hg') as (_ & _ & Hfirst).
    destruct (Hmin' i g Hi Hg) as (Hnot & _ & _).
    rewrite (Hfirst Hgt) in Hnot. discriminate.
Qed.

(** What [findNearestNodeColor] returns, in terms of the nodes within the
    radius. *)
Lemma findNearestNodeColor_spec (groups : list Group) (p : Point) :
  (findNearestNodeColor groups p = None <->
     forall g, g ∈ groups -> lt (node_distance p g) (of_Z 220) = false) /\
  (forall c : string,
     findNearestNodeColor groups p = Some c <->
     exists (i : nat) (g : Group),
       nearest_at p groups i g /\ c = g_ideaColor g).
Proof.
  pose proof (scanned_fold p groups) as Hscan.
  unfold findNearestNodeColor.
  destruct (fold_left (nearest_step p) groups (None, Infinity))
    as [best bestD] eqn:Hfold.
  unfold scanned in Hscan. cbn [fst snd] in *.
  change (of_Z 220) with nearestColorRadiusWorld.
  split.
  - destruct best as [c|].
    + destruct Hscan as (i & g & (Hi & Hg & _) & _). split; [discriminate|].
      intros Hall. exfalso. unfold within_radius in Hg.
      rewrite (Hall g) in Hg; [discriminate|].
      apply list_elem_of_lookup. eauto.
    + destruct Hscan as [_ Hall]. split; [|reflexivity]. intros _ g Hg.
      specialize (Hall g Hg). unfold within_radius in Hall.
      apply not_true_is_false, Hall.
  - intros c. destruct best as [c0|].
    + destruct Hscan as (i & g & Hnear & -> & _). split.
      * intros [= <-]. eauto.
      * intros (i' & g' & Hnear' & ->).
        destruct (nearest_at_unique p groups i i' g g' Hnear Hnear') as [_ ->].
        reflexivity.
    + destruct Hscan as [_ Hall]. split; [discriminate|].
      intros (i & g & (Hi & Hg & _) & _). exfalso.
      apply (Hall g); [|exact Hg]. apply list_elem_of_lookup. eauto.
Qed.



(** The radius is exclusive, and the first of two equidistant nodes
    wins. *)
Lemma nearest_color_examples :
  findNearestNodeColor [drawNode "n" "#5dade2" (of_Z 220) zero initial_stage]
                       (point 0 0) = None /\
  findNearestNodeColor [drawNode "n" "#5dade2" (of_Z 219) zero initial_stage]
                       (point 0 0) = Some "#5dade2" /\
  findNearestNodeColor
    [drawNode "far" "#5dade2" (of_Z 100) zero initial_stage;
     drawNode "left" "#f4d03f" (of_Z (-3)) (of_Z 4) initial_stage;
     drawNode "right" "#58d68d" (of_Z 3) (of_Z 4) initial_stage]
    (point 0 0) = Some "#f4d03f".
Proof. repeat split; vm_compute; reflexivity. Qed.

(** ** Selection *)

Lemma select_in_group_id (B : string) (g : Group) :
  g_nodeId (select_in_group B g) = g_nodeId g.
Proof. reflexivity. Qed.

Lemma select_in_group_hit (B : string) (g : Group) :
  g_nodeId g = B -> is_selected (select_in_group B g).
Proof.
  intros Hid. unfold is_selected, select_in_group; cbn.
  rewrite bool_decide_eq_true_2 by exact Hid. split; reflexivity.
Qed.

Lemma select_in_group_miss (B : string) (g : Group) :
  g_nodeId g <> B -> is_unselected (select_in_group B g).
Proof.
  intros Hid. unfold is_unselected, select_in_group; cbn.
  rewrite bool_decide_eq_false_2 by exact Hid. split; reflexivity.
Qed.

Lemma selected_not_unselected (g : Group) :
  is_selected g -> is_unselected g -> False.
Proof. intros [_ Hd] [_ Hd']. congruence. Qed.

Lemma selectNode_layer_ids (B : string) (s : State) :
  g_nodeId <$> layer (selectNode B s) = g_nodeId <$> layer s.
Proof.
  cbn. rewrite <- list_fmap_compose. apply list_fmap_ext.
  intros i g _. reflexivity.
Qed.

Lemma selectNode_lookup (B : string) (s : State) (i : nat) (g' : Group) :
  layer (selectNode B s) !! i = Some g' ->
  (g_nodeId g' = B -> is_selected g') /\
  (g_nodeId g' <> B -> is_unselected g').
Proof.
  cbn. rewrite list_lookup_fmap.
  destruct (layer s !! i) as [g|] eqn:Hg; cbn; [|discriminate].
  intros [= <-]. rewrite select_in_group_id. split.
  - apply select_in_group_hit.
  - apply select_in_group_miss.
Qed.

(** C9: after [selectNode B], on any state (in particular one where
    another node [A] was selected before), every group carrying [B]'s id
    has the outline stroke "rgba(255,255,255,0.9)" and is draggable, and
    every other group has the outline stroke "rgba(255,255,255,0.0)" and
    is not draggable; node ids being unique on the layer, no two groups are
    selected at once.  Selection leaves the visibility of every shape as it
    was: the outline of the selected node is on screen only where the node
    is drawn in readable mode (scale not below 0.85); in dot mode the
    outline shape is hidden, whether or not the node is selected. *)
Theorem selection_exclusive (s : State) (A B : string) :
  let s' := selectNode B (selectNode A s) in
  selectedNodeId s' = Some B /\
  g_nodeId <$> layer s' = g_nodeId <$> layer s /\
  (forall i g, layer s' !! i = Some g ->
     (g_nodeId g = B ->
      stroke (outline g) = "rgba(255,255,255,0.9)" /\ g_draggable g = true) /\
     (g_nodeId g <> B ->
      stroke (outline g) = "rgba(255,255,255,0.0)" /\
      g_draggable g = false)) /\
  (forall i g, layer s' !! i = Some g ->
     exists g0, layer s !! i = Some g0 /\
       visible (outline g) = visible (outline g0) /\
       visible (bubble g) = visible (bubble g0) /\
       visible (dot g) = visible (dot g0) /\
       visible (label g) = visible (label g0) /\
       (Gestures.rendered_for (scaleX (stage s)) g0 ->
        visible (outline g) = negb (lt (scaleX (stage s)) (literal 85 100)))) /\
  (NoDup (g_nodeId <$> layer s) ->
   forall i j gi gj,
     layer s' !! i = Some gi -> layer s' !! j = Some gj ->
     is_selected gi -> is_selected gj -> i = j).
Proof.
  intros s'. split; [reflexivity|]. split.
  { unfold s'. rewrite !selectNode_layer_ids. reflexivity. }
  split.
  { intros i g Hg. exact (selectNode_lookup B (selectNode A s) i g Hg). }
  split.
  { intros i g. unfold s'. cbn. rewrite !list_lookup_fmap.
    destruct (layer s !! i) as [g0|]; cbn; [|discriminate].
    intros [= <-]. exists g0. split; [reflexivity|]. cbn.
    repeat (split; [reflexivity|]).
    intros (_ & _ & Ho & _). exact Ho. }
  intros Hids i j gi gj Hi Hj Si Sj.
  assert (Hsel : forall k g, layer s' !! k = Some g -> is_selected g ->
                             (g_nodeId <$> layer s) !! k = Some B).
  { intros k g Hk Sk.
    destruct (selectNode_lookup B (selectNode A s) k g Hk) as [_ Hmiss].
    destruct (decide (g_nodeId g = B)) as [Heq|Hne].
    - rewrite <- (selectNode_layer_ids A s), <- (selectNode_layer_ids B).
      fold s'. rewrite list_lookup_fmap, Hk. cbn. congruence.
    - exfalso. exact (selected_not_unselected g Sk (Hmiss Hne)). }
  eapply NoDup_lookup; [exact Hids| |]; eauto.
Qed.

Lemma selection_exclusive_witness :
  NoDup (g_nodeId <$> layer sample_state) /\
  (g_draggable <$> layer (selectNode "a" sample_state)) = [true; false] /\
  (g_draggable <$> layer (selectNode "b" (selectNode "a" sample_state)))
    = [false; true] /\
  forall i j gi gj,
    layer (selectNode "b" (selectNode "a" sample_state)) !! i = Some gi ->
    layer (selectNode "b" (selectNode "a" sample_state)) !! j = Some gj ->
    is_selected gi -> is_selected gj -> i = j.
Proof.
  assert (Hids : NoDup (g_nodeId <$> layer sample_state)).
  { cbn. apply NoDup_cons_2; [|apply NoDup_singleton].
    rewrite list_elem_of_singleton. discriminate. }
  split; [exact Hids|]. split; [reflexivity|]. split; [reflexivity|].
  exact (proj2 (proj2 (proj2 (proj2
           (selection_exclusive sample_state "a" "b")))) Hids).
Defined.

(** C9, selection in dot mode: after four wheel steps out the scale of
    the sample canvas is below 0.85 and its nodes are drawn as dots.
    Selecting node b there, after node a, makes b the selected node,
    draggable and with the shown outline stroke, yet the outline shape of b
    stays hidden, as that of a: no node has its outline visible. *)
Lemma selection_outline_hidden_in_dot_mode :
  lt (scaleX (stage Gestures.zoomed_out_state)) (literal 85 100) = true /\
  selectedNodeId (selectNode "b" (selectNode "a" Gestures.zoomed_out_state))
    = Some "b" /\
  (g_nodeId <$>
     layer (selectNode "b" (selectNode "a" Gestures.zoomed_out_state)))
    = ["a"; "b"] /\
  (g_draggable <$>
     layer (selectNode "b" (selectNode "a" Gestures.zoomed_out_state)))
    = [false; true] /\
  ((fun g => stroke (outline g)) <$>
     layer (selectNode "b" (selectNode "a" Gestures.zoomed_out_state)))
    = ["rgba(255,255,255,0.0)"; "rgba(255,255,255,0.9)"] /\
  ((fun g => visible (outline g)) <$>
     layer (selectNode "b" (selectNode "a" Gestures.zoomed_out_state)))
    = [false; false] /\
  ((fun g => visible (dot g)) <$>
     layer (selectNode "b" (selectNode "a" Gestures.zoomed_out_state)))
    = [true; true].
Proof. vm_compute. repeat split. Qed.

End CanvasProps.

(* ===================================================================== *)
(** * Properties of the durability subsystem                              *)
(* ===================================================================== *)

Module DurabilityProps.
Import Durability.

(** The stored timestamp under [key], or 0 when the row is absent. *)
Lemma eval_getSetting (key : string) (fallback : Z) (w : World) :
  getSetting key fallback w = (default fallback (settings (db w) !! key), w).
Proof.
  unfold getSetting, bind, get_db, ret.
  destruct (settings (db w) !! key); reflexivity.
Qed.

(** ** Snapshot retention *)

#[local] Instance createdAt_le_trans : Transitive createdAt_le.
Proof. intros [??] [??] [??]. unfold createdAt_le. cbn. lia. Qed.

#[local] Instance createdAt_le_total : Total createdAt_le.
Proof. intros [??] [??]. unfold createdAt_le. cbn. lia. Qed.

Section keep_last_10.
Context (snaps : gmap Z Snapshot).

Let all : list (Z * Snapshot) := merge_sort createdAt_le (map_to_list snaps).
Let excess : nat := (length all - 10)%nat.

Lemma all_elem_of (k : Z) (v : Snapshot) :
  (k, v) ∈ all <-> snaps !! k = Some v.
Proof.
  unfold all. rewrite merge_sort_Permutation. apply elem_of_map_to_list.
Qed.

Lemma all_NoDup_keys : NoDup all.*1.
Proof.
  unfold all. rewrite merge_sort_Permutation. apply NoDup_fst_map_to_list.
Qed.

Lemma all_length : length all = size snaps.
Proof.
  unfold all. rewrite merge_sort_Permutation. apply length_map_to_list.
Qed.

Lemma all_split_keys :
  NoDup (take excess all).*1 /\
  (forall k, k ∈ (take excess all).*1 -> k ∉ (drop excess all).*1) /\
  NoDup (drop excess all).*1.
Proof.
  apply NoDup_app. rewrite <- fmap_app, take_drop. apply all_NoDup_keys.
Qed.

Lemma foldr_delete_excess (k : Z) (v : Snapshot) :
  foldr delete snaps (take excess all).*1 !! k = Some v <->
  (k, v) ∈ drop excess all.
Proof.
  destruct all_split_keys as (_ & Hdisj & _).
  rewrite lookup_foldr_delete_Some, <- all_elem_of.
  rewrite <- (take_drop excess all) at 2. rewrite elem_of_app. split.
  - intros [Hk [Hin|Hin]]; [|exact Hin].
    exfalso. apply Hk. apply list_elem_of_fmap. exists (k, v). auto.
  - intros Hin. split; [|right; exact Hin].
    intros Hk. apply (Hdisj k Hk). apply list_elem_of_fmap. exists (k, v). auto.
Qed.

Lemma keep_last_10_lookup (k : Z) (v : Snapshot) :
  keep_last_10 snaps !! k = Some v <-> (k, v) ∈ drop excess all.
Proof.
  unfold keep_last_10. fold all.
  destruct (10 <? length all)%nat eqn:Hlen.
  - apply foldr_delete_excess.
  - apply Nat.ltb_ge in Hlen.
    replace excess with 0%nat by (unfold excess; lia).
    rewrite drop_0. symmetry. apply all_elem_of.
Qed.

Lemma keep_last_10_list : keep_last_10 snaps = list_to_map (drop excess all).
Proof.
  destruct all_split_keys as (_ & _ & Hnd).
  apply map_eq. intros k. apply option_eq. intros v.
  rewrite keep_last_10_lookup, <- elem_of_list_to_map by exact Hnd. reflexivity.
Qed.

Lemma keep_last_10_size : size (keep_last_10 snaps) = (size snaps `min` 10)%nat.
Proof.
  destruct all_split_keys as (_ & _ & Hnd).
  rewrite keep_last_10_list, map_size_list_to_map by exact Hnd.
  rewrite length_drop. unfold excess. rewrite all_length. lia.
Qed.

Lemma keep_last_10_subseteq (k : Z) (v : Snapshot) :
  keep_last_10 snaps !! k = Some v -> snaps !! k = Some v.
Proof.
  rewrite keep_last_10_lookup, <- all_elem_of.
  rewrite <- (take_drop excess all) at 2. rewrite elem_of_app. auto.
Qed.

(** Oldest-first eviction: every evicted row precedes every kept row in the
    order of the [createdAt] index. *)
Lemma keep_last_10_newest (k k' : Z) (v v' : Snapshot) :
  keep_last_10 snaps !! k = Some v ->
  snaps !! k' = Some v' -> keep_last_10 snaps !! k' = None ->
  createdAt_le (k', v') (k, v).
Proof.
  intros Hkept Hin Hgone.
  apply keep_last_10_lookup in Hkept.
  assert (Hevicted : (k', v') ∈ take excess all).
  { apply all_elem_of in Hin.
    rewrite <- (take_drop excess all), elem_of_app in Hin.
    destruct Hin as [Hin|Hin]; [exact Hin|].
    apply keep_last_10_lookup in Hin. congruence. }
  eapply (StronglySorted_app_1_elem_of createdAt_le); [|exact Hevicted|exact Hkept].
  rewrite take_drop. apply StronglySorted_merge_sort; apply _.
Qed.

Lemma keep_last_10_small :
  (size snaps <= 10)%nat -> keep_last_10 snaps = snaps.
Proof.
  intros Hsz. unfold keep_last_10. fold all. rewrite all_length.
  rewrite (proj2 (Nat.ltb_ge 10 (size snaps))); [reflexivity|exact Hsz].
Qed.

(** With eleven rows, the single evicted row is the least one in the order
    of the index. *)
Lemma keep_last_10_evict_min (k0 : Z) (v0 : Snapshot) :
  size snaps = 11%nat ->
  snaps !! k0 = Some v0 ->
  (forall k v, snaps !! k = Some v -> createdAt_le (k0, v0) (k, v)) ->
  keep_last_10 snaps = delete k0 snaps.
Proof.
  intros Hsz Hk0 Hmin. unfold keep_last_10. fold all.
  pose proof all_length as Hlen. rewrite Hsz in Hlen. rewrite Hlen. cbn.
  assert (Hss : StronglySorted createdAt_le all)
    by (apply StronglySorted_merge_sort; apply _).
  pose proof (proj2 (all_elem_of k0 v0) Hk0) as Hin0.
  destruct all as [|[kh vh] rest] eqn:Hall; [discriminate|]. cbn.
  f_equal.
  assert (Hh : snaps !! kh = Some vh).
  { apply all_elem_of. fold all. rewrite Hall. left. }
  specialize (Hmin kh vh Hh).
  apply elem_of_cons in Hin0 as [Heq|Hin0]; [congruence|].
  apply StronglySorted_cons in Hss as [Hall_le _].
  rewrite Forall_forall in Hall_le. specialize (Hall_le _ Hin0).
  unfold createdAt_le in Hmin, Hall_le. cbn in Hmin, Hall_le. lia.
Qed.

(** With eleven rows exactly one is evicted, and it comes first in the
    order of the index. *)
Lemma keep_last_10_eleven :
  size snaps = 11%nat ->
  exists (k0 : Z) (v0 : Snapshot),
    snaps !! k0 = Some v0 /\
    keep_last_10 snaps = delete k0 snaps /\
    forall k v, snaps !! k = Some v -> createdAt_le (k0, v0) (k, v).
Proof.
  intros Hsz. unfold keep_last_10. fold all.
  pose proof all_length as Hlen. rewrite Hsz in Hlen. rewrite Hlen. cbn.
  assert (Hss : StronglySorted createdAt_le all)
    by (apply StronglySorted_merge_sort; apply _).
  pose proof all_elem_of as Hall_in.
  destruct all as [|[kh vh] rest] eqn:Hall; [discriminate|]. cbn.
  exists kh, vh. split; [|split; [reflexivity|]].
  - apply Hall_in. left.
  - intros k v Hk. apply Hall_in in Hk.
    apply elem_of_cons in Hk as [[= -> ->]|Hk].
    + unfold createdAt_le. cbn. lia.
    + apply StronglySorted_cons in Hss as [Hle _].
      rewrite Forall_forall in Hle. apply Hle, Hk.
Qed.

End keep_last_10.

(** What one run of [createInternalSnapshot] does to the world. *)
Lemma createInternalSnapshot_run (w : World) :
  let d := db w in
  let bk := mkBackup 1 (clock w (ticks w)) (toArray (books d))
                     (toArray (nodes d)) (rows_by_key (settings d)) in
  let id := snapshots_keygen d + 1 in
  exec createInternalSnapshot w =
    mkWorld (mkDb (books d) (nodes d) (settings d)
                  (keep_last_10
                     (<[id := mkSnapshot (clock w (S (ticks w))) bk]> (snapshots d)))
                  id)
            (banner_hidden w) (clock w) (S (S (ticks w))).
Proof.
  unfold exec, createInternalSnapshot, buildBackupObject, snapshots_add,
    snapshots_orderBy_createdAt, snapshots_bulkDelete, keep_last_10,
    bind, now, get_db, put_db, ret.
  cbn -[Nat.ltb Nat.sub merge_sort].
  match goal with |- context [Nat.ltb 10 ?n] => destruct (Nat.ltb 10 n) end;
    reflexivity.
Qed.

(** ** Backup nudge *)

(** What [maybeShowBackupNudge] decides, from the three stored timestamps
    and its two clock readings. *)
Lemma maybeShowBackupNudge_run (w : World) :
  let lastChanged := default 0 (settings (db w) !! lastChangedAt) in
  let lastExternal := default 0 (settings (db w) !! lastExternalBackupAt) in
  let lastDismiss := default 0 (settings (db w) !! lastNudgeDismissAt) in
  let t1 := clock w (ticks w) in
  let t2 := clock w (S (ticks w)) in
  exec maybeShowBackupNudge w =
    mkWorld (db w)
            (negb ((lastChanged >? lastExternal) && (t1 - lastExternal >=? dayMs)
                   && negb (t2 - lastDismiss <? dayMs)))
            (clock w) (S (S (ticks w))).
Proof.
  unfold exec, maybeShowBackupNudge.
  unfold bind at 1. rewrite eval_getSetting.
  unfold bind at 1. rewrite eval_getSetting.
  unfold bind at 1. rewrite eval_getSetting.
  unfold bind, now, set_banner_hidden. cbn.
  destruct (_ && _ && _); reflexivity.
Qed.

Lemma createInternalSnapshot_step (clk : nat -> Z) (n : nat) (w : World) :
  monotone_clock clk ->
  after_creations clk n w ->
  after_creations clk (S n) (exec createInternalSnapshot w).
Proof.
  intros Hmono (Hclk & Hticks & Hgen & Hsize & Hlook).
  rewrite createInternalSnapshot_run. cbv zeta.
  set (bk := mkBackup _ _ _ _ _).
  set (snap := mkSnapshot (clock w (S (ticks w))) bk).
  set (snaps1 := <[snapshots_keygen (db w) + 1 := snap]> (snapshots (db w))).
  assert (Hfresh : snapshots (db w) !! (snapshots_keygen (db w) + 1) = None).
  { specialize (Hlook (snapshots_keygen (db w) + 1)).
    rewrite decide_False in Hlook by lia.
    destruct (snapshots (db w) !! _); [discriminate|reflexivity]. }
  assert (Hsize1 : size snaps1 = S (n `min` 10)).
  { unfold snaps1. rewrite map_size_insert_None by exact Hfresh. lia. }
  assert (Hsnap : createdAt snap = clk (Z.to_nat (2 * (Z.of_nat n + 1) - 1))).
  { cbn. rewrite Hclk, Hticks. f_equal. lia. }
  assert (Hlook1 : forall k,
             createdAt <$> snaps1 !! k =
             if decide (Z.max 1 (Z.of_nat n - 9) <= k <= Z.of_nat n + 1)
             then Some (clk (Z.to_nat (2 * k - 1))) else None).
  { intros k. unfold snaps1. rewrite lookup_insert, Hgen.
    destruct (decide (Z.of_nat n + 1 = k)) as [<-|Hne].
    - cbn. rewrite decide_True by lia. f_equal. exact Hsnap.
    - rewrite Hlook. repeat case_decide; try reflexivity; lia. }
  unfold after_creations.
  cbn [db clock ticks snapshots snapshots_keygen].
  split; [exact Hclk|]. split; [lia|]. split; [lia|].
  destruct (decide (n < 10)%nat) as [Hlt|Hge].
  - rewrite keep_last_10_small by (fold snaps1; lia). fold snaps1.
    split; [lia|]. intros k. rewrite Hlook1.
    repeat case_decide; try reflexivity; lia.
  - set (k0 := Z.of_nat n - 9).
    destruct (snaps1 !! k0) as [v0|] eqn:Hk0.
    2:{ specialize (Hlook1 k0). rewrite Hk0, decide_True in Hlook1 by lia.
        discriminate. }
    assert (Hv0 : createdAt v0 = clk (Z.to_nat (2 * k0 - 1))).
    { specialize (Hlook1 k0). rewrite Hk0, decide_True in Hlook1 by lia.
      cbn in Hlook1. congruence. }
    rewrite (keep_last_10_evict_min snaps1 k0 v0); [|lia|exact Hk0|].
    + split.
      * rewrite map_size_delete_Some by eauto. lia.
      * intros k. rewrite lookup_delete. case_decide as Hk.
        -- subst k. rewrite decide_False by lia. reflexivity.
        -- rewrite Hlook1. repeat case_decide; try reflexivity; lia.
    + intros k v Hk. specialize (Hlook1 k). rewrite Hk in Hlook1.
      case_decide as Hrange; [|discriminate]. cbn in Hlook1.
      assert (Hle : createdAt v0 <= createdAt v).
      { rewrite Hv0. injection Hlook1 as ->. apply Hmono. lia. }
      unfold createdAt_le. cbn. lia.
Qed.

Lemma createInternalSnapshot_iterate (clk : nat -> Z) (j n : nat) (w : World) :
  monotone_clock clk ->
  after_creations clk n w ->
  after_creations clk (n + j) (repeat_run j createInternalSnapshot w).
Proof.
  intros Hmono. revert n w.
  induction j as [|j IH]; intros n w Hw; cbn.
  - rewrite Nat.add_0_r. exact Hw.
  - rewrite <- Nat.add_succ_comm. apply IH.
    apply createInternalSnapshot_step; assumption.
Qed.

Lemma createInternalSnapshot_newest (clk : nat -> Z) (n : nat) (w : World) :
  newest_kept clk n w -> newest_kept clk (S n) (exec createInternalSnapshot w).
Proof.
  intros (Hclk & Hticks & Hgen & Hsize & Hrows & Hfull & Hnewest).
  rewrite createInternalSnapshot_run. cbv zeta.
  set (bk := mkBackup _ _ _ _ _).
  set (snap := mkSnapshot (clock w (S (ticks w))) bk).
  set (snaps1 := <[snapshots_keygen (db w) + 1 := snap]> (snapshots (db w))).
  assert (Hfresh : snapshots (db w) !! (snapshots_keygen (db w) + 1) = None).
  { destruct (snapshots (db w) !! _) as [v|] eqn:Hv; [|reflexivity].
    apply Hrows in Hv. lia. }
  assert (Hsize1 : size snaps1 = S (n `min` 10)).
  { unfold snaps1. rewrite map_size_insert_None by exact Hfresh. lia. }
  assert (Hsnap : createdAt snap = creation_time clk (Z.of_nat n + 1)).
  { cbn. unfold creation_time. rewrite Hclk, Hticks. f_equal. lia. }
  assert (Hrows1 : forall k v, snaps1 !! k = Some v ->
             1 <= k <= Z.of_nat n + 1 /\ createdAt v = creation_time clk k).
  { intros k v. unfold snaps1. rewrite lookup_insert, Hgen.
    case_decide as Hk.
    - intros [= <-]. subst k. split; [lia|exact Hsnap].
    - intros Hv. apply Hrows in Hv. lia. }
  unfold newest_kept.
  cbn [db clock ticks snapshots snapshots_keygen]. fold snaps1.
  split; [exact Hclk|]. split; [lia|]. split; [lia|].
  split; [rewrite keep_last_10_size; lia|].
  split.
  { intros k v Hk. apply keep_last_10_subseteq in Hk.
    apply Hrows1 in Hk. lia. }
  destruct (decide (n < 10)%nat) as [Hlt|Hge].
  - (* nothing is evicted yet *)
    rewrite keep_last_10_small by lia.
    assert (Hall : forall j, 1 <= j <= Z.of_nat (S n) -> is_Some (snaps1 !! j)).
    { intros j Hj. unfold snaps1. rewrite lookup_insert, Hgen.
      case_decide; [eauto|]. apply Hfull; lia. }
    split; [intros _; exact Hall|].
    intros j k v Hj Hnone. specialize (Hall j Hj). rewrite Hnone in Hall.
    destruct Hall as [? [=]].
  - (* the table was full: the least of the eleven rows goes *)
    destruct (keep_last_10_eleven snaps1) as (k0 & v0 & Hk0 & -> & Hmin);
      [lia|].
    split; [intros Hle; lia|].
    intros j k v Hj Hgone Hkept.
    apply lookup_delete_Some in Hkept as [Hne Hkept].
    destruct (decide (j = k0)) as [->|Hjk0].
    + (* [j] is the row evicted now *)
      specialize (Hmin k v Hkept).
      destruct (Hrows1 k0 v0 Hk0) as [_ Hc0].
      unfold createdAt_le in Hmin. cbn [fst snd] in Hmin. lia.
    + (* [j] was evicted before *)
      rewrite lookup_delete_ne in Hgone by congruence.
      assert (Hj_old : 1 <= j <= Z.of_nat n /\ snapshots (db w) !! j = None).
      { unfold snaps1 in Hgone. rewrite lookup_insert, Hgen in Hgone.
        case_decide; [discriminate|]. split; [lia|exact Hgone]. }
      destruct Hj_old as [Hj_range Hj_none].
      assert (Hk0_old : snapshots (db w) !! k0 = Some v0 \/ k0 = Z.of_nat n + 1).
      { unfold snaps1 in Hk0. rewrite lookup_insert, Hgen in Hk0.
        case_decide; [right; lia|left; exact Hk0]. }
      unfold snaps1 in Hkept. rewrite lookup_insert, Hgen in Hkept.
      case_decide as Hk.
      * (* the new row is kept: compare through the evicted row *)
        injection Hkept as <-. subst k.
        destruct Hk0_old as [Hk0_old|Hk0_new]; [|congruence].
        pose proof (Hnewest j k0 v0 Hj_range Hj_none Hk0_old) as Hjk0'.
        assert (Hnew : snaps1 !! (Z.of_nat n + 1) = Some snap).
        { unfold snaps1. rewrite Hgen. apply lookup_insert_eq. }
        specialize (Hmin _ _ Hnew). unfold createdAt_le in Hmin.
        cbn [fst snd] in Hmin. lia.
      * exact (Hnewest j k v Hj_range Hj_none Hkept).
Qed.

Lemma createInternalSnapshot_newest_iterate (clk : nat -> Z) (j n : nat)
    (w : World) :
  newest_kept clk n w ->
  newest_kept clk (n + j) (repeat_run j createInternalSnapshot w).
Proof.
  revert n w. induction j as [|j IH]; intros n w Hw; cbn.
  - rewrite Nat.add_0_r. exact Hw.
  - rewrite <- Nat.add_succ_comm. apply IH, createInternalSnapshot_newest, Hw.
Qed.

Lemma fresh_world_newest_kept bs ns banner clk :
  newest_kept clk 0 (fresh_world bs ns banner clk).
Proof.
  unfold newest_kept. cbn.
  split; [reflexivity|]. split; [reflexivity|]. split; [reflexivity|].
  split; [reflexivity|]. split; [|split].
  - intros k v Hk. rewrite lookup_empty in Hk. discriminate.
  - intros _ j Hj. lia.
  - intros j k v Hj. lia.
Qed.

Lemma fresh_world_after_creations bs ns banner clk :
  after_creations clk 0 (fresh_world bs ns banner clk).
Proof.
  repeat split; try reflexivity.
  intros k. cbn. rewrite lookup_empty, decide_False by lia. reflexivity.
Qed.

(** C4: after every run of [createInternalSnapshot] at most 10 snapshots
    remain: all of them when the table with the new row has at most 10
    rows, and otherwise exactly 10, every evicted row coming before every
    kept row in the order of the creation-time index (oldest first, ties by
    id).  After 15 creations on a store without snapshots, on any clock,
    exactly 10 remain, each of them one of the 15 created, and each of the
    5 that are gone has a creation time no later than any of the 10 kept;
    on a clock that never goes back the 10 kept are the 6th to the 15th
    created. *)
Theorem snapshot_retention :
  (forall w : World,
     exists snap : Snapshot,
       createdAt snap = clock w (S (ticks w)) /\
       let added := <[snapshots_keygen (db w) + 1 := snap]> (snapshots (db w)) in
       let kept := snapshots (db (exec createInternalSnapshot w)) in
       (size kept <= 10)%nat /\
       size kept = (size added `min` 10)%nat /\
       (forall k v, kept !! k = Some v -> added !! k = Some v) /\
       (forall k v k' v',
          kept !! k = Some v -> added !! k' = Some v' -> kept !! k' = None ->
          createdAt v' <= createdAt v /\ createdAt_le (k', v') (k, v))) /\
  (forall bs ns banner clk,
     let w15 :=
       repeat_run 15 createInternalSnapshot (fresh_world bs ns banner clk) in
     size (snapshots (db w15)) = 10%nat /\
     (forall k v, snapshots (db w15) !! k = Some v ->
        1 <= k <= 15 /\ createdAt v = creation_time clk k) /\
     (forall j k v,
        1 <= j <= 15 ->
        snapshots (db w15) !! j = None -> snapshots (db w15) !! k = Some v ->
        creation_time clk j <= createdAt v /\
        (creation_time clk j = createdAt v -> j < k)) /\
     (monotone_clock clk ->
      forall k : Z, is_Some (snapshots (db w15) !! k) <-> 6 <= k <= 15)).
Proof.
  split.
  - intros w. rewrite createInternalSnapshot_run. cbv zeta.
    match goal with
    | |- context [keep_last_10 (<[_ := ?snap]> _)] => exists snap
    end.
    split; [reflexivity|]. cbn [db snapshots].
    split; [|split; [|split]].
    + rewrite keep_last_10_size. lia.
    + apply keep_last_10_size.
    + apply keep_last_10_subseteq.
    + intros k v k' v' Hk Hk' Hgone.
      pose proof (keep_last_10_newest _ k k' v v' Hk Hk' Hgone) as Hle.
      split; [|exact Hle]. unfold createdAt_le in Hle. cbn in Hle. lia.
  - intros bs ns banner clk w15.
    destruct (createInternalSnapshot_newest_iterate clk 15 0
                (fresh_world bs ns banner clk)
                (fresh_world_newest_kept bs ns banner clk))
      as (_ & _ & _ & Hsize & Hrows & _ & Hnewest).
    fold w15 in Hsize, Hrows, Hnewest.
    change (Z.of_nat (0 + 15)) with 15 in Hrows, Hnewest.
    split; [exact Hsize|]. split; [exact Hrows|]. split.
    + intros j k v Hj Hgone Hkept.
      pose proof (Hnewest j k v Hj Hgone Hkept) as Hle.
      assert (j <> k) by congruence. lia.
    + intros Hmono.
      destruct (createInternalSnapshot_iterate clk 15 0
                  (fresh_world bs ns banner clk) Hmono
                  (fresh_world_after_creations bs ns banner clk))
        as (_ & _ & _ & _ & Hlook).
      fold w15 in Hlook. intros k. specialize (Hlook k).
      change (Z.of_nat (0 + 15)) with 15 in Hlook.
      rewrite <- (fmap_is_Some createdAt), Hlook.
      case_decide as Hk; split; intros Hx;
        try lia; try (destruct Hx as [? [=]]); eauto.
Qed.

(** ** Change tracking *)

(** What one run of [markChanged] does: the two settings are written, the
    snapshot is taken on every 25th change, and the nudge is evaluated. *)
Lemma markChanged_run (w : World) :
  let d := db w in
  let t := clock w (ticks w) in
  let count := default 0 (settings d !! changeCount) + 1 in
  let w1 :=
    mkWorld (mkDb (books d) (nodes d)
                  (<[changeCount := count]> (<[lastChangedAt := t]> (settings d)))
                  (snapshots d) (snapshots_keygen d))
            (banner_hidden w) (clock w) (S (ticks w)) in
  exec markChanged w =
    exec maybeShowBackupNudge
         (if Z.rem count 25 =? 0 then exec createInternalSnapshot w1 else w1).
Proof.
  unfold exec at 1. unfold markChanged.
  unfold bind at 1. unfold now at 1.
  unfold bind at 1. unfold setSetting at 1, bind at 1, get_db at 1, put_db at 1.
  cbn [db].
  unfold bind at 1. rewrite eval_getSetting. cbn [db settings].
  rewrite lookup_insert_ne by discriminate.
  unfold bind at 1. unfold setSetting at 1, bind at 1, get_db at 1, put_db at 1.
  cbn [db books nodes settings snapshots snapshots_keygen banner_hidden clock ticks].
  unfold bind at 1. cbv zeta.
  destruct (Z.rem _ 25 =? 0).
  - unfold exec. destruct (createInternalSnapshot _) as [[] w2]. reflexivity.
  - reflexivity.
Qed.

Lemma markChanged_db (w : World) :
  let d := db w in
  let t := clock w (ticks w) in
  let count := default 0 (settings d !! changeCount) + 1 in
  let w1 :=
    mkWorld (mkDb (books d) (nodes d)
                  (<[changeCount := count]> (<[lastChangedAt := t]> (settings d)))
                  (snapshots d) (snapshots_keygen d))
            (banner_hidden w) (clock w) (S (ticks w)) in
  db (exec markChanged w) =
    db (if Z.rem count 25 =? 0 then exec createInternalSnapshot w1 else w1).
Proof.
  cbv zeta. rewrite markChanged_run, maybeShowBackupNudge_run. reflexivity.
Qed.

Lemma markChanged_step (n : nat) (w : World) :
  after_changes n w -> after_changes (S n) (exec markChanged w).
Proof.
  intros (Hcount & Hgen & Hsize & Hkeys).
  unfold after_changes. rewrite markChanged_db. cbv zeta.
  rewrite Hcount.
  assert (Hrem : Z.rem (Z.of_nat n + 1) 25 = (Z.of_nat n + 1) mod 25)
    by (apply Z.rem_mod_nonneg; lia).
  rewrite Hrem.
  replace (Z.of_nat (S n)) with (Z.of_nat n + 1) by lia.
  destruct ((Z.of_nat n + 1) mod 25 =? 0) eqn:Hmult.
  - apply Z.eqb_eq in Hmult.
    rewrite createInternalSnapshot_run.
    cbn [db books nodes settings snapshots snapshots_keygen clock ticks
         banner_hidden].
    set (snap := mkSnapshot _ _).
    assert (Hfresh : snapshots (db w) !! (snapshots_keygen (db w) + 1) = None).
    { destruct (snapshots (db w) !! _) as [v|] eqn:Hv; [|reflexivity].
      apply Hkeys in Hv. lia. }
    split; [|split; [|split]].
    + rewrite lookup_insert_eq. reflexivity.
    + rewrite Hgen. Z.to_euclidean_division_equations. lia.
    + rewrite keep_last_10_size, map_size_insert_None by exact Hfresh.
      Z.to_euclidean_division_equations. lia.
    + intros k v Hk. apply keep_last_10_subseteq in Hk.
      rewrite lookup_insert in Hk. case_decide.
      * lia.
      * apply Hkeys in Hk. lia.
  - apply Z.eqb_neq in Hmult.
    cbn [db books nodes settings snapshots snapshots_keygen].
    split; [|split; [|split]].
    + rewrite lookup_insert_eq. reflexivity.
    + rewrite Hgen. Z.to_euclidean_division_equations. lia.
    + rewrite Hsize. Z.to_euclidean_division_equations. lia.
    + intros k v Hk. apply Hkeys in Hk. exact Hk.
Qed.

Lemma markChanged_iterate (j n : nat) (w : World) :
  after_changes n w -> after_changes (n + j) (repeat_run j markChanged w).
Proof.
  revert n w. induction j as [|j IH]; intros n w Hw; cbn.
  - rewrite Nat.add_0_r. exact Hw.
  - rewrite <- Nat.add_succ_comm. apply IH, markChanged_step, Hw.
Qed.

Lemma fresh_world_after_changes bs ns banner clk :
  after_changes 0 (fresh_world bs ns banner clk).
Proof.
  repeat split; try reflexivity. intros k v. cbn. rewrite lookup_empty.
  discriminate.
Qed.

(** The number of snapshots after [n] changes on a fresh store. *)
Lemma markChanged_snapshot_count (n : nat) bs ns banner clk :
  let w := repeat_run n markChanged (fresh_world bs ns banner clk) in
  eval (getSetting changeCount 0) w = Z.of_nat n /\
  Z.of_nat (size (snapshots (db w))) = Z.min (Z.of_nat n / 25) 10.
Proof.
  intros w.
  destruct (markChanged_iterate n 0 (fresh_world bs ns banner clk)
              (fresh_world_after_changes bs ns banner clk))
    as (Hcount & _ & Hsize & _).
  fold w in Hcount, Hsize. split; [|exact Hsize].
  unfold eval. rewrite eval_getSetting. exact Hcount.
Qed.

(** C3: each call of [markChanged] stores the clock reading as the
    last-changed timestamp and the counter plus one as the change counter
    (an absent counter reads as 0), and it takes a snapshot (the key
    generator advances and the new row enters the table, which then keeps
    its last 10) exactly when the new counter is a multiple of 25;
    otherwise the snapshot table is untouched.  On a fresh store, after 25,
    50 and 75 calls the table holds exactly 1, 2 and 3 snapshots. *)
Theorem markChanged_counts (w : World) bs ns banner clk :
  let c := eval (getSetting changeCount 0) w in
  let w' := exec markChanged w in
  let fresh := fresh_world bs ns banner clk in
  settings (db w') !! lastChangedAt = Some (clock w (ticks w)) /\
  settings (db w') !! changeCount = Some (c + 1) /\
  ((25 | c + 1) ->
     snapshots_keygen (db w') = snapshots_keygen (db w) + 1 /\
     exists snap : Snapshot,
       createdAt snap = clock w (S (S (ticks w))) /\
       snapshots (db w') =
         keep_last_10 (<[snapshots_keygen (db w) + 1 := snap]> (snapshots (db w)))) /\
  (~ (25 | c + 1) ->
     snapshots_keygen (db w') = snapshots_keygen (db w) /\
     snapshots (db w') = snapshots (db w)) /\
  size (snapshots (db fresh)) = 0%nat /\
  size (snapshots (db (repeat_run 25 markChanged fresh))) = 1%nat /\
  size (snapshots (db (repeat_run 50 markChanged fresh))) = 2%nat /\
  size (snapshots (db (repeat_run 75 markChanged fresh))) = 3%nat.
Proof.
  cbv zeta. unfold eval. rewrite eval_getSetting. cbn [fst].
  rewrite markChanged_db. cbv zeta.
  set (c := default 0 (settings (db w) !! changeCount)).
  assert (Hdiv : Z.rem (c + 1) 25 = 0 <-> (25 | c + 1))
    by (apply Z.rem_divide; lia).
  split; [|split; [|split; [|split]]].
  - destruct (Z.rem (c + 1) 25 =? 0).
    + rewrite createInternalSnapshot_run. cbn.
      rewrite lookup_insert_ne by discriminate. apply lookup_insert_eq.
    + cbn. rewrite lookup_insert_ne by discriminate. apply lookup_insert_eq.
  - destruct (Z.rem (c + 1) 25 =? 0).
    + rewrite createInternalSnapshot_run. cbn. apply lookup_insert_eq.
    + cbn. apply lookup_insert_eq.
  - intros Hmult. apply Hdiv, Z.eqb_eq in Hmult. rewrite Hmult.
    rewrite createInternalSnapshot_run. cbn. split; [reflexivity|].
    eexists. split; [|reflexivity]. reflexivity.
  - intros Hmult.
    destruct (Z.rem (c + 1) 25 =? 0) eqn:Hrem.
    + exfalso. apply Hmult, Hdiv, Z.eqb_eq, Hrem.
    + split; reflexivity.
  - split; [reflexivity|].
    pose proof (markChanged_snapshot_count 25 bs ns banner clk) as [_ H25].
    pose proof (markChanged_snapshot_count 50 bs ns banner clk) as [_ H50].
    pose proof (markChanged_snapshot_count 75 bs ns banner clk) as [_ H75].
    cbv zeta in H25, H50, H75.
    change (Z.of_nat 25 / 25) with 1 in H25.
    change (Z.of_nat 50 / 25) with 2 in H50.
    change (Z.of_nat 75 / 25) with 3 in H75.
    repeat split; lia.
Qed.

(** C2: for every store, the nudge is visible after [maybeShowBackupNudge]
    if and only if [lastChangedAt > lastExternalBackupAt], at least 24
    hours (86400000 milliseconds) separate the clock from
    [lastExternalBackupAt], and it is not the case that fewer than 24 hours
    separate the clock from [lastNudgeDismissAt] (absent rows read as 0;
    the clock is read once for each of the two elapsed-time tests).  A dismissal less than 24 hours
    old hides the nudge whatever the other values are.  The evaluation
    leaves the store unchanged, and evaluating again with the same store
    and the same clock readings gives the same visibility, whatever the
    banner showed before. *)
Theorem nudge_visible_iff (w : World) :
  let lastChanged := eval (getSetting lastChangedAt 0) w in
  let lastExternal := eval (getSetting lastExternalBackupAt 0) w in
  let lastDismiss := eval (getSetting lastNudgeDismissAt 0) w in
  let t1 := clock w (ticks w) in
  let t2 := clock w (S (ticks w)) in
  let w' := exec maybeShowBackupNudge w in
  (banner_hidden w' = false <->
     lastChanged > lastExternal /\
     t1 - lastExternal >= 86400000 /\
     ~ (t2 - lastDismiss < 86400000)) /\
  (t2 - lastDismiss < 86400000 -> banner_hidden w' = true) /\
  db w' = db w /\
  (forall w2 : World,
     db w2 = db w ->
     clock w2 (ticks w2) = t1 -> clock w2 (S (ticks w2)) = t2 ->
     banner_hidden (exec maybeShowBackupNudge w2) = banner_hidden w').
Proof.
  cbv zeta. unfold eval. rewrite !eval_getSetting. cbn [fst].
  set (lastChanged := default 0 (settings (db w) !! lastChangedAt)).
  set (lastExternal := default 0 (settings (db w) !! lastExternalBackupAt)).
  set (lastDismiss := default 0 (settings (db w) !! lastNudgeDismissAt)).
  set (t1 := clock w (ticks w)). set (t2 := clock w (S (ticks w))).
  set (w' := exec maybeShowBackupNudge w).
  assert (Hw' : banner_hidden w' =
                negb ((lastChanged >? lastExternal)
                      && (t1 - lastExternal >=? dayMs)
                      && negb (t2 - lastDismiss <? dayMs))).
  { unfold w'. rewrite maybeShowBackupNudge_run. reflexivity. }
  change dayMs with 86400000 in Hw'.
  assert (Hdec : banner_hidden w' = false <->
                 lastChanged > lastExternal /\
                 t1 - lastExternal >= 86400000 /\
                 ~ (t2 - lastDismiss < 86400000)).
  { rewrite Hw', negb_false_iff, !andb_true_iff, negb_true_iff. lia. }
  split; [exact Hdec|]. split; [|split].
  - intros H. destruct (banner_hidden w'); [reflexivity|].
    destruct Hdec as [Hdec _]. destruct (Hdec eq_refl) as (_ & _ & Hn).
    contradiction.
  - unfold w'. rewrite maybeShowBackupNudge_run. reflexivity.
  - intros w2 Hdb Ht1 Ht2. rewrite Hw', maybeShowBackupNudge_run. cbn.
    rewrite Hdb, Ht1, Ht2. reflexivity.
Qed.

(** The scenario of the specification: with the last backup 25 hours old
    the nudge shows when the last dismissal is 48 hours old and stays
    hidden when it is one hour old. *)
Lemma nudge_scenario (T : Z) :
  banner_hidden
    (exec maybeShowBackupNudge (scenario_world T (48 * 60 * 60 * 1000)))
    = false /\
  banner_hidden
    (exec maybeShowBackupNudge (scenario_world T (1 * 60 * 60 * 1000)))
    = true.
Proof.
  rewrite !maybeShowBackupNudge_run. unfold scenario_world. cbn.
  repeat (rewrite ?lookup_insert_eq, ?lookup_empty;
          rewrite lookup_insert_ne by discriminate).
  rewrite ?lookup_insert_eq. cbn. unfold dayMs. split.
  - apply negb_false_iff. rewrite !andb_true_iff, negb_true_iff. lia.
  - apply negb_true_iff. rewrite !andb_false_iff, negb_false_iff. lia.
Qed.

(** C10: on a fresh store every timestamp reads as the fallback 0 and the
    nudge evaluation hides the banner.  The first [markChanged] stores its
    clock reading as the last-changed time, and the banner is visible after
    it exactly when that reading is above 0, the next reading is at least
    24 hours past the backup time 0, and the one after is not within 24
    hours of the dismissal time 0: so it is, on every clock that reads at
    least 24 hours past the epoch. *)
Theorem fresh_store_nudge bs ns banner (clk : nat -> Z) :
  let fresh := fresh_world bs ns banner clk in
  let booted := exec maybeShowBackupNudge fresh in
  let changed := exec markChanged booted in
  eval (getSetting lastChangedAt 0) fresh = 0 /\
  eval (getSetting lastExternalBackupAt 0) fresh = 0 /\
  eval (getSetting lastNudgeDismissAt 0) fresh = 0 /\
  banner_hidden booted = true /\
  eval (getSetting lastChangedAt 0) changed = clk 2%nat /\
  eval (getSetting lastExternalBackupAt 0) changed = 0 /\
  eval (getSetting lastNudgeDismissAt 0) changed = 0 /\
  (banner_hidden changed = false <->
     clk 2%nat > 0 /\ clk 3%nat - 0 >= dayMs /\ ~ (clk 4%nat - 0 < dayMs)) /\
  ((forall k, dayMs <= clk k) -> banner_hidden changed = false).
Proof.
  cbv zeta. unfold eval. rewrite !eval_getSetting. cbn [fst].
  rewrite markChanged_db, markChanged_run, !maybeShowBackupNudge_run.
  cbn. rewrite !lookup_empty. cbn.
  change (Z.rem (0 + 1) 25 =? 0) with false. cbn.
  repeat (rewrite ?lookup_insert_eq, ?lookup_empty;
          rewrite lookup_insert_ne by discriminate).
  rewrite ?lookup_insert_eq, ?lookup_empty. cbn.
  assert (Hiff :
            negb ((clk 2%nat >? 0) && (clk 3%nat - 0 >=? dayMs)
                  && negb (clk 4%nat - 0 <? dayMs)) = false <->
            clk 2%nat > 0 /\ clk 3%nat - 0 >= dayMs /\
            ~ (clk 4%nat - 0 < dayMs)).
  { rewrite negb_false_iff, !andb_true_iff, negb_true_iff. lia. }
  repeat (split; [reflexivity|]). split; [exact Hiff|].
  intros Hclk. apply Hiff.
  pose proof (Hclk 2%nat). pose proof (Hclk 3%nat). pose proof (Hclk 4%nat).
  unfold dayMs in *. lia.
Qed.

Lemma fresh_store_nudge_witness :
  (forall k, dayMs <= sample_clock k) /\
  banner_hidden
    (exec markChanged
       (exec maybeShowBackupNudge (fresh_world ∅ ∅ false sample_clock))) = false.
Proof.
  assert (Hclk : forall k, dayMs <= sample_clock k)
    by (intros k; unfold dayMs, sample_clock; lia).
  split; [exact Hclk|].
  apply (fresh_store_nudge ∅ ∅ false sample_clock). exact Hclk.
Defined.

Lemma snapshot_retention_witness :
  monotone_clock sample_clock /\
  size (snapshots
          (db (repeat_run 15 createInternalSnapshot
                          (fresh_world ∅ ∅ true sample_clock)))) = 10%nat.
Proof.
  assert (Hclk : monotone_clock sample_clock)
    by (intros i j Hij; unfold sample_clock; lia).
  split; [exact Hclk|].
  apply (proj2 snapshot_retention ∅ ∅ true sample_clock).
Defined.

(** ** Reading a table *)

Lemma rows_by_key_Permutation {V} (t : gmap string V) :
  rows_by_key t ≡ₚ map_to_list t.
Proof. apply merge_sort_Permutation. Qed.

Lemma toArray_Permutation {V} (t : gmap string V) :
  toArray t ≡ₚ (map_to_list t).*2.
Proof. unfold toArray. rewrite rows_by_key_Permutation. reflexivity. Qed.

Lemma rows_by_key_elem_of {V} (t : gmap string V) (k : string) (v : V) :
  (k, v) ∈ rows_by_key t <-> t !! k = Some v.
Proof. rewrite rows_by_key_Permutation. apply elem_of_map_to_list. Qed.

Lemma rows_by_key_NoDup {V} (t : gmap string V) : NoDup (rows_by_key t).*1.
Proof. rewrite rows_by_key_Permutation. apply NoDup_fst_map_to_list. Qed.

Lemma list_to_map_rows_by_key {V} (t : gmap string V) :
  list_to_map (rows_by_key t) = t.
Proof.
  rewrite <- (list_to_map_to_list t) at 2.
  apply list_to_map_proper; [apply rows_by_key_NoDup|].
  apply rows_by_key_Permutation.
Qed.

Lemma rows_by_key_sorted {V} (t : gmap string V) :
  StronglySorted String.le (rows_by_key t).*1.
Proof.
  unfold rows_by_key.
  apply (StronglySorted_fmap fst (fun a b : string * V => String.le a.1 b.1)).
  - intros x y H. exact H.
  - apply Sorted_StronglySorted.
    + intros x y z Hxy Hyz. etrans; eassumption.
    + apply Sorted_merge_sort. intros x y. apply (total String.le).
Qed.

End DurabilityProps.

(* ===================================================================== *)
(** * Gesture sequences                                                   *)
(* ===================================================================== *)

Module GestureProps.
Import JS Canvas Gestures JSProps CanvasProps.

(** ** Zoom range *)

Lemma le_not_lt_finite (a : number) (m : positive) (e : Z) :
  le a (S754_finite false m e) = true ->
  lt a (S754_finite false m e) = false ->
  a = S754_finite false m e.
Proof.
  unfold le, lt, SFleb, SFltb, SFcompare.
  destruct a as [[]|[]| |[] ma ea]; cbn; try discriminate.
  destruct (Z.compare_spec ea e) as [->| |]; cbn; try discriminate.
  change (PosDef.Pos.compare_cont Eq ma m) with (Pos.compare ma m).
  destruct (Pos.compare_spec ma m) as [->| |]; cbn; try discriminate.
  reflexivity.
Qed.

Lemma le_not_lt_finite_l (a : number) (m : positive) (e : Z) :
  le (S754_finite false m e) a = true ->
  lt (S754_finite false m e) a = false ->
  a = S754_finite false m e.
Proof.
  unfold le, lt, SFleb, SFltb, SFcompare.
  destruct a as [[]|[]| |[] ma ea]; cbn; try discriminate.
  destruct (Z.compare_spec e ea) as [<-| |]; cbn; try discriminate.
  change (PosDef.Pos.compare_cont Eq m ma) with (Pos.compare m ma).
  destruct (Pos.compare_spec m ma) as [<-| |]; cbn; try discriminate.
  reflexivity.
Qed.

(** X2 — [clampScale]: NaN stays NaN; every other number is brought into
    [[0.25, 3.0]] (it is at least 0.25 and at most 3); a number already in
    the range is returned as it is; a number below 0.25 gives 0.25 and a
    number above 3 gives 3: for example 0.1 gives 0.25, 5 gives 3,
    -Infinity gives 0.25 and Infinity gives 3. *)
Theorem clampScale_saturates (x : number) :
  (is_nan x = true -> clampScale x = NaN) /\
  (is_nan x = false ->
   le (literal 25 100) (clampScale x) = true /\
   le (clampScale x) (of_Z 3) = true) /\
  (le (literal 25 100) x = true -> le x (of_Z 3) = true ->
   clampScale x = x) /\
  (lt x (literal 25 100) = true -> clampScale x = literal 25 100) /\
  (lt (of_Z 3) x = true -> clampScale x = of_Z 3) /\
  clampScale (literal 1 10) = literal 25 100 /\
  clampScale (of_Z 5) = of_Z 3 /\
  clampScale NegInfinity = literal 25 100 /\
  clampScale Infinity = of_Z 3.
Proof.
  split; [|split; [|split; [|split; [|split;
    [|repeat split; vm_compute; reflexivity]]]]];
    rewrite <- ?minScale_literal, <- ?maxScale_literal.
  - intros H. rewrite clampScale_eq, H. reflexivity.
  - intros H. apply andb_true_iff. fold (scale_in_range (clampScale x)).
    rewrite clampScale_in_range, H. reflexivity.
  - intros Hlo Hhi.
    assert (H : scale_in_range x = true)
      by (unfold scale_in_range; rewrite Hlo, Hhi; reflexivity).
    clear Hlo Hhi. unfold scale_in_range in H.
    apply andb_true_iff in H as [Hmin Hmax].
    rewrite clampScale_eq.
    assert (Hnan : is_nan x = false) by (destruct x; [..|discriminate|]; reflexivity).
    rewrite Hnan.
    destruct (lt x maxScale) eqn:Hlt.
    + destruct (lt minScale x) eqn:Hlt'; [reflexivity|].
      symmetry. apply le_not_lt_finite_l; assumption.
    + symmetry. apply le_not_lt_finite; assumption.
  - intros H. rewrite clampScale_eq.
    destruct (lt_not_nan _ _ H) as [-> _].
    assert (Hmm : lt minScale maxScale = true) by reflexivity.
    rewrite (lt_trans _ _ _ H Hmm), (lt_asym _ _ H). reflexivity.
  - intros H. rewrite clampScale_eq.
    destruct (lt_not_nan _ _ H) as [_ ->].
    rewrite (lt_asym _ _ H). reflexivity.
Qed.

(** X1 — Zoom range over a whole gesture history.  From a scale in
    [[0.25, 3.0]] (at least 0.25 and at most 3), with no pinch in progress
    or a positive finite recorded distance, every sequence of stage events
    whose two-contact moves have their contacts a positive finite distance
    apart leaves the scale at least 0.25 and at most 3 after each of its
    events. *)
Theorem zoom_range_kept (s : State) (es : list Event) :
  le (literal 25 100) (scaleX (stage s)) = true ->
  le (scaleX (stage s)) (of_Z 3) = true ->
  (lastCenter s <> None -> is_positive_finite (lastDist s) = true) ->
  Forall contacts_apart es ->
  forall n : nat,
    le (literal 25 100) (scaleX (stage (run s (take n es)))) = true /\
    le (scaleX (stage (run s (take n es)))) (of_Z 3) = true.
Proof.
  intros Hmin Hmax Hdist Hes n.
  apply andb_true_iff. rewrite <- scale_in_range_literal.
  apply (run_zoom_ready (take n es) s).
  - apply Forall_take, Hes.
  - split; [|assumption].
    rewrite scale_in_range_literal, Hmin, Hmax. reflexivity.
Qed.

(** ** Level of detail *)

Lemma rendered_for_update (g : Group) (s : number) :
  rendered_for s (updateNodeRenderForScale g s).
Proof. repeat split. Qed.

Lemma lod_consistent_same (s s' : State) :
  scaleX (stage s') = scaleX (stage s) -> layer s' = layer s ->
  lod_consistent s -> lod_consistent s'.
Proof. unfold lod_consistent. intros -> ->. auto. Qed.

Lemma lod_consistent_zoom_about (focus pointTo : Point) (newScale : number)
    (s : State) :
  lod_consistent (zoom_about focus pointTo newScale s).
Proof.
  unfold lod_consistent, zoom_about, update_all_for_scale.
  cbn [stage layer stage_position stage_scale scaleX].
  apply Forall_forall. intros g Hg.
  apply list_elem_of_In, in_map_iff in Hg as (g0 & <- & _).
  apply rendered_for_update.
Qed.

Lemma pan_move_layer (pointer : option Point) (s : State) :
  layer (pan_move pointer s) = layer s.
Proof.
  unfold pan_move. destruct (panStart s); [|reflexivity].
  destruct (isPinching s); [reflexivity|].
  destruct (selected_is_dragging s); [reflexivity|].
  destruct pointer; reflexivity.
Qed.

Lemma pan_start_layer (bg : bool) (pointer : option Point) (s : State) :
  layer (pan_start bg pointer s) = layer s.
Proof.
  unfold pan_start. destruct (negb bg); [reflexivity|].
  destruct (isPinching s); reflexivity.
Qed.

Lemma step_lod_consistent (s : State) (e : Event) :
  lod_consistent s -> lod_consistent (step s e).
Proof.
  intros Hs.
  destruct e as [bg pointer|touches pointer| |bg pointer|pointer|
                 |deltaY pointer]; cbn [step].
  - eapply lod_consistent_same; [apply pan_start_scale|apply pan_start_layer|].
    exact Hs.
  - eapply lod_consistent_same; [apply pan_move_scale|apply pan_move_layer|].
    unfold touchmove_pinch.
    destruct touches as [[|t0 [|t1 [|t2 rest]]]|]; try exact Hs.
    destruct (lastCenter s); [|exact Hs].
    cbv zeta. unfold set_pinch.
    eapply lod_consistent_same; [| |apply lod_consistent_zoom_about];
      reflexivity.
  - exact Hs.
  - eapply lod_consistent_same; [apply pan_start_scale|apply pan_start_layer|].
    exact Hs.
  - eapply lod_consistent_same; [apply pan_move_scale|apply pan_move_layer|].
    exact Hs.
  - exact Hs.
  - unfold wheel. destruct pointer; [|exact Hs].
    apply lod_consistent_zoom_about.
Qed.

Lemma run_lod_consistent (es : list Event) (s : State) :
  lod_consistent s -> lod_consistent (run s es).
Proof.
  revert s. induction es as [|e es IH]; intros s Hs; [exact Hs|].
  change (run s (e :: es)) with (run (step s e) es).
  apply IH, step_lod_consistent, Hs.
Qed.

Lemma rendered_for_drawNode (id color : string) (x y : number) (st : Stage) :
  rendered_for (scaleX st) (drawNode id color x y st).
Proof. apply rendered_for_update. Qed.

Lemma selectNode_lod_consistent (id : string) (s : State) :
  lod_consistent s -> lod_consistent (selectNode id s).
Proof.
  unfold lod_consistent, selectNode. cbn [stage layer].
  intros Hs. apply Forall_forall. intros g Hg.
  apply list_elem_of_In, in_map_iff in Hg as (g0 & <- & Hg0).
  apply list_elem_of_In in Hg0.
  exact (proj1 (Forall_forall _ _) Hs g0 Hg0).
Qed.

Lemma background_tap_lod_consistent (s : State) :
  lod_consistent s -> lod_consistent (background_tap s).
Proof.
  unfold lod_consistent, background_tap. cbn [stage layer].
  intros Hs. apply Forall_forall. intros g Hg.
  apply list_elem_of_In, in_map_iff in Hg as (g0 & <- & Hg0).
  apply list_elem_of_In in Hg0.
  exact (proj1 (Forall_forall _ _) Hs g0 Hg0).
Qed.

(** X3 — Level of detail follows the stage.  A group drawn by [drawNode]
    shows the render mode of the current scale; a zoom by wheel or pinch
    puts every node in the render mode of the new scale, whatever it
    showed before; and once every node shows the mode of the stage scale,
    it stays so through every sequence of stage events, selections and
    background taps. *)
Theorem level_of_detail_follows_scale (s : State) :
  (forall id color x y,
     rendered_for (scaleX (stage s)) (drawNode id color x y (stage s))) /\
  (forall deltaY pointer,
     lod_consistent (step s (Wheel deltaY (Some pointer)))) /\
  (forall c t0 t1 pointer,
     lastCenter s = Some c ->
     lod_consistent (step s (TouchMove (Some [t0; t1]) pointer))) /\
  (forall es, lod_consistent s -> lod_consistent (run s es)) /\
  (forall id, lod_consistent s -> lod_consistent (selectNode id s)) /\
  (lod_consistent s -> lod_consistent (background_tap s)).
Proof.
  split; [intros; apply rendered_for_drawNode|].
  split; [intros; apply lod_consistent_zoom_about|].
  split.
  { intros c t0 t1 pointer Hc. cbn [step].
    eapply lod_consistent_same; [apply pan_move_scale|apply pan_move_layer|].
    unfold touchmove_pinch. rewrite Hc. cbv zeta. unfold set_pinch.
    eapply lod_consistent_same; [| |apply lod_consistent_zoom_about];
      reflexivity. }
  split; [intros es; apply run_lod_consistent|].
  split; [intros id; apply selectNode_lod_consistent|].
  apply background_tap_lod_consistent.
Qed.

(** ** What gestures leave alone *)

Lemma node_attrs_update (g : Group) (s : number) :
  node_attrs (updateNodeRenderForScale g s) = node_attrs g.
Proof. reflexivity. Qed.

Lemma step_selection (s : State) (e : Event) :
  selectedNodeId (step s e) = selectedNodeId s.
Proof.
  destruct e as [bg pointer|touches pointer| |bg pointer|pointer|
                 |deltaY pointer]; cbn [step].
  - unfold pan_start. destruct (negb bg); [reflexivity|].
    destruct (isPinching s); reflexivity.
  - transitivity (selectedNodeId (touchmove_pinch touches s)).
    + unfold pan_move. destruct (panStart _); [|reflexivity].
      destruct (isPinching _); [reflexivity|].
      destruct (selected_is_dragging _); [reflexivity|].
      destruct pointer; reflexivity.
    + unfold touchmove_pinch.
      destruct touches as [[|t0 [|t1 [|t2 rest]]]|]; try reflexivity.
      destruct (lastCenter s); reflexivity.
  - reflexivity.
  - unfold pan_start. destruct (negb bg); [reflexivity|].
    destruct (isPinching s); reflexivity.
  - unfold pan_move. destruct (panStart _); [|reflexivity].
    destruct (isPinching _); [reflexivity|].
    destruct (selected_is_dragging _); [reflexivity|].
    destruct pointer; reflexivity.
  - reflexivity.
  - unfold wheel. destruct pointer; reflexivity.
Qed.

Lemma zoom_about_attrs (focus pointTo : Point) (newScale : number)
    (s : State) :
  node_attrs <$> layer (zoom_about focus pointTo newScale s)
  = node_attrs <$> layer s.
Proof.
  unfold zoom_about, update_all_for_scale. cbn [layer].
  induction (layer s) as [|g gs IH]; [reflexivity|].
  cbn. rewrite node_attrs_update. f_equal. exact IH.
Qed.

Lemma step_attrs (s : State) (e : Event) :
  node_attrs <$> layer (step s e) = node_attrs <$> layer s.
Proof.
  destruct e as [bg pointer|touches pointer| |bg pointer|pointer|
                 |deltaY pointer]; cbn [step].
  - rewrite pan_start_layer. reflexivity.
  - rewrite pan_move_layer. unfold touchmove_pinch.
    destruct touches as [[|t0 [|t1 [|t2 rest]]]|]; try reflexivity.
    destruct (lastCenter s); [|reflexivity].
    cbv zeta. unfold set_pinch. cbn [layer]. apply zoom_about_attrs.
  - reflexivity.
  - rewrite pan_start_layer. reflexivity.
  - rewrite pan_move_layer. reflexivity.
  - reflexivity.
  - unfold wheel. destruct pointer; [|reflexivity]. apply zoom_about_attrs.
Qed.

Lemma step_uniform_scale (s : State) (e : Event) :
  scaleY (stage s) = scaleX (stage s) ->
  scaleY (stage (step s e)) = scaleX (stage (step s e)).
Proof.
  intros Hs.
  destruct e as [bg pointer|touches pointer| |bg pointer|pointer|
                 |deltaY pointer]; cbn [step].
  - unfold pan_start. destruct (negb bg); [exact Hs|].
    destruct (isPinching s); exact Hs.
  - assert (Hp : scaleY (stage (touchmove_pinch touches s))
                 = scaleX (stage (touchmove_pinch touches s))).
    { unfold touchmove_pinch.
      destruct touches as [[|t0 [|t1 [|t2 rest]]]|]; try exact Hs.
      destruct (lastCenter s); [reflexivity|exact Hs]. }
    revert Hp. generalize (touchmove_pinch touches s). intros s1 Hp.
    unfold pan_move. destruct (panStart _); [|exact Hp].
    destruct (isPinching _); [exact Hp|].
    destruct (selected_is_dragging _); [exact Hp|].
    destruct pointer; [exact Hp|exact Hp].
  - exact Hs.
  - unfold pan_start. destruct (negb bg); [exact Hs|].
    destruct (isPinching s); exact Hs.
  - unfold pan_move. destruct (panStart _); [|exact Hs].
    destruct (isPinching _); [exact Hs|].
    destruct (selected_is_dragging _); [exact Hs|].
    destruct pointer; exact Hs.
  - exact Hs.
  - unfold wheel. destruct pointer; [reflexivity|exact Hs].
Qed.

(** X4 — Pan, pinch and wheel only move and scale the view.  Through
    every sequence of stage events the selection stays what it was, the
    layer keeps the same nodes in the same order, each with its
    identifier, color, position, drag flags and outline stroke, and the
    horizontal and vertical scales stay equal if they were. *)
Theorem gestures_leave_nodes (s : State) (es : list Event) :
  selectedNodeId (run s es) = selectedNodeId s /\
  node_attrs <$> layer (run s es) = node_attrs <$> layer s /\
  (scaleY (stage s) = scaleX (stage s) ->
   scaleY (stage (run s es)) = scaleX (stage (run s es))).
Proof.
  revert s. induction es as [|e es IH]; intros s; [auto|].
  change (run s (e :: es)) with (run (step s e) es).
  destruct (IH (step s e)) as (Hsel & Hattrs & Hscale).
  rewrite Hsel, Hattrs, step_selection, step_attrs.
  repeat split. intros Hs. apply Hscale, step_uniform_scale, Hs.
Qed.

(** ** Pan and pinch *)

(** X5 — Mode exclusivity.  A move with two contacts never pans: it puts
    the gesture in pinching mode and the pan handler leaves its result as
    it is.  While pinching, a touch start or mouse down does not start a
    pan and a move with one contact or with the mouse changes nothing.
    While the selected node is being dragged, a move does not pan. *)
Theorem pinch_excludes_pan (s : State) :
  (forall t0 t1 pointer,
     step s (TouchMove (Some [t0; t1]) pointer)
       = touchmove_pinch (Some [t0; t1]) s /\
     isPinching (step s (TouchMove (Some [t0; t1]) pointer)) = true /\
     panStart (step s (TouchMove (Some [t0; t1]) pointer)) = panStart s) /\
  (isPinching s = true ->
     (forall bg pointer, step s (TouchStart bg pointer) = s) /\
     (forall bg pointer, step s (MouseDown bg pointer) = s) /\
     (forall pointer, step s (MouseMove pointer) = s) /\
     (forall t pointer, step s (TouchMove (Some [t]) pointer) = s)) /\
  (selected_is_dragging s = true ->
     forall pointer, pan_move pointer s = s).
Proof.
  split; [|split].
  - intros t0 t1 pointer. cbn [step].
    assert (Hp : isPinching (touchmove_pinch (Some [t0; t1]) s) = true).
    { unfold touchmove_pinch. destruct (lastCenter s); reflexivity. }
    assert (Hs : panStart (touchmove_pinch (Some [t0; t1]) s) = panStart s).
    { unfold touchmove_pinch. destruct (lastCenter s); reflexivity. }
    assert (Hm : pan_move pointer (touchmove_pinch (Some [t0; t1]) s)
                 = touchmove_pinch (Some [t0; t1]) s).
    { unfold pan_move. rewrite Hp. destruct (panStart _); reflexivity. }
    rewrite Hm. auto.
  - intros Hp. repeat split.
    + intros bg pointer. cbn [step]. unfold pan_start. rewrite Hp.
      destruct (negb bg); reflexivity.
    + intros bg pointer. cbn [step]. unfold pan_start. rewrite Hp.
      destruct (negb bg); reflexivity.
    + intros pointer. cbn [step]. unfold pan_move. rewrite Hp.
      destruct (panStart s); reflexivity.
    + intros t pointer. cbn [step touchmove_pinch]. unfold pan_move.
      rewrite Hp. destruct (panStart s); reflexivity.
  - intros Hd pointer. unfold pan_move. rewrite Hd.
    destruct (panStart s); [|reflexivity].
    destruct (isPinching s); reflexivity.
Qed.

(** X6 — Lifting a finger ends the gesture without moving the view.  A
    touch end resets the pinch center, the pinch distance, the pinching
    flag and the pan start, and changes nothing else; the move that
    follows it, with any contacts and pointer, leaves the stage and the
    layer as they are, so that the view does not jump when a pinch turns
    into a one-finger move. *)
Theorem touchend_resets_gesture (s : State) :
  stage (step s TouchEnd) = stage s /\
  layer (step s TouchEnd) = layer s /\
  selectedNodeId (step s TouchEnd) = selectedNodeId s /\
  gesture_vars (step s TouchEnd) = (None, zero, false, None) /\
  forall touches pointer,
    stage (step (step s TouchEnd) (TouchMove touches pointer)) = stage s /\
    layer (step (step s TouchEnd) (TouchMove touches pointer)) = layer s.
Proof.
  repeat split.
  - cbn [step]. unfold pan_move, touchmove_pinch.
    destruct touches as [[|t0 [|t1 [|t2 rest]]]|]; reflexivity.
  - cbn [step]. unfold pan_move, touchmove_pinch.
    destruct touches as [[|t0 [|t1 [|t2 rest]]]|]; reflexivity.
Qed.

(** ** Selection *)

Lemma select_in_group_twice (A B : string) (g : Group) :
  select_in_group B (select_in_group A g) = select_in_group B g.
Proof. reflexivity. Qed.

Lemma deselect_select_in_group (A : string) (g : Group) :
  deselect_group (select_in_group A g) = deselect_group g.
Proof. reflexivity. Qed.

(** X7 — Selection is decided by the last tap alone.  Selecting [B]
    after [A] gives the very state that selecting [B] at once gives; a
    background tap after any selection gives the state of a background tap
    alone, in which no node is recorded as selected and every node has the
    outline stroke "rgba(255,255,255,0.0)" and cannot be dragged.  Neither
    a selection nor a background tap touches the stage, the gesture
    variables, or a node's identifier, color, position, dragging flag and
    visible parts. *)
Theorem selection_last_tap_wins (s : State) (A B : string) :
  selectNode B (selectNode A s) = selectNode B s /\
  background_tap (selectNode A s) = background_tap s /\
  selectedNodeId (background_tap s) = None /\
  Forall (fun g => stroke (outline g) = "rgba(255,255,255,0.0)" /\
                   g_draggable g = false)
         (layer (background_tap s)) /\
  stage (selectNode A s) = stage s /\
  stage (background_tap s) = stage s /\
  gesture_vars (selectNode A s) = gesture_vars s /\
  gesture_vars (background_tap s) = gesture_vars s /\
  Forall2 (fun g g' =>
             g_nodeId g' = g_nodeId g /\ g_ideaColor g' = g_ideaColor g /\
             g_x g' = g_x g /\ g_y g' = g_y g /\
             g_isDragging g' = g_isDragging g /\
             visible (dot g') = visible (dot g) /\
             visible (bubble g') = visible (bubble g) /\
             visible (outline g') = visible (outline g) /\
             visible (label g') = visible (label g))
          (layer s) (layer (selectNode A s)) /\
  Forall2 (fun g g' =>
             g_nodeId g' = g_nodeId g /\ g_ideaColor g' = g_ideaColor g /\
             g_x g' = g_x g /\ g_y g' = g_y g /\
             g_isDragging g' = g_isDragging g /\
             visible (dot g') = visible (dot g) /\
             visible (bubble g') = visible (bubble g) /\
             visible (outline g') = visible (outline g) /\
             visible (label g') = visible (label g))
          (layer s) (layer (background_tap s)).
Proof.
  split; [|split; [|split; [|split]]].
  - unfold selectNode. cbn [stage layer lastCenter lastDist isPinching panStart].
    f_equal. rewrite map_map. apply map_ext. intros g.
    apply select_in_group_twice.
  - unfold background_tap, selectNode.
    cbn [stage layer lastCenter lastDist isPinching panStart].
    f_equal. rewrite map_map. apply map_ext. intros g.
    apply deselect_select_in_group.
  - reflexivity.
  - unfold background_tap. cbn [layer]. apply Forall_forall. intros g Hg.
    apply list_elem_of_In, in_map_iff in Hg as (g0 & <- & _).
    split; reflexivity.
  - do 4 (split; [reflexivity|]). split.
    + unfold selectNode. cbn [layer].
      induction (layer s) as [|g gs IH]; constructor; [|exact IH].
      repeat split.
    + unfold background_tap. cbn [layer].
      induction (layer s) as [|g gs IH]; constructor; [|exact IH].
      repeat split.
Qed.

(** ** Examples *)

Lemma zoom_range_kept_witness :
  le (literal 25 100)
     (scaleX (stage (run sample_state
        (take 5 [touches_down; touches_apart; touches_wide; TouchEnd;
                 wheel_in])))) = true /\
  le (scaleX (stage (run sample_state
        (take 5 [touches_down; touches_apart; touches_wide; TouchEnd;
                 wheel_in])))) (of_Z 3) = true.
Proof.
  apply (zoom_range_kept sample_state
           [touches_down; touches_apart; touches_wide; TouchEnd; wheel_in]).
  - vm_compute. reflexivity.
  - vm_compute. reflexivity.
  - intros H. exfalso. apply H. reflexivity.
  - repeat constructor.
Defined.

Lemma first_pinch_move_records_witness :
  stage (step sample_state touches_apart) = stage sample_state /\
  layer (step sample_state touches_apart) = layer sample_state /\
  isPinching (step sample_state touches_apart) = true /\
  lastCenter (step sample_state touches_apart) = Some (point 5 5) /\
  lastDist (step sample_state touches_apart) = of_Z 10.
Proof.
  pose proof (first_pinch_move_records sample_state (touch 2 1) (touch 8 9)
                (Some (point 2 1)) eq_refl) as H.
  cbv zeta in H. destruct H as (H1 & H2 & _ & H3 & H4 & H5).
  split; [exact H1|]. split; [exact H2|]. split; [exact H3|].
  split.
  - etransitivity; [exact H4|]. vm_compute. reflexivity.
  - etransitivity; [exact H5|]. vm_compute. reflexivity.
Defined.

Lemma pinch_on_zero_distance_witness :
  lastCenter stuck_state = Some (point 5 5) /\
  lastDist stuck_state = pos_zero /\
  scaleX (stage (step stuck_state touches_apart)) = maxScale /\
  scaleX (stage (step stuck_state touches_together)) = NaN.
Proof.
  assert (H1 : lastCenter stuck_state = Some (point 5 5))
    by (vm_compute; reflexivity).
  assert (H2 : lastDist stuck_state = pos_zero) by (vm_compute; reflexivity).
  assert (H3 : scale_in_range (scaleX (stage stuck_state)) = true)
    by (vm_compute; reflexivity).
  split; [exact H1|]. split; [exact H2|]. split.
  - apply (proj1 (pinch_on_zero_distance stuck_state (point 5 5)
                    (touch 2 1) (touch 8 9) (Some (point 2 1)) H1 H2 H3)).
    vm_compute. reflexivity.
  - apply (proj2 (pinch_on_zero_distance stuck_state (point 5 5)
                    (touch 5 5) (touch 5 5) (Some (point 5 5)) H1 H2 H3)).
    vm_compute. reflexivity.
Defined.

End GestureProps.

(* ===================================================================== *)
(** * Change tracking, dismissal and export                               *)
(* ===================================================================== *)

Module BackupProps.
Import JS Durability Bookshelf DurabilityProps.

(** What one run of [markChanged] leaves: the two tables of books and
    nodes, every other setting and the clock are as before; [k] is the
    reading at which the nudge is evaluated. *)
Lemma markChanged_effect (w : World) :
  exists k : nat,
    (ticks w < k)%nat /\
    let w' := exec markChanged w in
    let ss := <[changeCount := default 0 (settings (db w) !! changeCount) + 1]>
                (<[lastChangedAt := clock w (ticks w)]> (settings (db w))) in
    books (db w') = books (db w) /\
    nodes (db w') = nodes (db w) /\
    settings (db w') = ss /\
    clock w' = clock w /\
    ticks w' = S (S k) /\
    snapshots_keygen (db w) <= snapshots_keygen (db w') /\
    ((size (snapshots (db w)) <= 10)%nat ->
     (size (snapshots (db w')) <= 10)%nat) /\
    banner_hidden w' =
      negb ((clock w (ticks w) >? default 0 (ss !! lastExternalBackupAt))
            && (clock w k - default 0 (ss !! lastExternalBackupAt) >=? dayMs)
            && negb (clock w (S k) - default 0 (ss !! lastNudgeDismissAt)
                     <? dayMs)).
Proof.
  pose proof (markChanged_run w) as Hrun. cbv zeta in Hrun.
  destruct (Z.rem (default 0 (settings (db w) !! changeCount) + 1) 25 =? 0).
  - exists (S (S (S (ticks w)))). split; [lia|].
    cbv zeta. rewrite Hrun, createInternalSnapshot_run, maybeShowBackupNudge_run.
    cbn [db books nodes settings snapshots snapshots_keygen banner_hidden
         clock ticks].
    rewrite lookup_insert_ne by discriminate. rewrite lookup_insert_eq.
    repeat split; try reflexivity; try lia.
    intros _. rewrite keep_last_10_size. lia.
  - exists (S (ticks w)). split; [lia|].
    cbv zeta. rewrite Hrun, maybeShowBackupNudge_run.
    cbn [db books nodes settings snapshots snapshots_keygen banner_hidden
         clock ticks].
    rewrite lookup_insert_ne by discriminate. rewrite lookup_insert_eq.
    repeat split; try reflexivity; try lia.
Qed.

Lemma repeat_run_snoc (n : nat) (m : M unit) (w : World) :
  repeat_run (S n) m w = exec m (repeat_run n m w).
Proof.
  revert w. induction n as [|n IH]; intros w; [reflexivity|].
  change (repeat_run (S (S n)) m w) with (repeat_run (S n) m (exec m w)).
  rewrite IH. reflexivity.
Qed.

(** X10 — Change tracking touches nothing but its own records.  After any
    number [n] of calls of [markChanged], from any store: the books and the
    nodes are as they were, the change counter has grown by exactly [n],
    every setting other than [lastChangedAt] and [changeCount] is as it
    was, the clock is the same, the snapshot key generator has not gone
    back, and a snapshot table of at most 10 rows still has at most 10. *)
Theorem markChanged_only_counts (w : World) (n : nat) :
  let w' := repeat_run n markChanged w in
  books (db w') = books (db w) /\
  nodes (db w') = nodes (db w) /\
  eval (getSetting changeCount 0) w'
    = eval (getSetting changeCount 0) w + Z.of_nat n /\
  (forall key, key <> lastChangedAt -> key <> changeCount ->
     settings (db w') !! key = settings (db w) !! key) /\
  clock w' = clock w /\
  snapshots_keygen (db w) <= snapshots_keygen (db w') /\
  ((size (snapshots (db w)) <= 10)%nat ->
   (size (snapshots (db w')) <= 10)%nat).
Proof.
  cbv zeta. unfold eval. rewrite !eval_getSetting. cbn [fst].
  induction n as [|n IH].
  - cbn [repeat_run]. repeat split; try reflexivity; try lia.
  - rewrite repeat_run_snoc.
    destruct IH as (Hb & Hn & Hc & Hs & Hk & Hg & Hz).
    destruct (markChanged_effect (repeat_run n markChanged w))
      as (k & _ & Heff).
    cbv zeta in Heff.
    destruct Heff as (Hb' & Hn' & Hs' & Hk' & _ & Hg' & Hz' & _).
    rewrite Hb', Hn', Hs', Hk'. repeat split; try assumption.
    + rewrite lookup_insert_eq. cbn. rewrite Hc. lia.
    + intros key H1 H2. rewrite !lookup_insert_ne by congruence.
      apply Hs; assumption.
    + lia.
    + intros H. apply Hz', Hz, H.
Qed.

(** X11 — A dismissal holds for 24 hours of changes.  After the banner's
    dismiss button, the banner is hidden and stays hidden after every
    number of changes, as long as every clock reading is less than 24
    hours (86400000 milliseconds) after the reading of the dismissal. *)
Theorem dismissal_outlasts_changes (w : World) (n : nat) :
  (forall k : nat, clock w k - clock w (ticks w) < 86400000) ->
  banner_hidden (repeat_run n markChanged (exec bannerDismiss w)) = true.
Proof.
  intros Hclk. change 86400000 with dayMs in Hclk.
  assert (H : clock (repeat_run n markChanged (exec bannerDismiss w)) = clock w /\
              settings (db (repeat_run n markChanged (exec bannerDismiss w)))
                !! lastNudgeDismissAt = Some (clock w (ticks w)) /\
              banner_hidden (repeat_run n markChanged (exec bannerDismiss w))
                = true).
  { induction n as [|n IH].
    - cbn. rewrite lookup_insert_eq. auto.
    - rewrite repeat_run_snoc.
      destruct IH as (Hk & Hd & _).
      destruct (markChanged_effect
                  (repeat_run n markChanged (exec bannerDismiss w)))
        as (k & _ & Heff).
      cbv zeta in Heff.
      destruct Heff as (_ & _ & Hs' & Hk' & _ & _ & _ & Hb').
      rewrite Hb', Hs', Hk'. split; [exact Hk|].
      rewrite !lookup_insert_ne by discriminate. split; [exact Hd|].
      rewrite Hd, Hk. cbn [default from_option id].
      specialize (Hclk (S k)).
      assert (Hlt : (clock w (S k) - clock w (ticks w) <? dayMs) = true)
        by (apply Z.ltb_lt; exact Hclk).
      rewrite Hlt. cbn [negb]. rewrite andb_false_r. reflexivity. }
  apply H.
Qed.

(** What one run of [exportBackup] returns and leaves. *)
Lemma exportBackup_run (w : World) :
  exportBackup w =
    (clock w (S (ticks w)),
     mkBackup 1 (clock w (ticks w)) (toArray (books (db w)))
              (toArray (nodes (db w))) (rows_by_key (settings (db w))),
     exec maybeShowBackupNudge
       (mkWorld (mkDb (books (db w)) (nodes (db w))
                      (<[lastExternalBackupAt := clock w (S (S (ticks w)))]>
                         (settings (db w)))
                      (snapshots (db w)) (snapshots_keygen (db w)))
                (banner_hidden w) (clock w) (S (S (S (ticks w)))))).
Proof.
  unfold exportBackup, buildBackupObject, setSetting, bind, now, get_db,
    put_db, ret, exec.
  cbn [db books nodes settings snapshots snapshots_keygen banner_hidden
       clock ticks].
  destruct (maybeShowBackupNudge _) as [[] w2]. reflexivity.
Qed.

Lemma exportBackup_db (w : World) :
  db (exec exportBackup w) =
    mkDb (books (db w)) (nodes (db w))
         (<[lastExternalBackupAt := clock w (S (S (ticks w)))]> (settings (db w)))
         (snapshots (db w)) (snapshots_keygen (db w)).
Proof.
  unfold exec at 1. rewrite exportBackup_run. cbn [snd].
  rewrite maybeShowBackupNudge_run. reflexivity.
Qed.

(** X12 — Export.  [exportBackup] downloads the books, nodes and settings
    as they are when it starts, version 1, each table's rows in ascending
    order of the primary key (every row of the table once: the sample
    store's nodes come out as n1, n2, n3 and its books as b1, b2), and
    changes nothing in the store except [lastExternalBackupAt], which
    becomes its third clock reading.  The banner is then shown exactly when
    the stored time of the last change is later than that reading, the next
    reading is at least 24 hours (86400000 milliseconds) after it, and no
    dismissal is less than 24 hours old; so it is hidden whenever the last
    change is not later than the export. *)
Theorem exportBackup_records (w : World) :
  let d := db w in
  let w' := exec exportBackup w in
  let t := clock w (S (S (ticks w))) in
  let lastChanged := default 0 (settings d !! lastChangedAt) in
  let lastDismiss := default 0 (settings d !! lastNudgeDismissAt) in
  eval exportBackup w =
    (clock w (S (ticks w)),
     mkBackup 1 (clock w (ticks w)) (toArray (books d)) (toArray (nodes d))
              (rows_by_key (settings d))) /\
  (forall (V : Type) (table : gmap string V),
     toArray table = (rows_by_key table).*2 /\
     StronglySorted String.le (rows_by_key table).*1 /\
     NoDup (rows_by_key table).*1 /\
     forall k v, (k, v) ∈ rows_by_key table <-> table !! k = Some v) /\
  node_id <$> data_nodes (eval exportBackup sample_world).2
    = ["n1"; "n2"; "n3"] /\
  book_id <$> data_books (eval exportBackup sample_world).2 = ["b1"; "b2"] /\
  db w' = mkDb (books d) (nodes d) (<[lastExternalBackupAt := t]> (settings d))
               (snapshots d) (snapshots_keygen d) /\
  clock w' = clock w /\
  (banner_hidden w' = false <->
     lastChanged > t /\
     clock w (S (S (S (ticks w)))) - t >= 86400000 /\
     ~ clock w (S (S (S (S (ticks w))))) - lastDismiss < 86400000) /\
  (lastChanged <= t -> banner_hidden w' = true).
Proof.
  cbv zeta.
  split.
  { unfold eval. rewrite exportBackup_run. reflexivity. }
  split.
  { intros V table. split; [reflexivity|].
    split; [apply rows_by_key_sorted|]. split; [apply rows_by_key_NoDup|].
    intros k v. apply rows_by_key_elem_of. }
  split; [vm_compute; reflexivity|]. split; [vm_compute; reflexivity|].
  unfold exec at 1 2 3 4. rewrite exportBackup_run. cbn [fst snd].
  rewrite maybeShowBackupNudge_run.
  cbn [db books nodes settings snapshots snapshots_keygen banner_hidden
       clock ticks].
  rewrite lookup_insert_eq, !lookup_insert_ne by discriminate.
  cbn [default from_option id]. change dayMs with 86400000.
  set (t := clock w (S (S (ticks w)))).
  set (lastChanged := default 0 (settings (db w) !! lastChangedAt)).
  set (lastDismiss := default 0 (settings (db w) !! lastNudgeDismissAt)).
  split; [reflexivity|]. split; [reflexivity|].
  assert (Hiff : negb ((lastChanged >? t)
                   && (clock w (S (S (S (ticks w)))) - t >=? 86400000)
                   && negb (clock w (S (S (S (S (ticks w))))) - lastDismiss
                            <? 86400000)) = false <->
     lastChanged > t /\
     clock w (S (S (S (ticks w)))) - t >= 86400000 /\
     ~ clock w (S (S (S (S (ticks w))))) - lastDismiss < 86400000).
  { rewrite negb_false_iff, !andb_true_iff, negb_true_iff.
    rewrite Z.gtb_gt, Z.geb_ge, Z.ltb_ge. intuition lia. }
  split; [exact Hiff|].
  intros Hle. apply not_false_iff_true. intros Hf.
  apply Hiff in Hf. lia.
Qed.

(** ** Example *)

Lemma dismissal_outlasts_changes_witness :
  banner_hidden
    (repeat_run 30 markChanged
       (exec bannerDismiss (scenario_world 1700000000000 (2 * dayMs))))
    = true.
Proof.
  apply (dismissal_outlasts_changes
           (scenario_world 1700000000000 (2 * dayMs)) 30).
  intros k. reflexivity.
Defined.

End BackupProps.

(* ===================================================================== *)
(** * Shelves, titles and backup files                                    *)
(* ===================================================================== *)

Module BookshelfProps.
Import JS Durability Bookshelf DurabilityProps.

(** ** [chunk] *)

Section chunk.
Context {A : Type}.
Implicit Types (arr : list A) (out : list (list A)).

Lemma slice_in_range arr (i n : Z) :
  0 <= i -> 0 <= n ->
  slice arr i (i + n) = take (Z.to_nat n) (drop (Z.to_nat i) arr).
Proof.
  intros Hi Hn. unfold slice.
  destruct (Z.ltb_spec i 0) as [?|_]; [lia|].
  destruct (Z.ltb_spec (i + n) 0) as [?|_]; [lia|].
  destruct (Z_le_gt_dec i (Z.of_nat (length arr))) as [Hle|Hgt].
  - rewrite (Z.min_l i) by lia.
    destruct (Z_le_gt_dec (i + n) (Z.of_nat (length arr))) as [Hle'|Hgt'].
    + rewrite Z.min_l by lia. f_equal. lia.
    + rewrite Z.min_r by lia.
      rewrite !take_ge; [reflexivity|rewrite length_drop; lia..].
  - rewrite !Z.min_r by lia.
    rewrite !drop_ge by lia. rewrite !take_nil. reflexivity.
Qed.

Lemma chunk_loop_spec (fuel : nat) arr (n i : Z) out :
  1 <= n -> 0 <= i ->
  Z.of_nat (length arr) - i <= Z.of_nat fuel ->
  exists rest,
    chunk_loop fuel arr n i out = Some (out ++ rest) /\
    concat rest = drop (Z.to_nat i) arr /\
    Forall (fun c => c <> [] /\ Z.of_nat (length c) <= n) rest /\
    (forall (j : nat) c,
       rest !! j = Some c -> (S j < length rest)%nat ->
       Z.of_nat (length c) = n).
Proof.
  intros Hn. revert i out.
  assert (Hdone : forall i out,
            0 <= i -> Z.of_nat (length arr) <= i ->
            exists rest,
              Some out = Some (out ++ rest) /\
              concat rest = drop (Z.to_nat i) arr /\
              Forall (fun c => c <> [] /\ Z.of_nat (length c) <= n) rest /\
              (forall (j : nat) c,
                 rest !! j = Some c -> (S j < length rest)%nat ->
                 Z.of_nat (length c) = n)).
  { intros i out Hi Hlen. exists []. rewrite app_nil_r, drop_ge by lia.
    repeat split; [constructor|]. intros j c Hj. inversion Hj. }
  induction fuel as [|fuel IH]; intros i out Hi Hfuel; cbn [chunk_loop].
  - destruct (Z.ltb_spec i (Z.of_nat (length arr))) as [Hlt|Hge]; [lia|].
    apply Hdone; lia.
  - destruct (Z.ltb_spec i (Z.of_nat (length arr))) as [Hlt|Hge];
      [|apply Hdone; lia].
    rewrite slice_in_range by lia.
    set (c := take (Z.to_nat n) (drop (Z.to_nat i) arr)).
    destruct (IH (i + n) (out ++ [c])) as (rest & Hrun & Hcat & Hall & Hfull);
      [lia|lia|].
    assert (Hc : length c = (Z.to_nat n `min` (length arr - Z.to_nat i))%nat)
      by (unfold c; rewrite length_take, length_drop; reflexivity).
    exists (c :: rest). split; [|split; [|split]].
    + rewrite Hrun, <- app_assoc. reflexivity.
    + cbn [concat]. rewrite Hcat. unfold c.
      replace (Z.to_nat (i + n)) with (Z.to_nat i + Z.to_nat n)%nat by lia.
      rewrite <- drop_drop. apply take_drop.
    + constructor; [|exact Hall]. split.
      * intros Hnil. rewrite Hnil in Hc. cbn in Hc. lia.
      * lia.
    + intros [|j] c' Hj Hlong.
      * injection Hj as <-.
        destruct rest as [|c1 rest]; [cbn in Hlong; lia|].
        apply Forall_cons in Hall as [[Hne _] _].
        assert (Hdrop : drop (Z.to_nat (i + n)) arr <> []).
        { rewrite <- Hcat. cbn [concat]. destruct c1; [congruence|].
          discriminate. }
        assert (Z.to_nat (i + n) < length arr)%nat.
        { destruct (Nat.lt_ge_cases (Z.to_nat (i + n)) (length arr)) as [?|Hge];
            [assumption|].
          exfalso. apply Hdrop, drop_ge, Hge. }
        lia.
      * apply (Hfull j); [exact Hj|cbn in Hlong; lia].
Qed.

Lemma chunk_loop_diverges (fuel : nat) arr (n i : Z) out :
  n <= 0 -> i <= 0 -> arr <> [] -> chunk_loop fuel arr n i out = None.
Proof.
  intros Hn Hi Harr. revert i out Hi.
  assert (Hlen : 0 < Z.of_nat (length arr))
    by (destruct arr; [congruence|cbn; lia]).
  induction fuel as [|fuel IH]; intros i out Hi; cbn [chunk_loop];
    destruct (Z.ltb_spec i (Z.of_nat (length arr))) as [_|?]; try lia.
  - reflexivity.
  - apply IH. lia.
Qed.

End chunk.

(** X13 — [chunk] cuts a list into consecutive pieces.  For a piece
    size [n] of at least 1 the loop ends within one turn per element, and
    the pieces, put end to end, are the list: none is empty, none is longer
    than [n], and every piece but the last has exactly [n] elements. *)
Theorem chunk_partitions {A} (arr : list A) (n : Z) (fuel : nat) :
  1 <= n -> (length arr <= fuel)%nat ->
  exists out : list (list A),
    chunk fuel arr n = Some out /\
    concat out = arr /\
    Forall (fun c => c <> [] /\ Z.of_nat (length c) <= n) out /\
    (forall (j : nat) c,
       out !! j = Some c -> (S j < length out)%nat ->
       Z.of_nat (length c) = n).
Proof.
  intros Hn Hfuel.
  destruct (chunk_loop_spec fuel arr n 0 [] Hn) as (rest & Hrun & Hcat & H);
    [lia|lia|].
  exists rest. split; [exact Hrun|]. split; [exact Hcat|exact H].
Qed.

(** X14 — [chunk] with a piece size of zero or less never returns on a
    list that is not empty: the index never passes the end of the list,
    however many turns the loop is given.  (On the empty list it returns
    the empty list at once.) *)
Theorem chunk_never_returns {A} (arr : list A) (n : Z) (fuel : nat) :
  n <= 0 -> arr <> [] -> chunk fuel arr n = None.
Proof. intros Hn Harr. apply chunk_loop_diverges; [exact Hn|lia|exact Harr]. Qed.

(** ** [trim] *)

Lemma trimStart_starts (s : string) : starts_with_space (trimStart s) = false.
Proof.
  induction s as [|a s IH]; [reflexivity|]. cbn [trimStart].
  destruct (is_white_space a) eqn:Ha; [exact IH|]. cbn. exact Ha.
Qed.

Lemma trimEnd_ends (s : string) : ends_with_space (trimEnd s) = false.
Proof.
  induction s as [|a s IH]; [reflexivity|]. cbn [trimEnd].
  destruct (trimEnd s) as [|b kept].
  - destruct (is_white_space a) eqn:Ha; [reflexivity|]. cbn. exact Ha.
  - exact IH.
Qed.

Lemma trimEnd_starts (s : string) :
  starts_with_space s = false -> starts_with_space (trimEnd s) = false.
Proof.
  destruct s as [|a s]; [reflexivity|]. cbn [starts_with_space trimEnd].
  intros Ha. rewrite Ha. destruct (trimEnd s); exact Ha.
Qed.

Lemma trimEnd_fixed (s : string) :
  ends_with_space s = false -> trimEnd s = s.
Proof.
  induction s as [|a s IH]; [reflexivity|]. cbn [trimEnd].
  destruct s as [|b s].
  - cbn. intros ->. reflexivity.
  - intros H. rewrite IH by exact H. reflexivity.
Qed.

Lemma trimStart_fixed (s : string) :
  starts_with_space s = false -> trimStart s = s.
Proof. destruct s as [|a s]; [reflexivity|]. cbn. intros ->. reflexivity. Qed.

(** What is stored as a title has no white space at either end, and a
    text without white space at its ends is stored as it is. *)
Lemma trim_clean (s : string) :
  starts_with_space (trim s) = false /\
  ends_with_space (trim s) = false /\
  (starts_with_space s = false -> ends_with_space s = false -> trim s = s).
Proof.
  unfold trim. split; [|split].
  - apply trimEnd_starts, trimStart_starts.
  - apply trimEnd_ends.
  - intros H1 H2. rewrite trimStart_fixed by exact H1.
    apply trimEnd_fixed, H2.
Qed.

Lemma trim_all_white_space (s : string) :
  all_white_space s = true -> trim s = EmptyString.
Proof.
  unfold trim. induction s as [|a s IH]; [reflexivity|].
  cbn [all_white_space trimStart]. intros [Ha Hs]%andb_true_iff.
  rewrite Ha. apply IH, Hs.
Qed.

(** ** The order of the shelves *)

#[local] Instance updatedAt_le_trans : Transitive updatedAt_le.
Proof.
  intros [k1 b1] [k2 b2] [k3 b3]. unfold updatedAt_le. cbn.
  intros [H|[H1 H2]] [H'|[H1' H2']]; try (left; lia).
  right. split; [lia|]. etrans; eassumption.
Qed.

#[local] Instance updatedAt_le_total : Total updatedAt_le.
Proof.
  intros [k1 b1] [k2 b2]. unfold updatedAt_le. cbn.
  destruct (Z.lt_total (book_updatedAt b1) (book_updatedAt b2))
    as [?|[?|?]]; [left; left; lia| |right; left; lia].
  destruct (total String.le k1 k2); [left|right]; right; split;
    first [assumption|lia].
Qed.

Lemma books_newest_first_Permutation (d : Db) :
  books_newest_first d ≡ₚ toArray (books d).
Proof.
  rewrite toArray_Permutation. unfold books_newest_first.
  rewrite reverse_Permutation, merge_sort_Permutation. reflexivity.
Qed.

Lemma books_newest_first_sorted (d : Db) :
  StronglySorted (fun b1 b2 => book_updatedAt b2 <= book_updatedAt b1)
                 (books_newest_first d).
Proof.
  unfold books_newest_first.
  apply (StronglySorted_fmap snd (flip updatedAt_le)).
  - intros [k1 b1] [k2 b2]. unfold flip, updatedAt_le. cbn. lia.
  - apply Sorted_StronglySorted.
    + intros x y z Hxy Hyz. unfold flip in *. etrans; eassumption.
    + apply Sorted_reverse, Sorted_merge_sort. apply _.
Qed.

(** The shelves of a list of books. *)
Lemma shelves_of_layout (books : list Book) :
  exists sh : list (list Book),
    shelves_of books = Some sh /\
    concat sh = books /\
    Forall (fun c => (1 <= length c <= 6)%nat) sh /\
    (forall (j : nat) c,
       sh !! j = Some c -> (S j < length sh)%nat -> length c = 6%nat).
Proof.
  destruct (chunk_loop_spec (length books) books 6 0 [])
    as (sh & Hrun & Hcat & Hall & Hfull); [lia|lia|lia|].
  exists sh. split; [exact Hrun|]. split; [exact Hcat|]. split.
  - eapply Forall_impl; [exact Hall|]. intros c [Hne Hlen].
    destruct c; [congruence|]. cbn in *. lia.
  - intros j c Hj Hlong. specialize (Hfull j c Hj Hlong). lia.
Qed.

(** ** [bulkAdd] *)

Lemma keyed_rows_Keyed {V} (rows : list V) : keyed_rows (Keyed <$> rows) = rows.
Proof. induction rows as [|r rest IH]; [reflexivity|]. cbn. rewrite IH. reflexivity. Qed.

Lemma has_key_Keyed {V} (rows : list V) :
  Forall has_key (Keyed <$> rows : list (FileRow V)).
Proof. apply Forall_fmap, Forall_true. intros r. exact I. Qed.

Lemma has_key_all {V} (rows : list (FileRow V)) :
  Forall has_key rows -> rows = Keyed <$> keyed_rows rows.
Proof.
  induction 1 as [|[r|] rest Hr _ IH]; [reflexivity| |destruct Hr].
  cbn. rewrite <- IH. reflexivity.
Qed.

Section bulkAdd.
Context {R V : Type} (key : R -> string) (value : R -> V).

Lemma bulkAdd_Some_iff (rows : list (FileRow R)) (t t' : gmap string V) :
  bulkAdd key value rows t = Some t' <->
  Forall has_key rows /\
  NoDup (key <$> keyed_rows rows) /\
  (forall r, r ∈ keyed_rows rows -> t !! key r = None) /\
  t' = list_to_map ((fun r => (key r, value r)) <$> keyed_rows rows) ∪ t.
Proof.
  revert t. induction rows as [|[r|] rest IH]; intros t;
    cbn [bulkAdd keyed_rows].
  - cbn. rewrite (left_id_L ∅ (∪)). split.
    + intros [= <-]. split; [constructor|]. split; [constructor|].
      split; [|reflexivity]. intros r Hr. inversion Hr.
    + intros (_ & _ & _ & ->). reflexivity.
  - destruct (t !! key r) as [v|] eqn:Hr.
    + split; [discriminate|]. intros (_ & _ & Hfresh & _).
      rewrite Hfresh in Hr by left. discriminate.
    + rewrite IH. clear IH. rewrite fmap_cons, NoDup_cons, Forall_cons.
      set (ks := keyed_rows rest).
      assert (Hkeys : ((fun r => (key r, value r)) <$> ks).*1 = key <$> ks).
      { rewrite <- list_fmap_compose. reflexivity. }
      split.
      * intros (Hall & Hnd & Hfresh & ->).
        assert (Hnotin : key r ∉ key <$> ks).
        { intros Hin. apply list_elem_of_fmap in Hin as (r' & Heq & Hr').
          specialize (Hfresh r' Hr'). rewrite <- Heq in Hfresh.
          rewrite lookup_insert_eq in Hfresh. discriminate. }
        split; [split; [exact I|exact Hall]|].
        split; [split; assumption|]. split.
        { intros r' Hr'. apply elem_of_cons in Hr' as [->|Hr'];
            [exact Hr|].
          specialize (Hfresh r' Hr').
          apply lookup_insert_None in Hfresh as [Hfresh _]. exact Hfresh. }
        cbn [fmap list_fmap list_to_map foldr uncurry fst snd].
        rewrite <- insert_union_l. symmetry. apply insert_union_r.
        apply not_elem_of_list_to_map_1. rewrite Hkeys. exact Hnotin.
      * intros ([_ Hall] & [Hnotin Hnd] & Hfresh & ->).
        split; [exact Hall|]. split; [exact Hnd|]. split.
        { intros r' Hr'. apply lookup_insert_None. split.
          - apply Hfresh. right. exact Hr'.
          - intros Heq. apply Hnotin. rewrite Heq.
            apply list_elem_of_fmap_2. exact Hr'. }
        cbn [fmap list_fmap list_to_map foldr uncurry fst snd].
        rewrite <- insert_union_l. apply insert_union_r.
        apply not_elem_of_list_to_map_1. rewrite Hkeys. exact Hnotin.
  - split; [discriminate|]. intros (Hall & _).
    apply Forall_cons in Hall as [[] _].
Qed.

Lemma bulkAdd_lookup (rows : list (FileRow R)) (t' : gmap string V) :
  bulkAdd key value rows ∅ = Some t' ->
  forall k v, t' !! k = Some v <->
              exists r, r ∈ keyed_rows rows /\ key r = k /\ value r = v.
Proof.
  intros H. apply bulkAdd_Some_iff in H as (_ & Hnd & _ & ->).
  intros k v. rewrite (right_id_L ∅ (∪)).
  rewrite <- elem_of_list_to_map.
  - rewrite list_elem_of_fmap. split.
    + intros (r & [= -> ->] & Hr). eauto.
    + intros (r & Hr & <- & <-). eauto.
  - rewrite <- list_fmap_compose. exact Hnd.
Qed.

(** Rows that all have a key, none of them repeated, are added to the
    empty table. *)
Lemma bulkAdd_Keyed (rows : list R) :
  NoDup (key <$> rows) ->
  bulkAdd key value (Keyed <$> rows) ∅ =
    Some (list_to_map ((fun r => (key r, value r)) <$> rows)).
Proof.
  intros Hnd. apply bulkAdd_Some_iff. rewrite keyed_rows_Keyed.
  split; [apply has_key_Keyed|]. split; [exact Hnd|].
  split; [intros; apply lookup_empty|].
  rewrite (right_id_L ∅ (∪)). reflexivity.
Qed.

End bulkAdd.

Lemma keyed_by_key_rows {V} (key : V -> string) (m : gmap string V) :
  map_Forall (fun k v => key v = k) m ->
  (fun r => (key r, r)) <$> toArray m = rows_by_key m.
Proof.
  intros Hkeys. unfold toArray. rewrite <- list_fmap_compose.
  rewrite <- (list_fmap_id (rows_by_key m)) at 2.
  apply list_fmap_ext. intros i [k v] Hi. cbn. f_equal.
  apply (Hkeys k v), rows_by_key_elem_of, (list_elem_of_lookup_2 _ i), Hi.
Qed.

Lemma keyed_by_key_NoDup {V} (key : V -> string) (m : gmap string V) :
  map_Forall (fun k v => key v = k) m -> NoDup (key <$> toArray m).
Proof.
  intros Hkeys.
  assert (Hk : key <$> toArray m = (rows_by_key m).*1).
  { rewrite <- (keyed_by_key_rows key m Hkeys), <- list_fmap_compose.
    reflexivity. }
  rewrite Hk. apply rows_by_key_NoDup.
Qed.

(** The rows of a table, each stored under its key, make the same table
    again. *)
Lemma bulkAdd_toArray {V} (key : V -> string) (m : gmap string V) :
  map_Forall (fun k v => key v = k) m ->
  bulkAdd key id (Keyed <$> toArray m) ∅ = Some m.
Proof.
  intros Hkeys.
  rewrite (bulkAdd_Keyed key id _ (keyed_by_key_NoDup key m Hkeys)).
  change (fun r => (key r, id r)) with (fun r => (key r, r)).
  rewrite (keyed_by_key_rows key m Hkeys), list_to_map_rows_by_key.
  reflexivity.
Qed.

Lemma bulkAdd_settings (m : gmap string Z) :
  bulkAdd fst snd (Keyed <$> rows_by_key m) ∅ = Some m.
Proof.
  rewrite (bulkAdd_Keyed fst snd _ (rows_by_key_NoDup m)).
  f_equal. rewrite <- (list_to_map_rows_by_key m) at 2. f_equal.
  rewrite <- (list_fmap_id (rows_by_key m)) at 2.
  apply list_fmap_ext. intros i [k v] _. reflexivity.
Qed.

(** ** The round trip through a file *)

(** A row with finite coordinates is read back with the sign of a zero
    dropped and nothing else changed. *)
Lemma json_number_Some (x : number) :
  is_finite x = true ->
  json_number x = Some (if is_zero x then pos_zero else x).
Proof. destruct x as [[]|[]| |[] m e]; cbn; try discriminate; reflexivity. Qed.

Lemma json_number_None (x : number) :
  json_number x = None <-> is_finite x = false.
Proof.
  destruct x as [[]|[]| |[] m e]; cbn; split; try discriminate; reflexivity.
Qed.

Lemma json_number_same (x : number) :
  is_finite x = true -> is_neg_zero x = false -> json_number x = Some x.
Proof. destruct x as [[]|[]| |[] m e]; cbn; try discriminate; reflexivity. Qed.

Lemma json_node_is_Some (r : NodeRow) :
  is_Some (json_node r) <-> finite_position r.
Proof.
  unfold json_node, finite_position.
  destruct (json_number (node_x r)) as [x|] eqn:Hx.
  - destruct (json_number (node_y r)) as [y|] eqn:Hy.
    + split; [|eauto]. intros _. split.
      * destruct (is_finite (node_x r)) eqn:Hf; [reflexivity|].
        apply json_number_None in Hf. congruence.
      * destruct (is_finite (node_y r)) eqn:Hf; [reflexivity|].
        apply json_number_None in Hf. congruence.
    + apply json_number_None in Hy. split.
      * intros [? [=]].
      * intros [_ Hf]. congruence.
  - apply json_number_None in Hx. split.
    + intros [? [=]].
    + intros [Hf _]. congruence.
Qed.

Lemma json_node_id (r r' : NodeRow) :
  json_node r = Some r' ->
  node_id r' = node_id r /\ node_bookId r' = node_bookId r /\
  node_color r' = node_color r /\ node_updatedAt r' = node_updatedAt r.
Proof.
  unfold json_node.
  destruct (json_number (node_x r)); [|discriminate].
  destruct (json_number (node_y r)); [|discriminate].
  intros [= <-]. repeat split.
Qed.

Lemma json_node_same (r : NodeRow) :
  finite_position r ->
  is_neg_zero (node_x r) = false -> is_neg_zero (node_y r) = false ->
  json_node r = Some r.
Proof.
  intros [Hx Hy] Hzx Hzy. unfold json_node.
  rewrite (json_number_same _ Hx Hzx), (json_number_same _ Hy Hzy).
  destruct r; reflexivity.
Qed.

(** The node rows of a table, read back from a file, make the table of
    the rows read back. *)
Lemma bulkAdd_json_nodes (m : gmap string NodeRow) (rows : list NodeRow) :
  map_Forall (fun k r => node_id r = k) m ->
  mapM json_node (toArray m) = Some rows ->
  bulkAdd node_id id (Keyed <$> rows) ∅ = Some (omap json_node m).
Proof.
  intros Hkeys Hrows. apply mapM_Some in Hrows.
  assert (Hids : node_id <$> rows = node_id <$> toArray m).
  { induction Hrows as [|r r' l l' Hr _ IH]; [reflexivity|].
    cbn. rewrite IH. f_equal. apply (json_node_id _ _ Hr). }
  rewrite (bulkAdd_Keyed node_id id).
  2:{ rewrite Hids. apply keyed_by_key_NoDup, Hkeys. }
  f_equal. apply map_eq. intros k. rewrite lookup_omap.
  apply option_eq. intros v.
  rewrite <- elem_of_list_to_map.
  2:{ rewrite <- list_fmap_compose.
      change (fst ∘ (fun r : NodeRow => (node_id r, id r))) with node_id.
      rewrite Hids. apply keyed_by_key_NoDup, Hkeys. }
  rewrite list_elem_of_fmap. split.
  - intros (r' & [= -> ->] & Hin).
    apply list_elem_of_lookup in Hin as [i Hi].
    destruct (Forall2_lookup_r _ _ _ _ _ Hrows Hi) as (r & Hr & Hjson).
    assert (Hm : m !! node_id r = Some r).
    { apply list_elem_of_lookup_2 in Hr. unfold toArray in Hr.
      apply list_elem_of_fmap in Hr as ([k0 r0] & -> & Hkr).
      apply rows_by_key_elem_of in Hkr. cbn.
      rewrite (Hkeys k0 r0 Hkr). exact Hkr. }
    rewrite (proj1 (json_node_id _ _ Hjson)), Hm. exact Hjson.
  - destruct (m !! k) as [r|] eqn:Hm; cbn; [|discriminate].
    intros Hjson.
    assert (Hin : r ∈ toArray m).
    { unfold toArray. apply list_elem_of_fmap. exists (k, r).
      split; [reflexivity|]. apply rows_by_key_elem_of, Hm. }
    apply list_elem_of_lookup in Hin as [i Hi].
    destruct (Forall2_lookup_l _ _ _ _ _ Hrows Hi) as (r' & Hr' & Hjson').
    assert (r' = v) by congruence. subst r'.
    exists v. split; [|apply (list_elem_of_lookup_2 _ i), Hr'].
    cbn. f_equal. rewrite (proj1 (json_node_id _ _ Hjson)).
    symmetry. apply (Hkeys k r Hm).
Qed.

Lemma toArray_elem_of {V} (m : gmap string V) (v : V) :
  v ∈ toArray m <-> exists k, m !! k = Some v.
Proof.
  unfold toArray. rewrite list_elem_of_fmap. split.
  - intros ([k v'] & -> & H). exists k. apply rows_by_key_elem_of, H.
  - intros [k H]. exists (k, v). split; [reflexivity|].
    apply rows_by_key_elem_of, H.
Qed.

Lemma mapM_json_node_is_Some (m : gmap string NodeRow) :
  is_Some (mapM json_node (toArray m)) <->
  map_Forall (fun _ r => finite_position r) m.
Proof.
  rewrite mapM_is_Some, Forall_forall. split.
  - intros H k r Hk. apply json_node_is_Some, (H r), toArray_elem_of. eauto.
  - intros H r Hr. apply toArray_elem_of in Hr as [k Hk].
    apply json_node_is_Some. exact (H k r Hk).
Qed.

Lemma omap_json_node_same (m : gmap string NodeRow) :
  map_Forall (fun _ r => finite_position r) m ->
  map_Forall (fun _ r => is_neg_zero (node_x r) = false /\
                         is_neg_zero (node_y r) = false) m ->
  omap json_node m = m.
Proof.
  intros Hf Hz. apply map_eq. intros k. rewrite lookup_omap.
  destruct (m !! k) as [r|] eqn:Hk; [|reflexivity]. cbn.
  destruct (Hz k r Hk). apply json_node_same; auto. exact (Hf k r Hk).
Qed.

(** The three lists of a backup built from a store whose rows are stored
    under their own identifiers, read back from the file, give back the
    tables of books and settings, and the table of the nodes read back. *)
Lemma import_tables_built (d : Db) (rows : list NodeRow) :
  keyed_by_id d ->
  mapM json_node (toArray (nodes d)) = Some rows ->
  import_tables
    (mkBackupData (Some (Keyed <$> toArray (books d))) (Some (Keyed <$> rows))
                  (Some (Keyed <$> rows_by_key (settings d))))
  = Some (books d, omap json_node (nodes d), settings d).
Proof.
  intros [Hb Hn] Hrows. unfold import_tables.
  cbn [obj_books obj_nodes obj_settings default from_option id].
  rewrite (bulkAdd_toArray book_id _ Hb), (bulkAdd_json_nodes _ _ Hn Hrows),
    bulkAdd_settings.
  reflexivity.
Qed.

(** The tables built by the import transaction are keyed by the
    identifiers of their rows. *)
Lemma import_tables_keyed (data : BackupData) bs ns ss (d : Db) :
  import_tables data = Some (bs, ns, ss) ->
  keyed_by_id (mkDb bs ns ss (snapshots d) (snapshots_keygen d)).
Proof.
  unfold import_tables.
  destruct (bulkAdd book_id id _ ∅) as [bs'|] eqn:Hbs; [|discriminate].
  destruct (bulkAdd node_id id _ ∅) as [ns'|] eqn:Hns; [|discriminate].
  destruct (bulkAdd fst snd _ ∅) as [ss'|]; [|discriminate].
  intros [= <- <- <-]. split; cbn [books nodes].
  - intros k b Hk. apply (bulkAdd_lookup _ _ _ _ Hbs) in Hk
      as (r & _ & Hkey & Hval). cbn in Hval. subst. reflexivity.
  - intros k b Hk. apply (bulkAdd_lookup _ _ _ _ Hns) in Hk
      as (r & _ & Hkey & Hval). cbn in Hval. subst. reflexivity.
Qed.

(** ** Examples *)

Lemma chunk_partitions_witness :
  chunk 7 [1; 2; 3; 4; 5; 6; 7] 3 = Some [[1; 2; 3]; [4; 5; 6]; [7]] /\
  exists out : list (list Z),
    chunk 7 [1; 2; 3; 4; 5; 6; 7] 3 = Some out /\
    concat out = [1; 2; 3; 4; 5; 6; 7] /\
    Forall (fun c => c <> [] /\ Z.of_nat (length c) <= 3) out /\
    (forall (j : nat) c,
       out !! j = Some c -> (S j < length out)%nat ->
       Z.of_nat (length c) = 3).
Proof.
  split; [reflexivity|].
  apply (chunk_partitions [1; 2; 3; 4; 5; 6; 7] 3 7); [lia|cbn; lia].
Defined.

Lemma chunk_never_returns_witness :
  chunk 1000 [1; 2; 3] 0 = None /\ chunk 1000 [1; 2; 3] (-6) = None.
Proof.
  split.
  - apply (chunk_never_returns [1; 2; 3] 0 1000); [lia|discriminate].
  - apply (chunk_never_returns [1; 2; 3] (-6) 1000); [lia|discriminate].
Defined.

End BookshelfProps.

(* ===================================================================== *)
(** * The application                                                     *)
(* ===================================================================== *)

Module AppProps.
Import JS Durability Canvas Bookshelf App Gestures.
Import JSProps CanvasProps DurabilityProps GestureProps BackupProps.
Import BookshelfProps.

#[local] Arguments markChanged : simpl never.
#[local] Arguments maybeShowBackupNudge : simpl never.
#[local] Arguments exec : simpl never.
#[local] Arguments eval : simpl never.

(** ** Running the handlers *)

Lemma lift_run {X} (m : M X) (a : AppState) :
  lift m a = (Some (eval m (world a)),
              mkApp (exec m (world a)) (session a) (canvasTitle a) (shelves a)).
Proof. unfold lift, eval, exec. destruct (m (world a)); reflexivity. Qed.

Lemma nudge_keeps_store (w : World) :
  db (exec maybeShowBackupNudge w) = db w /\
  clock (exec maybeShowBackupNudge w) = clock w.
Proof. rewrite maybeShowBackupNudge_run. split; reflexivity. Qed.

(** The table operations, run. *)
Lemma eval_now (w : World) : eval now w = clock w (ticks w).
Proof. reflexivity. Qed.
Lemma exec_now (w : World) :
  exec now w = mkWorld (db w) (banner_hidden w) (clock w) (S (ticks w)).
Proof. reflexivity. Qed.
Lemma eval_get_db (w : World) : eval get_db w = db w.
Proof. reflexivity. Qed.
Lemma exec_get_db (w : World) : exec get_db w = w.
Proof. reflexivity. Qed.
Lemma exec_set_books (bs : gmap string Book) (w : World) :
  exec (set_books bs) w =
    mkWorld (mkDb bs (nodes (db w)) (settings (db w)) (snapshots (db w))
                  (snapshots_keygen (db w)))
            (banner_hidden w) (clock w) (ticks w).
Proof. reflexivity. Qed.
Lemma exec_set_nodes (ns : gmap string NodeRow) (w : World) :
  exec (set_nodes ns) w =
    mkWorld (mkDb (books (db w)) ns (settings (db w)) (snapshots (db w))
                  (snapshots_keygen (db w)))
            (banner_hidden w) (clock w) (ticks w).
Proof. reflexivity. Qed.
Lemma eval_books_get (id : string) (w : World) :
  eval (books_get id) w = books (db w) !! id.
Proof. reflexivity. Qed.
Lemma exec_books_get (id : string) (w : World) : exec (books_get id) w = w.
Proof. reflexivity. Qed.
Lemma exec_books_update (id : string) (f : Book -> Book) (w : World) :
  exec (books_update id f) w =
    mkWorld (mkDb (alter f id (books (db w))) (nodes (db w)) (settings (db w))
                  (snapshots (db w)) (snapshots_keygen (db w)))
            (banner_hidden w) (clock w) (ticks w).
Proof. reflexivity. Qed.
Lemma exec_books_delete (id : string) (w : World) :
  exec (books_delete id) w =
    mkWorld (mkDb (delete id (books (db w))) (nodes (db w)) (settings (db w))
                  (snapshots (db w)) (snapshots_keygen (db w)))
            (banner_hidden w) (clock w) (ticks w).
Proof. reflexivity. Qed.
Lemma exec_nodes_update (id : string) (f : NodeRow -> NodeRow) (w : World) :
  exec (nodes_update id f) w =
    mkWorld (mkDb (books (db w)) (alter f id (nodes (db w))) (settings (db w))
                  (snapshots (db w)) (snapshots_keygen (db w)))
            (banner_hidden w) (clock w) (ticks w).
Proof. reflexivity. Qed.
Lemma exec_nodes_where_bookId_delete (bookId : string) (w : World) :
  exec (nodes_where_bookId_delete bookId) w =
    mkWorld (mkDb (books (db w))
                  (filter (fun kv => node_bookId kv.2 <> bookId) (nodes (db w)))
                  (settings (db w)) (snapshots (db w))
                  (snapshots_keygen (db w)))
            (banner_hidden w) (clock w) (ticks w).
Proof. reflexivity. Qed.
Lemma exec_nodes_where_bookId_toArray (bookId : string) (w : World) :
  exec (nodes_where_bookId_toArray bookId) w = w.
Proof. reflexivity. Qed.

Create Rewrite HintDb run.
#[local] Hint Rewrite @lift_run eval_now exec_now eval_get_db exec_get_db
  exec_set_books exec_set_nodes eval_books_get exec_books_get
  exec_books_update exec_books_delete exec_nodes_update
  exec_nodes_where_bookId_delete exec_nodes_where_bookId_toArray : run.

Ltac run_handler :=
  repeat (autorewrite with run;
          cbn [fst snd world session canvasTitle shelves db books nodes
               settings snapshots snapshots_keygen banner_hidden clock ticks
               book_id node_id]).

(** [renderBookshelf] returns, with the shelves of the stored books. *)
Lemma renderBookshelf_run (a : AppState) :
  exists sh : list (list Book),
    shelves_of (books_newest_first (db (world a))) = Some sh /\
    renderBookshelf a =
      (Some tt, mkApp (exec maybeShowBackupNudge (world a)) (session a)
                      (canvasTitle a) sh).
Proof.
  destruct (shelves_of_layout (books_newest_first (db (world a))))
    as (sh & Hsh & _).
  exists sh. split; [exact Hsh|].
  unfold renderBookshelf, ebind. rewrite lift_run.
  change (eval books_orderBy_updatedAt_reverse (world a))
    with (books_newest_first (db (world a))).
  rewrite Hsh. unfold set_shelves. rewrite lift_run.
  destruct (eval maybeShowBackupNudge _). reflexivity.
Qed.

Lemma renderBookshelf_fresh (a : AppState) :
  result renderBookshelf a = Some tt /\
  world (after renderBookshelf a) = exec maybeShowBackupNudge (world a) /\
  session (after renderBookshelf a) = session a /\
  canvasTitle (after renderBookshelf a) = canvasTitle a /\
  shelves_of (books_newest_first (db (world (after renderBookshelf a))))
    = Some (shelves (after renderBookshelf a)).
Proof.
  destruct (renderBookshelf_run a) as (sh & Hsh & Hrun).
  unfold result, after. rewrite Hrun. cbn [fst snd world session canvasTitle shelves].
  rewrite (proj1 (nudge_keeps_store _)). auto.
Qed.

(** X15 — The bookshelf.  [renderBookshelf] always returns.  The spines
    it lays out are exactly the stored books, each once, ordered from the
    most recently updated to the least; every shelf holds between one and
    six spines and every shelf but the last holds six.  It then evaluates
    the backup nudge and changes nothing else. *)
Theorem renderBookshelf_lays_out (a : AppState) :
  let a' := after renderBookshelf a in
  result renderBookshelf a = Some tt /\
  concat (shelves a') ≡ₚ toArray (books (db (world a))) /\
  StronglySorted (fun b1 b2 => book_updatedAt b2 <= book_updatedAt b1)
                 (concat (shelves a')) /\
  Forall (fun shelf => (1 <= length shelf <= 6)%nat) (shelves a') /\
  (forall (j : nat) shelf,
     shelves a' !! j = Some shelf -> (S j < length (shelves a'))%nat ->
     length shelf = 6%nat) /\
  world a' = exec maybeShowBackupNudge (world a) /\
  session a' = session a /\
  canvasTitle a' = canvasTitle a.
Proof.
  cbv zeta.
  destruct (renderBookshelf_fresh a) as (Hres & Hw & Hs & Ht & Hsh).
  rewrite Hw in Hsh. rewrite (proj1 (nudge_keeps_store _)) in Hsh.
  destruct (shelves_of_layout (books_newest_first (db (world a))))
    as (sh & Hsh' & Hcat & Hall & Hfull).
  rewrite Hsh in Hsh'. injection Hsh' as <-.
  split; [exact Hres|].
  split; [rewrite Hcat; apply books_newest_first_Permutation|].
  split; [rewrite Hcat; apply books_newest_first_sorted|].
  auto.
Qed.

(** ** Boot *)

Lemma books_add_run (b : Book) (a : AppState) :
  books_add b a =
    match books (db (world a)) !! book_id b with
    | Some _ => (None, a)
    | None =>
        (Some tt,
         mkApp (mkWorld (mkDb (<[book_id b := b]> (books (db (world a))))
                              (nodes (db (world a))) (settings (db (world a)))
                              (snapshots (db (world a)))
                              (snapshots_keygen (db (world a))))
                        (banner_hidden (world a)) (clock (world a))
                        (ticks (world a)))
               (session a) (canvasTitle a) (shelves a))
    end.
Proof.
  unfold books_add, ebind. run_handler.
  destruct (books (db (world a)) !! book_id b); [destruct a; reflexivity|].
  run_handler. reflexivity.
Qed.

Lemma shelves_of_one (b : Book) : shelves_of [b] = Some [[b]].
Proof. reflexivity. Qed.

Lemma after_eq {X} (m m' : E X) (a a1 : AppState) :
  m a = m' a1 -> after m a = after m' a1 /\ result m a = result m' a1.
Proof. unfold after, result. intros ->. auto. Qed.

(** What [seedIfEmpty] leaves. *)
Lemma seedIfEmpty_run (a : AppState) (uuid : string) :
  exists a1 : AppState,
    seedIfEmpty uuid a = (Some tt, a1) /\
    session a1 = session a /\
    (books (db (world a)) = ∅ ->
     books (db (world a1)) =
       {[ uuid := mkBook uuid "New Book" "#f4d03f"
                    (clock (world a) (ticks (world a)))
                    (clock (world a) (S (ticks (world a)))) ]}) /\
    (books (db (world a)) <> ∅ ->
     books (db (world a1)) = books (db (world a))) /\
    nodes (db (world a1)) = nodes (db (world a)) /\
    settings (db (world a1)) = settings (db (world a)) /\
    snapshots (db (world a1)) = snapshots (db (world a)).
Proof.
  unfold seedIfEmpty, ebind. run_handler.
  destruct (Nat.eqb_spec (size (books (db (world a)))) 0) as [Hz|Hnz].
  - apply map_size_empty_iff in Hz.
    run_handler. rewrite books_add_run. run_handler.
    rewrite Hz, lookup_empty. eexists. split; [reflexivity|].
    cbn [world db books nodes settings snapshots session].
    split; [reflexivity|]. split; [intros _; apply insert_empty|].
    split; [intros H; exfalso; apply H; reflexivity|].
    split; [reflexivity|]. split; reflexivity.
  - exists a. split; [destruct a; reflexivity|].
    split; [reflexivity|].
    split; [intros Hz; exfalso; apply Hnz, map_size_empty_iff, Hz|].
    split; [reflexivity|]. split; [reflexivity|]. split; reflexivity.
Qed.

Lemma main_run (a : AppState) (uuid : string) :
  exists a1 : AppState,
    seedIfEmpty uuid a = (Some tt, a1) /\
    after (main uuid) a = after renderBookshelf a1 /\
    result (main uuid) a = result renderBookshelf a1.
Proof.
  destruct (seedIfEmpty_run a uuid) as (a1 & Hrun & _).
  exists a1. split; [exact Hrun|].
  apply after_eq. unfold main, ebind. rewrite Hrun. reflexivity.
Qed.

(** X16 — Boot.  [main] always returns.  On a store without books it
    adds one book, titled New Book, in the first color of the palette,
    under the identifier drawn for it, and the shelf shows that one book;
    on a store with books it adds none.  In both cases nodes, settings
    (the change counter among them) and snapshots are untouched, and the
    bookshelf shows the stored books, at least one. *)
Theorem main_seeds_empty_store (a : AppState) (uuid : string) :
  let w := world a in
  let a' := after (main uuid) a in
  let seed := mkBook uuid "New Book" "#f4d03f"
                     (clock w (ticks w)) (clock w (S (ticks w))) in
  result (main uuid) a = Some tt /\
  (books (db w) = ∅ ->
     books (db (world a')) = {[ uuid := seed ]} /\ shelves a' = [[seed]]) /\
  (books (db w) <> ∅ -> books (db (world a')) = books (db w)) /\
  nodes (db (world a')) = nodes (db w) /\
  settings (db (world a')) = settings (db w) /\
  snapshots (db (world a')) = snapshots (db w) /\
  shelves_of (books_newest_first (db (world a'))) = Some (shelves a') /\
  concat (shelves a') <> [].
Proof.
  cbv zeta.
  destruct (main_run a uuid) as (a1 & Hrun & Hafter & Hresult).
  destruct (seedIfEmpty_run a uuid)
    as (a1' & Hrun' & Hses & Hempty & Hfull & Hn & Hs & Hsn).
  rewrite Hrun in Hrun'. injection Hrun' as <-.
  destruct (renderBookshelf_fresh a1) as (Hres & Hw & _ & _ & Hsh).
  rewrite Hafter, Hresult. clear Hafter Hresult.
  assert (Hdb : db (world (after renderBookshelf a1)) = db (world a1)).
  { rewrite Hw. apply nudge_keeps_store. }
  revert Hsh. generalize (after renderBookshelf a1) Hdb. clear Hw Hdb.
  intros a2 Hdb Hsh. rewrite Hdb in *.
  split; [exact Hres|].
  split.
  { intros Hz. split; [apply Hempty, Hz|].
    unfold books_newest_first in Hsh. rewrite (Hempty Hz) in Hsh.
    rewrite map_to_list_singleton in Hsh. cbn in Hsh.
    injection Hsh as <-. reflexivity. }
  split; [exact Hfull|].
  split; [exact Hn|]. split; [exact Hs|]. split; [exact Hsn|].
  split; [exact Hsh|].
  destruct (shelves_of_layout (books_newest_first (db (world a1))))
    as (sh & Hsh' & Hcat & _).
  rewrite Hsh in Hsh'. injection Hsh' as <-. rewrite Hcat.
  intros Hnil.
  assert (Hperm := books_newest_first_Permutation (db (world a1))).
  rewrite Hnil, toArray_Permutation in Hperm. symmetry in Hperm.
  apply Permutation_nil_r in Hperm.
  apply fmap_nil_inv, map_to_list_empty_iff in Hperm.
  destruct (decide (books (db (world a)) = ∅)) as [Hz|Hnz].
  - rewrite (Hempty Hz), <- insert_empty in Hperm.
    exact (insert_non_empty _ _ _ Hperm).
  - rewrite (Hfull Hnz) in Hperm. contradiction.
Qed.

(** ** Book operations *)

Lemma change_count_eq (w : World) :
  change_count w = default 0 (settings (db w) !! changeCount).
Proof. unfold change_count, eval. rewrite eval_getSetting. reflexivity. Qed.

(** One change is recorded, then the bookshelf is rendered. *)
Lemma changed_rendered (w1 : World) (ses : option Session) (title : string)
    (sh : list (list Book)) :
  let a1 := mkApp (exec markChanged w1) ses title sh in
  let a2 := after renderBookshelf a1 in
  result renderBookshelf a1 = Some tt /\
  books (db (world a2)) = books (db w1) /\
  nodes (db (world a2)) = nodes (db w1) /\
  change_count (world a2) = change_count w1 + 1 /\
  session a2 = ses /\
  canvasTitle a2 = title /\
  shelves_of (books_newest_first (db (world a2))) = Some (shelves a2).
Proof.
  cbv zeta.
  destruct (renderBookshelf_fresh (mkApp (exec markChanged w1) ses title sh))
    as (Hres & Hw & Hs & Ht & Hsh).
  cbn [world session canvasTitle] in *.
  destruct (markChanged_effect w1) as (k & _ & Heff). cbv zeta in Heff.
  destruct Heff as (Hb & Hn & Hset & _).
  rewrite !change_count_eq, Hw, (proj1 (nudge_keeps_store _)), Hb, Hn, Hset.
  rewrite lookup_insert_eq.
  rewrite Hw, (proj1 (nudge_keeps_store _)) in Hsh.
  repeat split; try assumption; reflexivity.
Qed.

Lemma falsy_Some (s : string) : falsy (Some s) = false <-> s <> EmptyString.
Proof.
  cbn. destruct (decide (s = EmptyString)) as [->|Hne].
  - split; [discriminate|congruence].
  - rewrite bool_decide_eq_false_2 by exact Hne. tauto.
Qed.

Lemma falsy_true (answer : option string) :
  falsy answer = true <-> answer = None \/ answer = Some EmptyString.
Proof.
  destruct answer as [s|]; cbn.
  - rewrite bool_decide_eq_true. split; [intros ->; auto|].
    intros [?|[= ->]]; [discriminate|reflexivity].
  - tauto.
Qed.

Lemma addBook_run (a : AppState) (title : string) (pick : fin 10)
    (uuid : string) :
  title <> EmptyString ->
  let w := world a in
  let book := mkBook uuid (trim title) (COLORS !!! pick)
                     (clock w (ticks w)) (clock w (S (ticks w))) in
  let w0 := mkWorld (db w) (banner_hidden w) (clock w) (S (S (ticks w))) in
  let w1 := mkWorld (mkDb (<[uuid := book]> (books (db w))) (nodes (db w))
                          (settings (db w)) (snapshots (db w))
                          (snapshots_keygen (db w)))
                    (banner_hidden w) (clock w) (S (S (ticks w))) in
  addBook (Some title) pick uuid a =
    match books (db w) !! uuid with
    | Some _ => (None, mkApp w0 (session a) (canvasTitle a) (shelves a))
    | None =>
        renderBookshelf
          (mkApp (exec markChanged w1) (session a) (canvasTitle a) (shelves a))
    end.
Proof.
  intros Hne. cbv zeta. unfold addBook.
  rewrite (proj2 (falsy_Some title) Hne).
  unfold ebind. run_handler. rewrite books_add_run. run_handler.
  destruct (books (db (world a)) !! uuid); [reflexivity|].
  run_handler. reflexivity.
Qed.

(** X17 — Adding a book.  A cancelled or empty answer changes nothing.
    Otherwise, if the identifier drawn is already a key of the books table
    the call rejects with books, nodes, settings and snapshots as they
    were; if it is new, exactly one book is added under it: its title is
    the answer with the white space at both ends removed, its color is the
    one drawn from the palette, its two timestamps are the two clock
    readings taken; the nodes are untouched, exactly one change is
    counted, and the bookshelf is rendered from the new table. *)
Theorem addBook_adds_one (a : AppState) (title : option string)
    (pick : fin 10) (uuid : string) :
  let w := world a in
  let a' := after (addBook title pick uuid) a in
  (falsy title = true ->
     result (addBook title pick uuid) a = Some tt /\ a' = a) /\
  (falsy title = false -> is_Some (books (db w) !! uuid) ->
     result (addBook title pick uuid) a = None /\
     db (world a') = db w /\ session a' = session a /\
     shelves a' = shelves a) /\
  (falsy title = false -> books (db w) !! uuid = None ->
     result (addBook title pick uuid) a = Some tt /\
     exists book : Book,
       books (db (world a')) = <[uuid := book]> (books (db w)) /\
       book_id book = uuid /\
       Some (book_title book) = trim <$> title /\
       starts_with_space (book_title book) = false /\
       ends_with_space (book_title book) = false /\
       book_color book = COLORS !!! pick /\
       book_createdAt book = clock w (ticks w) /\
       book_updatedAt book = clock w (S (ticks w)) /\
       nodes (db (world a')) = nodes (db w) /\
       change_count (world a') = change_count w + 1 /\
       session a' = session a /\
       canvasTitle a' = canvasTitle a /\
       shelves_of (books_newest_first (db (world a'))) = Some (shelves a')).
Proof.
  cbv zeta. split; [|split].
  - intros Hf. apply falsy_true in Hf as [->| ->]; split; reflexivity.
  - intros Hf [b Hb]. destruct title as [title|]; [|discriminate].
    apply falsy_Some in Hf.
    pose proof (addBook_run a title pick uuid Hf) as Hrun. cbv zeta in Hrun.
    rewrite Hb in Hrun. unfold result, after. rewrite Hrun.
    repeat split.
  - intros Hf Hb. destruct title as [title|]; [|discriminate].
    apply falsy_Some in Hf.
    pose proof (addBook_run a title pick uuid Hf) as Hrun. cbv zeta in Hrun.
    rewrite Hb in Hrun.
    destruct (after_eq _ _ _ _ Hrun) as [-> ->].
    match goal with
    | |- context [mkApp (exec markChanged ?w1) ?ses ?t ?sh] =>
        destruct (changed_rendered w1 ses t sh)
          as (Hres & Hbooks & Hnodes & Hcount & Hses & Htitle & Hsh)
    end.
    cbv zeta in *. cbn [db books nodes] in *.
    split; [exact Hres|].
    eexists. split; [exact Hbooks|].
    cbn [book_id book_title book_color book_createdAt book_updatedAt].
    destruct (trim_clean title) as (Hstart & Hend & _).
    rewrite Hcount, !change_count_eq.
    repeat split; assumption.
Qed.

Lemma renameBook_run (a : AppState) (bookId title : string) (book : Book) :
  books (db (world a)) !! bookId = Some book ->
  title <> EmptyString ->
  let w := world a in
  let w1 := mkWorld (mkDb (alter (retitle (trim title) (clock w (ticks w)))
                                 bookId (books (db w)))
                          (nodes (db w)) (settings (db w)) (snapshots (db w))
                          (snapshots_keygen (db w)))
                    (banner_hidden w) (clock w) (S (ticks w)) in
  renameBook bookId (Some title) a =
    renderBookshelf
      (mkApp (exec markChanged w1) (session a) (trim title) (shelves a)).
Proof.
  intros Hb Hne. cbv zeta. unfold renameBook, ebind. run_handler.
  rewrite Hb, (proj2 (falsy_Some title) Hne). run_handler.
  unfold set_canvasTitle. run_handler. reflexivity.
Qed.

Lemma renameBook_quiet (a : AppState) (bookId : string)
    (answer : option string) :
  books (db (world a)) !! bookId = None \/ falsy answer = true ->
  renameBook bookId answer a = (Some tt, a).
Proof.
  intros H. unfold renameBook, ebind. run_handler.
  destruct (books (db (world a)) !! bookId) as [b|];
    [|destruct a; reflexivity].
  destruct H as [?|Hf]; [discriminate|].
  apply falsy_true in Hf as [->| ->]; destruct a; reflexivity.
Qed.

Lemma alter_lookup_insert {V} (f : V -> V) (k : string) (v : V)
    (m : gmap string V) :
  m !! k = Some v -> alter f k m = <[k := f v]> m.
Proof.
  intros Hk. apply map_eq. intros j. destruct (decide (k = j)) as [<-|Hne].
  - rewrite lookup_alter_eq, lookup_insert_eq, Hk. reflexivity.
  - rewrite lookup_alter_ne, lookup_insert_ne by exact Hne. reflexivity.
Qed.

(** X18 — Renaming a book.  The call always returns.  If the book is not
    in the store, or the answer is cancelled or empty, nothing changes.
    Otherwise only that book changes: its title becomes the answer with
    the white space at both ends removed (the empty title if the answer is
    white space only) and its update time the clock reading; identifier,
    color and creation time stay.  The nodes are untouched, exactly one
    change is counted, the canvas title shows the new title, and the
    bookshelf is rendered from the new table. *)
Theorem renameBook_retitles (a : AppState) (bookId : string)
    (answer : option string) :
  let w := world a in
  let a' := after (renameBook bookId answer) a in
  result (renameBook bookId answer) a = Some tt /\
  (books (db w) !! bookId = None \/ falsy answer = true -> a' = a) /\
  (forall (book : Book) (title : string),
     books (db w) !! bookId = Some book ->
     answer = Some title -> title <> EmptyString ->
     books (db (world a')) =
       <[bookId := mkBook (book_id book) (trim title) (book_color book)
                          (book_createdAt book) (clock w (ticks w))]>
         (books (db w)) /\
     starts_with_space (trim title) = false /\
     ends_with_space (trim title) = false /\
     (all_white_space title = true -> trim title = EmptyString) /\
     nodes (db (world a')) = nodes (db w) /\
     change_count (world a') = change_count w + 1 /\
     canvasTitle a' = trim title /\
     session a' = session a /\
     shelves_of (books_newest_first (db (world a'))) = Some (shelves a')).
Proof.
  cbv zeta.
  assert (Hquiet : books (db (world a)) !! bookId = None \/
                   falsy answer = true ->
                   result (renameBook bookId answer) a = Some tt /\
                   after (renameBook bookId answer) a = a).
  { intros H. unfold result, after. rewrite (renameBook_quiet _ _ _ H). auto. }
  assert (Hdone : forall book title,
            books (db (world a)) !! bookId = Some book ->
            answer = Some title -> title <> EmptyString ->
            result (renameBook bookId answer) a = Some tt /\
            books (db (world (after (renameBook bookId answer) a))) =
              <[bookId := mkBook (book_id book) (trim title) (book_color book)
                                 (book_createdAt book)
                                 (clock (world a) (ticks (world a)))]>
                (books (db (world a))) /\
            nodes (db (world (after (renameBook bookId answer) a)))
              = nodes (db (world a)) /\
            change_count (world (after (renameBook bookId answer) a))
              = change_count (world a) + 1 /\
            canvasTitle (after (renameBook bookId answer) a) = trim title /\
            session (after (renameBook bookId answer) a) = session a /\
            shelves_of (books_newest_first
                          (db (world (after (renameBook bookId answer) a))))
              = Some (shelves (after (renameBook bookId answer) a))).
  { intros book title Hb -> Hne.
    pose proof (renameBook_run a bookId title book Hb Hne) as Hrun.
    cbv zeta in Hrun. destruct (after_eq _ _ _ _ Hrun) as [-> ->].
    match goal with
    | |- context [mkApp (exec markChanged ?w1) ?ses ?t ?sh] =>
        destruct (changed_rendered w1 ses t sh)
          as (Hres & Hbooks & Hnodes & Hcount & Hses & Htitle & Hsh)
    end.
    cbv zeta in *. cbn [db books nodes] in *.
    rewrite Hcount, !change_count_eq.
    split; [exact Hres|].
    split; [rewrite Hbooks; exact (alter_lookup_insert _ _ _ _ Hb)|].
    split; [exact Hnodes|].
    split; [reflexivity|]. split; [exact Htitle|]. split; [exact Hses|].
    exact Hsh. }
  split.
  { destruct (books (db (world a)) !! bookId) as [book|] eqn:Hb;
      [|apply Hquiet; auto].
    destruct (falsy answer) eqn:Hf; [apply Hquiet; auto|].
    destruct answer as [title|]; [|discriminate].
    apply falsy_Some in Hf.
    apply (Hdone book title eq_refl eq_refl Hf). }
  split; [intros H; apply Hquiet, H|].
  intros book title Hb Ha Hne.
  destruct (Hdone book title Hb Ha Hne) as (_ & Hbooks & Hn & Hc & Ht & Hs & Hsh).
  destruct (trim_clean title) as (Hstart & Hend & _).
  repeat split; try assumption. apply trim_all_white_space.
Qed.

Lemma deleteBook_run (a : AppState) (bookId : string) (book : Book) :
  books (db (world a)) !! bookId = Some book ->
  let w := world a in
  let w1 := mkWorld (mkDb (delete bookId (books (db w)))
                          (filter (fun kv => node_bookId kv.2 <> bookId)
                                  (nodes (db w)))
                          (settings (db w)) (snapshots (db w))
                          (snapshots_keygen (db w)))
                    (banner_hidden w) (clock w) (ticks w) in
  let ses' := match session a with
              | Some ses =>
                  if bool_decide (currentBookId ses = bookId) then None
                  else Some ses
              | None => None
              end in
  deleteBook bookId true a =
    renderBookshelf
      (mkApp (exec markChanged w1) ses' (canvasTitle a) (shelves a)).
Proof.
  intros Hb. cbv zeta. unfold deleteBook, ebind. run_handler.
  rewrite Hb. cbn [negb]. run_handler.
  unfold get_session, showBookshelf, put_session, eret. run_handler.
  destruct (session a) as [ses|]; [|reflexivity].
  destruct (bool_decide (currentBookId ses = bookId)); reflexivity.
Qed.

Lemma deleteBook_quiet (a : AppState) (bookId : string) (ok : bool) :
  books (db (world a)) !! bookId = None \/ ok = false ->
  deleteBook bookId ok a = (Some tt, a).
Proof.
  intros H. unfold deleteBook, ebind. run_handler.
  destruct (books (db (world a)) !! bookId) as [b|];
    [|destruct a; reflexivity].
  destruct H as [?| ->]; [discriminate|]. destruct a; reflexivity.
Qed.

(** X19 — Deleting a book.  The call always returns.  If the book is not
    in the store or the confirmation is declined, nothing changes.
    Otherwise the book is removed and with it every node of that book and
    no other node, exactly one change is counted, the canvas is left if it
    showed that book and kept if it showed another, and the bookshelf is
    rendered from the new table. *)
Theorem deleteBook_cascades (a : AppState) (bookId : string) (ok : bool) :
  let w := world a in
  let a' := after (deleteBook bookId ok) a in
  result (deleteBook bookId ok) a = Some tt /\
  (books (db w) !! bookId = None \/ ok = false -> a' = a) /\
  (is_Some (books (db w) !! bookId) -> ok = true ->
     books (db (world a')) = delete bookId (books (db w)) /\
     (forall id r,
        nodes (db (world a')) !! id = Some r <->
        nodes (db w) !! id = Some r /\ node_bookId r <> bookId) /\
     change_count (world a') = change_count w + 1 /\
     (forall ses, session a = Some ses -> currentBookId ses = bookId ->
        session a' = None) /\
     (forall ses, session a = Some ses -> currentBookId ses <> bookId ->
        session a' = Some ses) /\
     (session a = None -> session a' = None) /\
     canvasTitle a' = canvasTitle a /\
     shelves_of (books_newest_first (db (world a'))) = Some (shelves a')).
Proof.
  cbv zeta.
  assert (Hquiet : books (db (world a)) !! bookId = None \/ ok = false ->
                   result (deleteBook bookId ok) a = Some tt /\
                   after (deleteBook bookId ok) a = a).
  { intros H. unfold result, after. rewrite (deleteBook_quiet _ _ _ H). auto. }
  assert (Hdone : is_Some (books (db (world a)) !! bookId) -> ok = true ->
            result (deleteBook bookId ok) a = Some tt /\
            books (db (world (after (deleteBook bookId ok) a)))
              = delete bookId (books (db (world a))) /\
            nodes (db (world (after (deleteBook bookId ok) a)))
              = filter (fun kv => node_bookId kv.2 <> bookId)
                       (nodes (db (world a))) /\
            change_count (world (after (deleteBook bookId ok) a))
              = change_count (world a) + 1 /\
            session (after (deleteBook bookId ok) a) =
              match session a with
              | Some ses =>
                  if bool_decide (currentBookId ses = bookId) then None
                  else Some ses
              | None => None
              end /\
            canvasTitle (after (deleteBook bookId ok) a) = canvasTitle a /\
            shelves_of (books_newest_first
                          (db (world (after (deleteBook bookId ok) a))))
              = Some (shelves (after (deleteBook bookId ok) a))).
  { intros [book Hb] ->.
    pose proof (deleteBook_run a bookId book Hb) as Hrun.
    cbv zeta in Hrun. destruct (after_eq _ _ _ _ Hrun) as [-> ->].
    match goal with
    | |- context [mkApp (exec markChanged ?w1) ?ses ?t ?sh] =>
        destruct (changed_rendered w1 ses t sh)
          as (Hres & Hbooks & Hnodes & Hcount & Hses & Htitle & Hsh)
    end.
    cbv zeta in *. cbn [db books nodes] in *.
    rewrite Hcount, !change_count_eq.
    split; [exact Hres|]. split; [exact Hbooks|]. split; [exact Hnodes|].
    split; [reflexivity|]. split; [exact Hses|]. split; [exact Htitle|].
    exact Hsh. }
  split.
  { destruct (books (db (world a)) !! bookId) as [book|] eqn:Hb;
      [|apply Hquiet; auto].
    destruct ok; [|apply Hquiet; auto].
    apply Hdone; eauto. }
  split; [intros H; apply Hquiet, H|].
  intros Hb Hok.
  destruct (Hdone Hb Hok) as (_ & Hbooks & Hnodes & Hc & Hses & Ht & Hsh).
  split; [exact Hbooks|]. split.
  { intros id r. rewrite Hnodes, map_lookup_filter_Some. cbn. tauto. }
  split; [exact Hc|].
  split.
  { intros ses Hs Heq. rewrite Hses, Hs.
    rewrite bool_decide_eq_true_2 by exact Heq. reflexivity. }
  split.
  { intros ses Hs Hne. rewrite Hses, Hs.
    rewrite bool_decide_eq_false_2 by exact Hne. reflexivity. }
  split; [intros Hs; rewrite Hses, Hs; reflexivity|].
  split; assumption.
Qed.

(** ** Import *)

Lemma import_transaction_run (data : BackupData) (a : AppState) :
  let w := world a in
  import_transaction data a =
    match import_tables data with
    | None => (None, a)
    | Some (bs, ns, ss) =>
        (Some tt,
         mkApp (mkWorld (mkDb bs ns (<[lastChangedAt := clock w (ticks w)]> ss)
                              (snapshots (db w)) (snapshots_keygen (db w)))
                        (banner_hidden w) (clock w) (S (ticks w)))
               (session a) (canvasTitle a) (shelves a))
    end.
Proof.
  cbv zeta. unfold import_transaction.
  destruct (import_tables data) as [[[bs ns] ss]|]; [|reflexivity].
  rewrite lift_run. reflexivity.
Qed.

(** What [importBackup] does, case by case. *)
Lemma importBackup_run (parsed : Parsed) (ok : bool) (a : AppState) :
  let w := world a in
  importBackup parsed ok a =
    match parsed with
    | SyntaxError => (None, a)
    | NotAnObject => (Some (Some "Backup format not recognized."), a)
    | ParsedObject obj =>
        match obj_data obj with
        | Some data =>
            if bool_decide (obj_version obj = Some 1) then
              if ok then
                match import_tables data with
                | None => (None, a)
                | Some (bs, ns, ss) =>
                    (Some (Some "Imported."),
                     after renderBookshelf
                       (mkApp (mkWorld
                                 (mkDb bs ns
                                       (<[lastChangedAt := clock w (ticks w)]> ss)
                                       (snapshots (db w))
                                       (snapshots_keygen (db w)))
                                 (banner_hidden w) (clock w) (S (ticks w)))
                              (session a) (canvasTitle a) (shelves a)))
                end
              else (Some None, a)
            else (Some (Some "Backup format not recognized."), a)
        | None => (Some (Some "Backup format not recognized."), a)
        end
    end.
Proof.
  cbv zeta. unfold importBackup.
  destruct parsed as [| |obj]; try reflexivity.
  destruct (obj_data obj) as [data|]; [|reflexivity].
  destruct (bool_decide (obj_version obj = Some 1)); [|reflexivity].
  destruct ok; [|reflexivity]. cbn [negb].
  unfold ebind at 1. rewrite import_transaction_run. cbv zeta.
  destruct (import_tables data) as [[[bs ns] ss]|]; [|reflexivity].
  unfold ebind, eret.
  match goal with
  | |- context [renderBookshelf ?a1] =>
      destruct (renderBookshelf_run a1) as (sh & _ & Hrun);
      unfold after; rewrite Hrun
  end.
  reflexivity.
Qed.

Lemma import_tables_spec (data : BackupData) bs ns ss :
  import_tables data = Some (bs, ns, ss) <->
  importable data /\
  bs = list_to_map ((fun b => (book_id b, b)) <$>
                      keyed_rows (default [] (obj_books data))) /\
  ns = list_to_map ((fun r => (node_id r, r)) <$>
                      keyed_rows (default [] (obj_nodes data))) /\
  ss = list_to_map (keyed_rows (default [] (obj_settings data))).
Proof.
  unfold import_tables, importable.
  set (B := default [] (obj_books data)).
  set (N := default [] (obj_nodes data)).
  set (S := default [] (obj_settings data)).
  assert (HS : (fun r : string * Z => (r.1, r.2)) <$> keyed_rows S
               = keyed_rows S).
  { rewrite <- (list_fmap_id (keyed_rows S)) at 2. apply list_fmap_ext.
    intros i [k v] _. reflexivity. }
  split.
  - destruct (bulkAdd book_id id B ∅) as [bs'|] eqn:Hbs; [|discriminate].
    destruct (bulkAdd node_id id N ∅) as [ns'|] eqn:Hns; [|discriminate].
    destruct (bulkAdd fst snd S ∅) as [ss'|] eqn:Hss; [|discriminate].
    intros [= <- <- <-].
    apply bulkAdd_Some_iff in Hbs as (HBk & HB & _ & ->).
    apply bulkAdd_Some_iff in Hns as (HNk & HN & _ & ->).
    apply bulkAdd_Some_iff in Hss as (HSk & HSS & _ & ->).
    rewrite !(right_id_L ∅ (∪)), HS.
    split; [repeat split; assumption|].
    split; [reflexivity|]. split; reflexivity.
  - intros ((HBk & HNk & HSk & HB & HN & HSS) & -> & -> & ->).
    rewrite (proj2 (bulkAdd_Some_iff book_id id B ∅ _)
               (conj HBk (conj HB (conj (fun r _ => lookup_empty _) eq_refl)))).
    rewrite (proj2 (bulkAdd_Some_iff node_id id N ∅ _)
               (conj HNk (conj HN (conj (fun r _ => lookup_empty _) eq_refl)))).
    rewrite (proj2 (bulkAdd_Some_iff fst snd S ∅ _)
               (conj HSk (conj HSS (conj (fun r _ => lookup_empty _) eq_refl)))).
    rewrite !(right_id_L ∅ (∪)), HS. reflexivity.
Qed.

Lemma import_tables_is_Some (data : BackupData) :
  is_Some (import_tables data) <-> importable data.
Proof.
  split.
  - intros [[[bs ns] ss] H]. apply import_tables_spec in H. apply H.
  - intros H. eexists (_, _, _). apply import_tables_spec.
    split; [exact H|]. repeat split.
Qed.

Lemma import_tables_None (data : BackupData) :
  import_tables data = None <-> ~ importable data.
Proof.
  rewrite <- import_tables_is_Some.
  destruct (import_tables data) as [tables|]; split.
  - discriminate.
  - intros H. exfalso. apply H. eauto.
  - intros _ [x [=]].
  - reflexivity.
Qed.

(** X20 — Import is all or nothing.  [importBackup] ends with the alert
    Imported exactly when the file parses to an object with version 1 and
    a data property, the confirmation is accepted, every row of the three
    lists has a valid primary key and none of the three lists repeats a
    key.  In every other case (a file that does not parse, an unrecognized
    format, a declined confirmation, a row without a key or a repeated
    key, which roll the transaction back) the whole state is exactly as
    before the call.  The call rejects exactly for a file that does not
    parse and for a confirmed file of version 1 with a row without a key
    or a repeated key: a list holding one value without a key rejects, and
    so does a list holding the same book twice. *)
Theorem importBackup_all_or_nothing (a : AppState) (parsed : Parsed)
    (ok : bool) :
  let r := result (importBackup parsed ok) a in
  let a' := after (importBackup parsed ok) a in
  let accepted (data : BackupData) :=
    Forall has_key (default [] (obj_books data)) /\
    Forall has_key (default [] (obj_nodes data)) /\
    Forall has_key (default [] (obj_settings data)) /\
    NoDup (book_id <$> keyed_rows (default [] (obj_books data))) /\
    NoDup (node_id <$> keyed_rows (default [] (obj_nodes data))) /\
    NoDup (keyed_rows (default [] (obj_settings data))).*1 in
  (r = Some (Some "Imported.") <->
     exists obj data,
       parsed = ParsedObject obj /\ obj_version obj = Some 1 /\
       obj_data obj = Some data /\ ok = true /\ accepted data) /\
  (r <> Some (Some "Imported.") -> a' = a) /\
  (r = None <->
     parsed = SyntaxError \/
     exists obj data,
       parsed = ParsedObject obj /\ obj_version obj = Some 1 /\
       obj_data obj = Some data /\ ok = true /\ ~ accepted data) /\
  importBackup
    (ParsedObject
       (mkBackupObject (Some 1)
          (Some (mkBackupData None (Some [Unkeyed]) None)))) true a
    = (None, a) /\
  importBackup
    (ParsedObject
       (mkBackupObject (Some 1)
          (Some (mkBackupData
                   (Some [Keyed (mkBook "b7" "Ideas" "#48c9b0" 100 200);
                          Keyed (mkBook "b7" "Ideas" "#48c9b0" 100 200)])
                   None None)))) true a
    = (None, a).
Proof.
  cbv zeta. fold importable.
  split; [|split; [|split; [|split; rewrite importBackup_run; reflexivity]]];
    revert a; intros a;
    unfold result, after; rewrite importBackup_run; cbv zeta;
    (destruct parsed as [| |obj]; cbn [fst snd];
     [|  |destruct (obj_data obj) as [data|] eqn:Hdata; cbn [fst snd];
          [destruct (decide (obj_version obj = Some 1)) as [Hv|Hv];
           [rewrite bool_decide_eq_true_2 by exact Hv;
            destruct ok; cbn [fst snd];
            [destruct (import_tables data) as [[[bs ns] ss]|] eqn:Htab;
             cbn [fst snd]|]
           |rewrite bool_decide_eq_false_2 by exact Hv; cbn [fst snd]]|]]).
  (* Imported, exactly when *)
  - split; [discriminate|]. intros (? & ? & [=] & _).
  - split; [discriminate|]. intros (? & ? & [=] & _).
  - split; [|reflexivity]. intros _. exists obj, data.
    repeat (split; [first [reflexivity|assumption]|]).
    apply import_tables_is_Some. rewrite Htab. eauto.
  - split; [discriminate|].
    intros (? & ? & [= <-] & _ & Hd & _ & Ht).
    apply import_tables_is_Some in Ht as [x Ht]. congruence.
  - split; [discriminate|]. intros (? & ? & _ & _ & _ & [=] & _).
  - split; [discriminate|]. intros (? & ? & [= <-] & Hv' & _). congruence.
  - split; [discriminate|]. intros (? & ? & [= <-] & _ & Hd & _). congruence.
  (* otherwise, nothing changes *)
  - reflexivity.
  - reflexivity.
  - intros H. exfalso. apply H. reflexivity.
  - reflexivity.
  - reflexivity.
  - reflexivity.
  - reflexivity.
  (* rejects, exactly when *)
  - split; [auto|reflexivity].
  - split; [discriminate|]. intros [[=]|(? & ? & [=] & _)].
  - split; [discriminate|].
    intros [[=]|(? & ? & [= <-] & _ & Hd & _ & Ht)].
    exfalso. apply Ht, import_tables_is_Some.
    assert (x0 = data) by congruence. subst x0. rewrite Htab. eauto.
  - split; [|reflexivity]. intros _. right. exists obj, data.
    repeat (split; [first [reflexivity|assumption]|]).
    apply import_tables_None, Htab.
  - split; [discriminate|]. intros [[=]|(? & ? & _ & _ & _ & [=] & _)].
  - split; [discriminate|].
    intros [[=]|(? & ? & [= <-] & Hv' & _)]. congruence.
  - split; [discriminate|].
    intros [[=]|(? & ? & [= <-] & _ & Hd & _)]. congruence.
Qed.

(** X21 — What an import leaves.  When a file with version 1 and a data
    property is imported to the end, every row of its lists has a key, no
    list of the file repeats a key, and the three tables hold exactly the
    rows of the three lists of the file (an absent list counting as
    empty), each under its key, except that [lastChangedAt] is the clock
    reading of the import.  The change counter is the one of the file (0
    if the file has none): the import itself is not counted.  Snapshots,
    their key generator, the open book and the canvas title are as before,
    and the bookshelf is rendered from the new table. *)
Theorem importBackup_replaces_tables (a : AppState) (obj : BackupObject)
    (data : BackupData) :
  obj_version obj = Some 1 ->
  obj_data obj = Some data ->
  result (importBackup (ParsedObject obj) true) a = Some (Some "Imported.") ->
  let w := world a in
  let a' := after (importBackup (ParsedObject obj) true) a in
  let rows_b := keyed_rows (default [] (obj_books data)) in
  let rows_n := keyed_rows (default [] (obj_nodes data)) in
  let rows_s := keyed_rows (default [] (obj_settings data)) in
  default [] (obj_books data) = Keyed <$> rows_b /\
  default [] (obj_nodes data) = Keyed <$> rows_n /\
  default [] (obj_settings data) = Keyed <$> rows_s /\
  NoDup (book_id <$> rows_b) /\ NoDup (node_id <$> rows_n) /\
  NoDup rows_s.*1 /\
  books (db (world a')) = list_to_map ((fun b => (book_id b, b)) <$> rows_b) /\
  nodes (db (world a')) = list_to_map ((fun r => (node_id r, r)) <$> rows_n) /\
  settings (db (world a')) =
    <[lastChangedAt := clock w (ticks w)]> (list_to_map rows_s) /\
  change_count (world a') =
    default 0 ((list_to_map rows_s : gmap string Z) !! changeCount) /\
  snapshots (db (world a')) = snapshots (db w) /\
  snapshots_keygen (db (world a')) = snapshots_keygen (db w) /\
  session a' = session a /\
  canvasTitle a' = canvasTitle a /\
  shelves_of (books_newest_first (db (world a'))) = Some (shelves a').
Proof.
  intros Hv Hd. unfold result, after. rewrite importBackup_run. cbv zeta.
  rewrite Hd, bool_decide_eq_true_2 by exact Hv.
  destruct (import_tables data) as [[[bs ns] ss]|] eqn:Htab;
    [|discriminate].
  intros _. cbn [snd].
  apply import_tables_spec in Htab
    as ((HBk & HNk & HSk & HB & HN & HS) & -> & -> & ->).
  match goal with
  | |- context [after renderBookshelf ?a1] =>
      destruct (renderBookshelf_fresh a1) as (_ & Hw & Hses & Ht & Hsh)
  end.
  cbn [world session canvasTitle] in *.
  rewrite change_count_eq, Hw, (proj1 (nudge_keeps_store _)).
  rewrite Hw, (proj1 (nudge_keeps_store _)) in Hsh.
  cbn [db books nodes settings snapshots snapshots_keygen].
  rewrite lookup_insert_ne by discriminate.
  split; [apply has_key_all, HBk|]. split; [apply has_key_all, HNk|].
  split; [apply has_key_all, HSk|].
  repeat split; assumption.
Qed.

Lemma eval_buildBackupObject (w : World) :
  eval buildBackupObject w =
    mkBackup 1 (clock w (ticks w)) (toArray (books (db w)))
             (toArray (nodes (db w))) (rows_by_key (settings (db w))).
Proof. reflexivity. Qed.

(** X22 — A backup restores the store it was built from, as far as its
    file holds it.  Take the object that [buildBackupObject] builds on a
    store whose books and nodes are stored under their own identifiers; it
    is the object that [exportBackup] downloads and that
    [createInternalSnapshot] stores.  Written to a file and read back, a
    coordinate that is NaN or infinite has become null, and -0 has become
    0; every other number, and every identifier, title, color and time, is
    as it was.  The file holds a number for every coordinate exactly when
    all the coordinates of the store are finite.  Importing it then, over
    any current state, ends with the alert Imported and leaves exactly the
    books and the settings of that store, the change counter included,
    except that [lastChangedAt] is the clock reading of the import, and the
    nodes of that store, each read back from the file: they are the nodes
    of the store when no coordinate is -0.  The snapshots of the current
    state are kept. *)
Theorem backup_round_trip (w0 : World) (a : AppState) :
  keyed_by_id (db w0) ->
  let b := eval buildBackupObject w0 in
  b = (eval exportBackup w0).2 /\
  (exists t, snapshots (db (exec createInternalSnapshot w0)) =
             keep_last_10 (<[snapshots_keygen (db w0) + 1 := mkSnapshot t b]>
                             (snapshots (db w0)))) /\
  (is_Some (parsed_backup b) <->
   map_Forall (fun _ r => is_finite (node_x r) = true /\
                          is_finite (node_y r) = true) (nodes (db w0))) /\
  (forall p : Parsed, parsed_backup b = Some p ->
     let a' := after (importBackup p true) a in
     result (importBackup p true) a = Some (Some "Imported.") /\
     books (db (world a')) = books (db w0) /\
     nodes (db (world a')) = omap json_node (nodes (db w0)) /\
     (map_Forall (fun _ r => is_neg_zero (node_x r) = false /\
                             is_neg_zero (node_y r) = false) (nodes (db w0)) ->
      nodes (db (world a')) = nodes (db w0)) /\
     settings (db (world a')) =
       <[lastChangedAt := clock (world a) (ticks (world a))]>
         (settings (db w0)) /\
     change_count (world a') = change_count w0 /\
     snapshots (db (world a')) = snapshots (db (world a))) /\
  json_number NaN = None /\
  json_number Infinity = None /\
  json_number NegInfinity = None /\
  json_number neg_zero = Some pos_zero /\
  json_number (literal 1 10) = Some (literal 1 10) /\
  json_node (mkNodeRow "n" "b" neg_zero (of_Z (-7)) "#5dade2" 5)
    = Some (mkNodeRow "n" "b" pos_zero (of_Z (-7)) "#5dade2" 5) /\
  parsed_backup
    (mkBackup 1 0 [] [mkNodeRow "n" "b" NaN (of_Z 2) "#5dade2" 5] []) = None.
Proof.
  intros Hkeyed. cbv zeta.
  split; [unfold eval; rewrite exportBackup_run; reflexivity|].
  split; [eexists; rewrite createInternalSnapshot_run; reflexivity|].
  rewrite eval_buildBackupObject. unfold parsed_backup.
  cbn [version data_books data_nodes data_settings].
  split.
  { fold (finite_position). rewrite <- mapM_json_node_is_Some.
    destruct (mapM json_node _); split; intros [x H]; try discriminate;
      eauto. }
  split; [|repeat split; vm_compute; reflexivity].
  intros p Hp.
  destruct (mapM json_node (toArray (nodes (db w0)))) as [rows|] eqn:Hrows;
    [|discriminate].
  injection Hp as <-.
  unfold result, after. rewrite importBackup_run. cbv zeta.
  cbn [obj_data obj_version].
  rewrite bool_decide_eq_true_2 by reflexivity.
  rewrite (import_tables_built (db w0) rows Hkeyed Hrows). cbn [fst snd].
  match goal with
  | |- context [after renderBookshelf ?a1] =>
      destruct (renderBookshelf_fresh a1) as (_ & Hw & _)
  end.
  cbn [world] in Hw.
  rewrite change_count_eq, Hw, (proj1 (nudge_keeps_store _)).
  cbn [db books nodes settings snapshots].
  rewrite lookup_insert_ne by discriminate. rewrite change_count_eq.
  split; [reflexivity|]. split; [reflexivity|]. split; [reflexivity|].
  split; [|repeat split].
  intros Hz. apply omap_json_node_same; [|exact Hz].
  apply mapM_json_node_is_Some. rewrite Hrows. eauto.
Qed.

(** ** Opening a book *)

Lemma nodes_of_book (bookId : string) (w : World) :
  let rows := eval (nodes_where_bookId_toArray bookId) w in
  rows ≡ₚ toArray (filter (fun kv => node_bookId kv.2 = bookId) (nodes (db w))) /\
  (forall r, r ∈ rows <->
     exists k, nodes (db w) !! k = Some r /\ node_bookId r = bookId) /\
  (keyed_by_id (db w) ->
     NoDup (node_id <$> rows) /\
     forall id, id ∈ node_id <$> rows <->
       exists r, nodes (db w) !! id = Some r /\ node_bookId r = bookId).
Proof.
  cbv zeta.
  change (eval (nodes_where_bookId_toArray bookId) w)
    with ((merge_sort (fun a b : string * NodeRow => String.le a.1 b.1)
             (map_to_list
                (filter (fun kv => node_bookId kv.2 = bookId) (nodes (db w))))).*2).
  set (sorted := merge_sort _ _).
  assert (Hperm : sorted ≡ₚ
            map_to_list (filter (fun kv : string * NodeRow =>
                                   node_bookId kv.2 = bookId) (nodes (db w))))
    by apply merge_sort_Permutation.
  assert (Hin : forall k r, (k, r) ∈ sorted <->
            nodes (db w) !! k = Some r /\ node_bookId r = bookId).
  { intros k r. rewrite Hperm, elem_of_map_to_list, map_lookup_filter_Some.
    reflexivity. }
  split; [rewrite toArray_Permutation, Hperm; reflexivity|].
  split.
  { intros r. rewrite list_elem_of_fmap. split.
    - intros ([k r'] & -> & Hkr). exists k. apply Hin, Hkr.
    - intros (k & Hk). exists (k, r). split; [reflexivity|]. apply Hin, Hk. }
  intros [_ Hkeyed].
  assert (Hids : node_id <$> sorted.*2 = sorted.*1).
  { rewrite <- list_fmap_compose. apply list_fmap_ext.
    intros i [k r] Hi. cbn.
    apply list_elem_of_lookup_2, Hin in Hi as [Hk _].
    apply (Hkeyed k r Hk). }
  rewrite Hids. split.
  - rewrite Hperm. apply NoDup_fst_map_to_list.
  - intros id. rewrite list_elem_of_fmap. split.
    + intros ([k r] & -> & Hkr). exists r. apply Hin, Hkr.
    + intros (r & Hr). exists (id, r). split; [reflexivity|]. apply Hin, Hr.
Qed.

Lemma g_nodeId_drawNode_row (st : Stage) (rows : list NodeRow) :
  g_nodeId <$> (drawNode_row st <$> rows) = node_id <$> rows.
Proof. rewrite <- list_fmap_compose. reflexivity. Qed.

Lemma openBook_run (bookId : string) (a : AppState) :
  let w := world a in
  let rows := eval (nodes_where_bookId_toArray bookId) w in
  openBook bookId a =
    (Some tt,
     mkApp w
       (Some (mkSession bookId
                (mkState initial_stage (drawNode_row initial_stage <$> rows)
                         None None zero false None)))
       (match books (db w) !! bookId with
        | Some b => book_title b
        | None => "Book"
        end)
       (shelves a)).
Proof.
  cbv zeta. unfold openBook, ebind. run_handler.
  unfold set_canvasTitle, put_session, loadNodesToStage, ebind, get_session,
    on_canvas, ebind, get_session, put_session.
  run_handler. cbn [currentBookId]. run_handler.
  destruct a as [[d b c t] ses title sh]. reflexivity.
Qed.

(** X23 — Opening a book.  [openBook] always returns and leaves the
    store and the shelves as they are.  It shows the stored title of the
    book, or Book if the book is not stored, and sets up a stage at unit
    scale without translation, with no gesture in progress and no node
    selected.  The layer holds one group for each stored node of that
    book, drawn from the row, and nothing else; every group shows the
    readable mode, has the clear outline stroke "rgba(255,255,255,0.0)"
    and cannot be dragged.  When the rows are stored under their own
    identifiers, no two groups carry the same node identifier. *)
Theorem openBook_loads_nodes (a : AppState) (bookId : string) :
  let w := world a in
  let a' := after (openBook bookId) a in
  result (openBook bookId) a = Some tt /\
  world a' = w /\
  shelves a' = shelves a /\
  canvasTitle a' = match books (db w) !! bookId with
                   | Some b => book_title b
                   | None => "Book"
                   end /\
  exists ses : Session,
    session a' = Some ses /\
    currentBookId ses = bookId /\
    stage (canvas ses) = initial_stage /\
    selectedNodeId (canvas ses) = None /\
    gesture_vars (canvas ses) = (None, zero, false, None) /\
    (exists rows : list NodeRow,
       layer (canvas ses) = drawNode_row initial_stage <$> rows /\
       rows ≡ₚ toArray (filter (fun kv => node_bookId kv.2 = bookId)
                               (nodes (db w)))) /\
    Forall (fun g => stroke (outline g) = "rgba(255,255,255,0.0)" /\
                     g_draggable g = false /\ shows_readable g /\
                     g_isDragging g = false)
           (layer (canvas ses)) /\
    (keyed_by_id (db w) -> layer_mirrors_store a').
Proof.
  cbv zeta. unfold result, after. rewrite openBook_run. cbv zeta.
  cbn [fst snd world session canvasTitle shelves].
  destruct (nodes_of_book bookId (world a)) as (Hperm & _ & Hkeyed).
  cbv zeta in *.
  split; [reflexivity|]. split; [reflexivity|]. split; [reflexivity|].
  split; [reflexivity|].
  eexists. split; [reflexivity|].
  cbn [currentBookId canvas stage layer selectedNodeId].
  split; [reflexivity|]. split; [reflexivity|]. split; [reflexivity|].
  split; [reflexivity|].
  split; [eexists; split; [reflexivity|exact Hperm]|].
  split.
  - apply Forall_fmap, Forall_forall. intros r _. repeat split.
  - intros Hk. unfold layer_mirrors_store.
    cbn [session canvas layer currentBookId world].
    rewrite g_nodeId_drawNode_row. apply Hkeyed, Hk.
Qed.

(** ** Editing nodes *)

Lemma nodes_add_run (r : NodeRow) (a : AppState) :
  nodes_add r a =
    match nodes (db (world a)) !! node_id r with
    | Some _ => (None, a)
    | None =>
        (Some tt,
         mkApp (mkWorld (mkDb (books (db (world a)))
                              (<[node_id r := r]> (nodes (db (world a))))
                              (settings (db (world a)))
                              (snapshots (db (world a)))
                              (snapshots_keygen (db (world a))))
                        (banner_hidden (world a)) (clock (world a))
                        (ticks (world a)))
               (session a) (canvasTitle a) (shelves a))
    end.
Proof.
  unfold nodes_add, ebind. run_handler.
  destruct (nodes (db (world a)) !! node_id r); [destruct a; reflexivity|].
  run_handler. reflexivity.
Qed.

Lemma addNodeAtWorld_run (a : AppState) (ses : Session) (p : Point)
    (pick : fin 10) (uuid : string) :
  session a = Some ses ->
  let w := world a in
  let color :=
    color_or_random (findNearestNodeColor (layer (canvas ses)) p) pick in
  let node := mkNodeRow uuid (currentBookId ses) (pt_x p) (pt_y p) color
                        (clock w (ticks w)) in
  let w0 := mkWorld (db w) (banner_hidden w) (clock w) (S (ticks w)) in
  let w1 := mkWorld (mkDb (alter (touch_book (clock w (S (ticks w))))
                                 (currentBookId ses) (books (db w)))
                          (<[uuid := node]> (nodes (db w)))
                          (settings (db w)) (snapshots (db w))
                          (snapshots_keygen (db w)))
                    (banner_hidden w) (clock w) (S (S (ticks w))) in
  addNodeAtWorld p pick uuid a =
    match nodes (db w) !! uuid with
    | Some _ => (None, mkApp w0 (session a) (canvasTitle a) (shelves a))
    | None =>
        (Some tt,
         mkApp (exec markChanged w1)
               (Some (mkSession (currentBookId ses)
                        (set_layer
                           (layer (canvas ses) ++
                            [drawNode_row (stage (canvas ses)) node])
                           (canvas ses))))
               (canvasTitle a) (shelves a))
    end.
Proof.
  intros Hses. cbv zeta. unfold addNodeAtWorld, ebind, get_session.
  rewrite Hses. run_handler. rewrite nodes_add_run. run_handler.
  destruct (nodes (db (world a)) !! uuid); [rewrite Hses; reflexivity|].
  run_handler. unfold on_canvas, ebind, get_session, put_session.
  run_handler. rewrite Hses. cbn [currentBookId canvas]. reflexivity.
Qed.

Lemma addNodeAtWorld_closed (a : AppState) (p : Point) (pick : fin 10)
    (uuid : string) :
  session a = None -> addNodeAtWorld p pick uuid a = (None, a).
Proof.
  intros Hses. unfold addNodeAtWorld, ebind, get_session. rewrite Hses.
  reflexivity.
Qed.

Lemma markChanged_summary (w1 : World) :
  books (db (exec markChanged w1)) = books (db w1) /\
  nodes (db (exec markChanged w1)) = nodes (db w1) /\
  change_count (exec markChanged w1) = change_count w1 + 1.
Proof.
  destruct (markChanged_effect w1) as (k & _ & Heff). cbv zeta in Heff.
  destruct Heff as (Hb & Hn & Hset & _).
  rewrite !change_count_eq, Hset, lookup_insert_eq. auto.
Qed.

(** What setting the update time of a book does to the table of books. *)
Lemma touch_book_row (t : Z) (bookId : string) (bs : gmap string Book) :
  (forall b, bs !! bookId = Some b ->
     alter (touch_book t) bookId bs =
       <[bookId := mkBook (book_id b) (book_title b) (book_color b)
                          (book_createdAt b) t]> bs) /\
  (bs !! bookId = None -> alter (touch_book t) bookId bs = bs).
Proof.
  split.
  - intros b Hb. exact (alter_lookup_insert _ _ _ _ Hb).
  - intros Hn. apply map_eq. intros j.
    destruct (decide (bookId = j)) as [<-|Hne].
    + rewrite lookup_alter_eq, Hn. reflexivity.
    + apply lookup_alter_ne, Hne.
Qed.

(** X24 — Adding a node.  Without an open book the call rejects and
    changes nothing.  With a book open, if the identifier drawn is already
    a key of the nodes table the call rejects with the store and the layer
    as they were.  Otherwise exactly one row is added under the new
    identifier: it belongs to the open book, lies at the given world
    point, and has the color of the nearest node of the layer within the
    inheritance radius of 220 (the distance being [Math.hypot] of the
    coordinate differences, the first scanned winning among equally near
    nodes), or the color drawn from the palette when no node is within the
    radius or the color found is the empty text: of a node at (100,0) and
    a node at (0,50) the second gives its color to a node added at the
    origin, and a node at distance 220 gives none.  The row of the open
    book, if it is stored, gets the second clock reading as its update
    time and keeps its identifier, title, color and creation time; no
    other book changes and none is added.  Exactly one change is counted,
    and one group for the new row is appended to the layer, in the render
    mode of the current scale; stage, selection and gesture are
    untouched. *)
Theorem addNodeAtWorld_adds_one (a : AppState) (p : Point) (pick : fin 10)
    (uuid : string) :
  let w := world a in
  let a' := after (addNodeAtWorld p pick uuid) a in
  (session a = None ->
     result (addNodeAtWorld p pick uuid) a = None /\ a' = a) /\
  (forall ses, session a = Some ses -> is_Some (nodes (db w) !! uuid) ->
     result (addNodeAtWorld p pick uuid) a = None /\
     db (world a') = db w /\ session a' = session a) /\
  (forall ses, session a = Some ses -> nodes (db w) !! uuid = None ->
     let color :=
       match findNearestNodeColor (layer (canvas ses)) p with
       | Some c => if bool_decide (c = EmptyString) then COLORS !!! pick else c
       | None => COLORS !!! pick
       end in
     let node := mkNodeRow uuid (currentBookId ses) (pt_x p) (pt_y p) color
                           (clock w (ticks w)) in
     result (addNodeAtWorld p pick uuid) a = Some tt /\
     (findNearestNodeColor (layer (canvas ses)) p = None <->
        forall g, g ∈ layer (canvas ses) ->
                  lt (node_distance p g) (of_Z 220) = false) /\
     (forall c : string,
        findNearestNodeColor (layer (canvas ses)) p = Some c <->
        exists (i : nat) (g : Group),
          nearest_at p (layer (canvas ses)) i g /\ c = g_ideaColor g) /\
     (forall g : Group,
        node_distance p g =
          Math_hypot (sub (g_x g) (pt_x p)) (sub (g_y g) (pt_y p))) /\
     nodes (db (world a')) = <[uuid := node]> (nodes (db w)) /\
     (forall b, books (db w) !! currentBookId ses = Some b ->
        books (db (world a')) =
          <[currentBookId ses :=
              mkBook (book_id b) (book_title b) (book_color b)
                     (book_createdAt b) (clock w (S (ticks w)))]>
            (books (db w))) /\
     (books (db w) !! currentBookId ses = None ->
        books (db (world a')) = books (db w)) /\
     change_count (world a') = change_count w + 1 /\
     session a' =
       Some (mkSession (currentBookId ses)
               (set_layer (layer (canvas ses) ++
                           [drawNode uuid color (pt_x p) (pt_y p)
                                     (stage (canvas ses))])
                          (canvas ses))) /\
     Gestures.rendered_for (scaleX (stage (canvas ses)))
       (drawNode uuid color (pt_x p) (pt_y p) (stage (canvas ses))) /\
     canvasTitle a' = canvasTitle a /\ shelves a' = shelves a) /\
  color_or_random
    (findNearestNodeColor
       [drawNode "far" "#5dade2" (of_Z 100) zero initial_stage;
        drawNode "near" "#f4d03f" zero (of_Z 50) initial_stage]
       (point 0 0)) pick = "#f4d03f" /\
  color_or_random
    (findNearestNodeColor
       [drawNode "n" "#5dade2" (of_Z 220) zero initial_stage]
       (point 0 0)) pick = COLORS !!! pick.
Proof.
  cbv zeta. split; [|split; [|split; [|split; reflexivity]]].
  - intros Hses. unfold result, after.
    rewrite (addNodeAtWorld_closed _ _ _ _ Hses). auto.
  - intros ses Hses [r Hr]. unfold result, after.
    pose proof (addNodeAtWorld_run a ses p pick uuid Hses) as Hrun.
    cbv zeta in Hrun. rewrite Hrun, Hr. auto.
  - intros ses Hses Hr. unfold result, after.
    pose proof (addNodeAtWorld_run a ses p pick uuid Hses) as Hrun.
    cbv zeta in Hrun. rewrite Hrun, Hr.
    cbn [fst snd world session canvasTitle shelves].
    match goal with
    | |- context [exec markChanged ?w1] =>
        destruct (markChanged_summary w1) as (Hb & Hn & Hc)
    end.
    rewrite Hb, Hn, Hc, !change_count_eq.
    cbn [db books nodes settings].
    destruct (touch_book_row (clock (world a) (S (ticks (world a))))
                (currentBookId ses) (books (db (world a)))) as [Hrow Hnorow].
    destruct (findNearestNodeColor_spec (layer (canvas ses)) p)
      as [Hnone Hsome].
    split; [reflexivity|]. split; [exact Hnone|]. split; [exact Hsome|].
    split; [reflexivity|]. split; [reflexivity|].
    split; [exact Hrow|]. split; [exact Hnorow|].
    split; [reflexivity|]. split; [reflexivity|].
    split; [apply rendered_for_drawNode|]. split; reflexivity.
Qed.

Lemma dragend_run (a : AppState) (ses : Session) (g : Group) :
  session a = Some ses ->
  g_nodeId g <> EmptyString ->
  let w := world a in
  let w1 := mkWorld (mkDb (alter (touch_book (clock w (S (ticks w))))
                                 (currentBookId ses) (books (db w)))
                          (alter (move_node (g_x g) (g_y g) (clock w (ticks w)))
                                 (g_nodeId g) (nodes (db w)))
                          (settings (db w)) (snapshots (db w))
                          (snapshots_keygen (db w)))
                    (banner_hidden w) (clock w) (S (S (ticks w))) in
  dragend (Some g) a =
    (Some (eval markChanged w1),
     mkApp (exec markChanged w1) (session a) (canvasTitle a) (shelves a)).
Proof.
  intros Hses Hid. cbv zeta. unfold dragend, ebind, get_session.
  rewrite Hses, (proj2 (falsy_Some _) Hid). run_handler.
  rewrite ?Hses. reflexivity.
Qed.

Lemma dragend_quiet (a : AppState) (target : option Group) :
  session a = None \/ target = None \/
  (exists g, target = Some g /\ g_nodeId g = EmptyString) ->
  dragend target a = (Some tt, a).
Proof.
  intros H. unfold dragend, ebind, get_session.
  destruct (session a) as [ses|]; [|reflexivity].
  destruct target as [g|]; [|reflexivity].
  destruct H as [?|[?|(g' & [= <-] & Hid)]]; try discriminate.
  rewrite Hid. reflexivity.
Qed.

(** X25 — Dropping a dragged node.  The drag-end handler does nothing
    without an open book, without a target, or for a target without node
    identifier.  Otherwise the row of the dragged node takes the position
    of the group and the clock reading as its update time, keeping its
    identifier, book and color; no other row changes and no row is added.
    The row of the open book, if it is stored, gets the second clock
    reading as its update time and keeps its identifier, title, color and
    creation time; no other book changes and none is added.  Exactly one
    change is counted, and the canvas, the title and the shelves are
    untouched. *)
Theorem dragend_persists_position (a : AppState) (target : option Group) :
  let w := world a in
  let a' := after (dragend target) a in
  (session a = None \/ target = None \/
   (exists g, target = Some g /\ g_nodeId g = EmptyString) -> a' = a) /\
  (forall ses g,
     session a = Some ses -> target = Some g -> g_nodeId g <> EmptyString ->
     (forall r, nodes (db w) !! g_nodeId g = Some r ->
        nodes (db (world a')) !! g_nodeId g =
          Some (mkNodeRow (node_id r) (node_bookId r) (g_x g) (g_y g)
                          (node_color r) (clock w (ticks w)))) /\
     (forall id, id <> g_nodeId g ->
        nodes (db (world a')) !! id = nodes (db w) !! id) /\
     (nodes (db w) !! g_nodeId g = None ->
        nodes (db (world a')) = nodes (db w)) /\
     (forall b, books (db w) !! currentBookId ses = Some b ->
        books (db (world a')) =
          <[currentBookId ses :=
              mkBook (book_id b) (book_title b) (book_color b)
                     (book_createdAt b) (clock w (S (ticks w)))]>
            (books (db w))) /\
     (books (db w) !! currentBookId ses = None ->
        books (db (world a')) = books (db w)) /\
     change_count (world a') = change_count w + 1 /\
     session a' = session a /\
     canvasTitle a' = canvasTitle a /\ shelves a' = shelves a).
Proof.
  cbv zeta. split.
  - intros H. unfold after. rewrite (dragend_quiet _ _ H). reflexivity.
  - intros ses g Hses -> Hid. unfold after.
    pose proof (dragend_run a ses g Hses Hid) as Hrun. cbv zeta in Hrun.
    rewrite Hrun. cbn [snd world session canvasTitle shelves].
    match goal with
    | |- context [exec markChanged ?w1] =>
        destruct (markChanged_summary w1) as (Hb & Hn & Hc)
    end.
    rewrite Hb, Hn, Hc, !change_count_eq. cbn [db books nodes settings].
    split; [intros r Hr; rewrite lookup_alter_eq, Hr; reflexivity|].
    split; [intros id Hne; apply lookup_alter_ne; congruence|].
    split.
    { intros Hnone. apply map_eq. intros id.
      destruct (decide (g_nodeId g = id)) as [<-|Hne].
      - rewrite lookup_alter_eq, Hnone. reflexivity.
      - apply lookup_alter_ne, Hne. }
    destruct (touch_book_row (clock (world a) (S (ticks (world a))))
                (currentBookId ses) (books (db (world a)))) as [Hrow Hnorow].
    split; [exact Hrow|]. split; [exact Hnorow|].
    repeat split.
Qed.

(** ** One event at a time *)

Lemma keyed_by_id_eq (d d' : Db) :
  books d' = books d -> nodes d' = nodes d ->
  keyed_by_id d -> keyed_by_id d'.
Proof. unfold keyed_by_id. intros -> ->. auto. Qed.

Lemma map_Forall_alter_keep {V} (P : string -> V -> Prop) (f : V -> V)
    (k : string) (m : gmap string V) :
  (forall v, P k v -> P k (f v)) ->
  map_Forall P m -> map_Forall P (alter f k m).
Proof.
  intros Hf Hm j v Hj. apply lookup_alter_Some in Hj
    as [(<- & v0 & Hv0 & ->)|[_ Hj]].
  - apply Hf, (Hm _ _ Hv0).
  - apply (Hm _ _ Hj).
Qed.

Lemma books_newest_first_eq (d d' : Db) :
  books d' = books d -> books_newest_first d' = books_newest_first d.
Proof. unfold books_newest_first. intros ->. reflexivity. Qed.

Lemma mirror_eq (a a' : AppState) :
  nodes (db (world a')) = nodes (db (world a)) ->
  same_nodes_shown (session a) (session a') ->
  layer_mirrors_store a -> layer_mirrors_store a'.
Proof.
  unfold layer_mirrors_store, same_nodes_shown. intros ->.
  destruct (session a) as [x|], (session a') as [y|]; try tauto.
  intros [-> ->]. auto.
Qed.

Lemma same_nodes_shown_refl (s : option Session) : same_nodes_shown s s.
Proof. destruct s; cbn; auto. Qed.

Lemma step_invariants_quiet (a a' : AppState) :
  books (db (world a')) = books (db (world a)) ->
  nodes (db (world a')) = nodes (db (world a)) ->
  change_count (world a') = change_count (world a) ->
  shelves a' = shelves a ->
  same_nodes_shown (session a) (session a') ->
  step_invariants a a'.
Proof.
  intros Hb Hn Hc Hsh Hses. split; [|split; [|split]].
  - apply keyed_by_id_eq; assumption.
  - intros _. apply mirror_eq; assumption.
  - unfold shelf_shows_store. intros H Hnone.
    rewrite (books_newest_first_eq _ _ Hb), Hsh. apply H.
    rewrite Hnone in Hses. destruct (session a); [contradiction|reflexivity].
  - left. auto.
Qed.

Lemma step_invariants_refl (a : AppState) : step_invariants a a.
Proof.
  apply step_invariants_quiet; try reflexivity. apply same_nodes_shown_refl.
Qed.

(** A change of the books table that is counted and rendered. *)
Lemma step_invariants_books (a : AppState) (w1 : World)
    (ses : option Session) (title : string) :
  (keyed_by_id (db (world a)) -> keyed_by_id (db w1)) ->
  nodes (db w1) = nodes (db (world a)) ->
  change_count w1 = change_count (world a) ->
  (ses = session a \/ ses = None) ->
  (keyed_by_id (db (world a)) -> layer_mirrors_store a ->
   layer_mirrors_store (mkApp w1 ses title (shelves a))) ->
  step_invariants a
    (after renderBookshelf (mkApp (exec markChanged w1) ses title (shelves a))).
Proof.
  intros Hkeyed Hn Hc Hses Hmirror.
  destruct (changed_rendered w1 ses title (shelves a))
    as (_ & Hb' & Hn' & Hc' & Hses' & _ & Hsh').
  cbv zeta in *.
  set (a' := after renderBookshelf _) in *.
  split; [|split; [|split]].
  - intros Hk. apply (keyed_by_id_eq (db w1)); auto.
  - intros Hk Hm. specialize (Hmirror Hk Hm).
    revert Hmirror. apply mirror_eq; [exact Hn'|].
    cbn [session]. rewrite Hses'. apply same_nodes_shown_refl.
  - intros _ _. exact Hsh'.
  - right. rewrite Hc', Hc. reflexivity.
Qed.

Lemma addBook_step (a : AppState) (title : option string) (pick : fin 10)
    (uuid : string) :
  step_invariants a (after (addBook title pick uuid) a).
Proof.
  destruct (falsy title) eqn:Hf.
  { apply falsy_true in Hf as [->| ->]; apply step_invariants_refl. }
  destruct title as [title|]; [|discriminate]. apply falsy_Some in Hf.
  pose proof (addBook_run a title pick uuid Hf) as Hrun. cbv zeta in Hrun.
  destruct (books (db (world a)) !! uuid) as [b|] eqn:Hb.
  - unfold after. rewrite Hrun.
    apply step_invariants_quiet; try reflexivity.
    apply same_nodes_shown_refl.
  - destruct (after_eq _ _ _ _ Hrun) as [-> _].
    apply step_invariants_books; try reflexivity; [|auto|].
    + intros [Hkb Hkn]. split; [|exact Hkn]. cbn [db books].
      apply map_Forall_insert_2; [reflexivity|exact Hkb].
    + intros _. apply mirror_eq; [reflexivity|apply same_nodes_shown_refl].
Qed.

Lemma renameBook_step (a : AppState) (bookId : string)
    (answer : option string) :
  step_invariants a (after (renameBook bookId answer) a).
Proof.
  destruct (books (db (world a)) !! bookId) as [book|] eqn:Hb.
  2:{ unfold after. rewrite renameBook_quiet by auto.
      apply step_invariants_refl. }
  destruct (falsy answer) eqn:Hf.
  { unfold after. rewrite renameBook_quiet by auto.
    apply step_invariants_refl. }
  destruct answer as [title|]; [|discriminate]. apply falsy_Some in Hf.
  pose proof (renameBook_run a bookId title book Hb Hf) as Hrun.
  cbv zeta in Hrun. destruct (after_eq _ _ _ _ Hrun) as [-> _].
  apply step_invariants_books; try reflexivity; [|auto|].
  - intros [Hkb Hkn]. split; [|exact Hkn]. cbn [db books].
    apply map_Forall_alter_keep; [|exact Hkb]. intros v Hv. exact Hv.
  - intros _. apply mirror_eq; [reflexivity|apply same_nodes_shown_refl].
Qed.

Lemma deleteBook_step (a : AppState) (bookId : string) (ok : bool) :
  step_invariants a (after (deleteBook bookId ok) a).
Proof.
  destruct (books (db (world a)) !! bookId) as [book|] eqn:Hb.
  2:{ unfold after. rewrite deleteBook_quiet by auto.
      apply step_invariants_refl. }
  destruct ok.
  2:{ unfold after. rewrite deleteBook_quiet by auto.
      apply step_invariants_refl. }
  pose proof (deleteBook_run a bookId book Hb) as Hrun.
  cbv zeta in Hrun. destruct (after_eq _ _ _ _ Hrun) as [-> _].
  set (w1 := mkWorld _ _ _ _).
  set (ses' := match session a with Some _ => _ | None => _ end).
  destruct (changed_rendered w1 ses' (canvasTitle a) (shelves a))
    as (_ & Hb' & Hn' & Hc' & Hses' & _ & Hsh').
  cbv zeta in *. set (a' := after renderBookshelf _) in *.
  split; [|split; [|split]].
  - intros [Hkb Hkn]. split.
    + rewrite Hb'. apply map_Forall_delete, Hkb.
    + rewrite Hn'. intros k r Hk. cbn [w1 db nodes] in Hk.
      apply map_lookup_filter_Some in Hk as [Hk _]. apply (Hkn _ _ Hk).
  - intros _. unfold layer_mirrors_store. rewrite Hses', Hn'. unfold ses'.
    destruct (session a) as [ses|]; [|auto].
    destruct (decide (currentBookId ses = bookId)) as [Heq|Hne].
    + rewrite bool_decide_eq_true_2 by exact Heq. auto.
    + rewrite bool_decide_eq_false_2 by exact Hne.
      intros [Hnd Hids]. split; [exact Hnd|].
      intros id. rewrite Hids. cbn [w1 db nodes].
      split; intros (r & Hr & Hbook); exists r.
      * split; [|exact Hbook]. apply map_lookup_filter_Some. split; [exact Hr|].
        cbn. congruence.
      * apply map_lookup_filter_Some in Hr as [Hr _]. auto.
  - intros _ _. exact Hsh'.
  - right. rewrite Hc'. reflexivity.
Qed.

Lemma openBookActions_step (a : AppState) (book : Book)
    (choice answer : option string) (ok : bool) :
  step_invariants a (after (openBookActions book choice answer ok) a).
Proof.
  unfold openBookActions. destruct choice as [choice|];
    [|apply step_invariants_refl].
  destruct (falsy (Some choice)); [apply step_invariants_refl|].
  destruct (bool_decide (toLowerCase choice = "r")); [apply renameBook_step|].
  destruct (bool_decide (toLowerCase choice = "d")); [apply deleteBook_step|].
  apply step_invariants_refl.
Qed.

Lemma exportBackup_step (a : AppState) :
  step_invariants a (after (ebind (lift exportBackup) (fun _ => eret tt)) a).
Proof.
  unfold after, ebind, eret. rewrite lift_run. cbn [snd].
  pose proof (exportBackup_db (world a)) as Hdb.
  apply step_invariants_quiet; cbn [world session shelves];
    rewrite ?change_count_eq, ?Hdb; cbn [db books nodes settings];
    try reflexivity.
  - rewrite lookup_insert_ne by discriminate. reflexivity.
  - apply same_nodes_shown_refl.
Qed.

Lemma bannerDismiss_step (a : AppState) :
  step_invariants a (after (lift bannerDismiss) a).
Proof.
  unfold after. rewrite lift_run. cbn [snd].
  apply step_invariants_quiet; cbn [world session shelves];
    rewrite ?change_count_eq; try reflexivity.
  - change (settings (db (exec bannerDismiss (world a))))
      with (<[lastNudgeDismissAt := clock (world a) (ticks (world a))]>
              (settings (db (world a)))).
    rewrite lookup_insert_ne by discriminate. reflexivity.
  - apply same_nodes_shown_refl.
Qed.

Lemma back_step (a : AppState) :
  step_invariants a (after (ebind showBookshelf (fun _ => renderBookshelf)) a).
Proof.
  unfold after, ebind, showBookshelf, put_session.
  match goal with
  | |- context [renderBookshelf ?a1] =>
      destruct (renderBookshelf_fresh a1) as (_ & Hw & Hses & _ & Hsh);
      change (renderBookshelf a1).2 with (after renderBookshelf a1)
  end.
  cbn [world session] in *.
  set (a' := after renderBookshelf _) in *.
  assert (Hdb : db (world a') = db (world a))
    by (rewrite Hw; apply nudge_keeps_store).
  split; [|split; [|split]].
  - rewrite Hdb. auto.
  - intros _ _. unfold layer_mirrors_store. rewrite Hses. exact I.
  - intros _ _. exact Hsh.
  - left. rewrite !change_count_eq, Hdb. auto.
Qed.

Lemma openBook_step (a : AppState) (bookId : string) :
  step_invariants a (after (openBook bookId) a).
Proof.
  unfold after. rewrite openBook_run. cbv zeta. cbn [snd].
  split; [|split; [|split]]; cbn [world].
  - auto.
  - intros Hk _. unfold layer_mirrors_store.
    cbn [session canvas layer currentBookId world].
    rewrite g_nodeId_drawNode_row.
    apply (proj2 (proj2 (nodes_of_book bookId (world a)))), Hk.
  - intros _. unfold shelf_shows_store. cbn [session]. discriminate.
  - left. auto.
Qed.

Lemma on_canvas_step (f : State -> State) (a : AppState) :
  (forall s, g_nodeId <$> layer (f s) = g_nodeId <$> layer s) ->
  step_invariants a (after (on_canvas f) a).
Proof.
  intros Hf. unfold after, on_canvas, ebind, get_session, put_session, eret.
  destruct (session a) as [ses|] eqn:Hses; cbn [snd].
  - apply step_invariants_quiet; cbn [world session shelves]; try reflexivity.
    rewrite Hses. cbn. split; [reflexivity|apply Hf].
  - apply step_invariants_refl.
Qed.

Lemma step_layer_ids (s : State) (e : Event) :
  g_nodeId <$> layer (step s e) = g_nodeId <$> layer s.
Proof.
  change g_nodeId with ((fun t : string * string * number * number * bool
                                 * bool * string => t.1.1.1.1.1.1)
                        ∘ node_attrs).
  rewrite !list_fmap_compose, step_attrs. reflexivity.
Qed.

Lemma background_tap_layer_ids (s : State) :
  g_nodeId <$> layer (background_tap s) = g_nodeId <$> layer s.
Proof.
  unfold background_tap. cbn [layer].
  induction (layer s) as [|g gs IH]; [reflexivity|].
  cbn. f_equal. exact IH.
Qed.

Lemma addNodeAtWorld_step (a : AppState) (p : Point) (pick : fin 10)
    (uuid : string) :
  step_invariants a (after (addNodeAtWorld p pick uuid) a).
Proof.
  destruct (session a) as [ses|] eqn:Hses.
  2:{ unfold after. rewrite addNodeAtWorld_closed by exact Hses.
      apply step_invariants_refl. }
  pose proof (addNodeAtWorld_run a ses p pick uuid Hses) as Hrun.
  cbv zeta in Hrun. unfold after. rewrite Hrun. clear Hrun.
  destruct (nodes (db (world a)) !! uuid) as [r|] eqn:Hr; cbn [snd].
  { apply step_invariants_quiet; try reflexivity.
    apply same_nodes_shown_refl. }
  match goal with
  | |- context [exec markChanged ?w1] =>
      destruct (markChanged_summary w1) as (Hb & Hn & Hc)
  end.
  cbn [db books nodes] in Hb, Hn.
  split; [|split; [|split]]; cbn [world session shelves].
  - intros [Hkb Hkn]. split.
    + rewrite Hb. apply map_Forall_alter_keep; [|exact Hkb].
      intros v Hv. exact Hv.
    + rewrite Hn. apply map_Forall_insert_2; [reflexivity|exact Hkn].
  - intros _. unfold layer_mirrors_store. rewrite Hses.
    cbn [session world canvas currentBookId]. rewrite Hn.
    unfold set_layer. cbn [layer]. intros [Hnd Hids].
    rewrite fmap_app. cbn [fmap list_fmap].
    change (g_nodeId (drawNode_row _ _)) with uuid.
    assert (Hfresh : uuid ∉ g_nodeId <$> layer (canvas ses)).
    { intros Hin. apply Hids in Hin as (r & Hr' & _). congruence. }
    split.
    + apply NoDup_app. split; [exact Hnd|]. split; [|apply NoDup_singleton].
      intros id Hid Hid'. apply list_elem_of_singleton in Hid'. congruence.
    + intros id. rewrite elem_of_app, list_elem_of_singleton, Hids.
      split.
      * intros [(r & Hr' & Hbook)| ->].
        -- exists r. split; [|exact Hbook].
           rewrite lookup_insert_ne by congruence. exact Hr'.
        -- eexists. rewrite lookup_insert_eq. split; reflexivity.
      * intros (r & Hr' & Hbook).
        destruct (decide (uuid = id)) as [->|Hne]; [right; reflexivity|].
        left. exists r. rewrite lookup_insert_ne in Hr' by exact Hne. auto.
  - intros _. unfold shelf_shows_store. cbn [session]. discriminate.
  - right. rewrite Hc, !change_count_eq. reflexivity.
Qed.

Lemma background_dbltap_step (a : AppState) (pointer : option Point)
    (pick : fin 10) (uuid : string) :
  step_invariants a (after (background_dbltap pointer pick uuid) a).
Proof.
  unfold background_dbltap, after, ebind, get_session.
  destruct (session a) as [ses|]; [|apply step_invariants_refl].
  destruct pointer as [pos|]; [|apply step_invariants_refl].
  apply addNodeAtWorld_step.
Qed.

Lemma dragend_step (a : AppState) (target : option Group) :
  step_invariants a (after (dragend target) a).
Proof.
  destruct (session a) as [ses|] eqn:Hses.
  2:{ unfold after. rewrite dragend_quiet by auto. apply step_invariants_refl. }
  destruct target as [g|].
  2:{ unfold after. rewrite dragend_quiet by auto. apply step_invariants_refl. }
  destruct (decide (g_nodeId g = EmptyString)) as [Hid|Hid].
  { unfold after. rewrite dragend_quiet by eauto. apply step_invariants_refl. }
  pose proof (dragend_run a ses g Hses Hid) as Hrun. cbv zeta in Hrun.
  unfold after. rewrite Hrun. clear Hrun. cbn [snd].
  match goal with
  | |- context [exec markChanged ?w1] =>
      destruct (markChanged_summary w1) as (Hb & Hn & Hc)
  end.
  cbn [db books nodes] in Hb, Hn.
  split; [|split; [|split]]; cbn [world session shelves].
  - intros [Hkb Hkn]. split.
    + rewrite Hb. apply map_Forall_alter_keep; [|exact Hkb].
      intros v Hv. exact Hv.
    + rewrite Hn. apply map_Forall_alter_keep; [|exact Hkn].
      intros v Hv. exact Hv.
  - intros _. unfold layer_mirrors_store. rewrite Hses.
    cbn [session world]. rewrite Hn. intros [Hnd Hids].
    split; [exact Hnd|]. intros id. rewrite Hids.
    split.
    + intros (r & Hr & Hbook).
      destruct (decide (g_nodeId g = id)) as [<-|Hne].
      * eexists. rewrite lookup_alter_eq, Hr. split; [reflexivity|].
        exact Hbook.
      * exists r. rewrite lookup_alter_ne by exact Hne. auto.
    + intros (r & Hr & Hbook).
      apply lookup_alter_Some in Hr as [(<- & r0 & Hr0 & ->)|[_ Hr]].
      * exists r0. auto.
      * exists r. auto.
  - intros _. unfold shelf_shows_store. rewrite Hses. discriminate.
  - right. rewrite Hc, !change_count_eq. reflexivity.
Qed.

(** Every event but the choice of a file keeps the four invariants. *)
Lemma perform_step (act : Action) (a : AppState) :
  ~ is_import act -> step_invariants a (after (perform act) a).
Proof.
  intros Hact.
  destruct act as [title pick uuid| |file ok| |answer|ok| | |shelf place
                  |shelf place choice answer ok|e|index| |pointer pick uuid
                  |index]; cbn [perform].
  - apply addBook_step.
  - apply exportBackup_step.
  - exfalso. apply Hact. exact I.
  - apply back_step.
  - unfold after, ebind, get_session.
    destruct (session a) as [ses|]; [|apply step_invariants_refl].
    destruct (falsy (Some (currentBookId ses)));
      [apply step_invariants_refl|apply renameBook_step].
  - unfold after, ebind, get_session.
    destruct (session a) as [ses|]; [|apply step_invariants_refl].
    destruct (falsy (Some (currentBookId ses)));
      [apply step_invariants_refl|apply deleteBook_step].
  - apply exportBackup_step.
  - apply bannerDismiss_step.
  - unfold after. destruct (spine_at shelf place a) as [book|];
      [apply openBook_step|apply step_invariants_refl].
  - unfold after. destruct (spine_at shelf place a) as [book|];
      [apply openBookActions_step|apply step_invariants_refl].
  - apply on_canvas_step. intros s. apply step_layer_ids.
  - unfold after. destruct (group_at index a) as [g|];
      [|apply step_invariants_refl].
    apply on_canvas_step. intros s. apply selectNode_layer_ids.
  - apply on_canvas_step. apply background_tap_layer_ids.
  - apply background_dbltap_step.
  - unfold after. destruct (group_at index a) as [g|];
      [apply dragend_step|apply step_invariants_refl].
Qed.

(** The choice of a file keeps the keys and the shelves, and the
    agreement of layer and store while the bookshelf is shown. *)
Lemma import_step (file : option Parsed) (ok : bool) (a : AppState) :
  let a' := after (perform (ChangeImportFile file ok)) a in
  (keyed_by_id (db (world a)) -> keyed_by_id (db (world a'))) /\
  (session a = None -> layer_mirrors_store a') /\
  (shelf_shows_store a -> shelf_shows_store a').
Proof.
  cbv zeta. cbn [perform].
  destruct file as [parsed|];
    [|split; [auto|split; [|auto]];
      intros Hs; unfold layer_mirrors_store; cbn; rewrite Hs; exact I].
  assert (Hafter : after (ebind (importBackup parsed ok) (fun _ => eret tt)) a
                   = after (importBackup parsed ok) a).
  { unfold after, ebind, eret.
    destruct (importBackup parsed ok a) as [[r|] a1]; reflexivity. }
  rewrite Hafter. clear Hafter.
  assert (Hsame : after (importBackup parsed ok) a = a ->
            (keyed_by_id (db (world a)) ->
             keyed_by_id (db (world (after (importBackup parsed ok) a)))) /\
            (session a = None ->
             layer_mirrors_store (after (importBackup parsed ok) a)) /\
            (shelf_shows_store a ->
             shelf_shows_store (after (importBackup parsed ok) a))).
  { intros ->. split; [auto|split; [|auto]].
    intros Hs. unfold layer_mirrors_store. rewrite Hs. exact I. }
  unfold after in *. rewrite importBackup_run in *. cbv zeta in *.
  destruct parsed as [| |obj]; try (apply Hsame; reflexivity).
  destruct (obj_data obj) as [data|]; [|apply Hsame; reflexivity].
  destruct (bool_decide (obj_version obj = Some 1));
    [|apply Hsame; reflexivity].
  destruct ok; [|apply Hsame; reflexivity].
  destruct (import_tables data) as [[[bs ns] ss]|] eqn:Htab;
    [|apply Hsame; reflexivity].
  clear Hsame. cbn [snd].
  match goal with
  | |- context [after renderBookshelf ?a1] =>
      destruct (renderBookshelf_fresh a1) as (_ & Hw & Hses & _ & Hsh)
  end.
  cbn [world session] in *.
  set (a' := after renderBookshelf _) in *.
  assert (Hdb : db (world a') = _)
    by (rewrite Hw; apply nudge_keeps_store).
  split; [|split].
  - intros _. rewrite Hdb. cbn [db].
    eapply keyed_by_id_eq;
      [| |exact (import_tables_keyed data bs ns ss (db (world a)) Htab)];
      reflexivity.
  - intros Hs. unfold layer_mirrors_store. rewrite Hses, Hs. exact I.
  - intros _ _. exact Hsh.
Qed.

(** ** Every reachable state *)

Lemma is_import_dec (act : Action) : is_import act \/ ~ is_import act.
Proof. destruct act; cbn; tauto. Qed.

Lemma perform_all_snoc (acts : list Action) (act : Action) (a : AppState) :
  perform_all (acts ++ [act]) a = after (perform act) (perform_all acts a).
Proof. unfold perform_all. rewrite fold_left_app. reflexivity. Qed.

Lemma perform_all_cons (acts : list Action) (act : Action) (a : AppState) :
  perform_all (act :: acts) a = perform_all acts (after (perform act) a).
Proof. reflexivity. Qed.

(** X26 — The layer and the store never drift apart.  Start from a state
    whose rows are stored under their own identifiers and whose open book,
    if any, has exactly one group per stored node of that book.  After
    every sequence of events in which files are imported only while the
    bookshelf is shown, the rows are still stored under their own
    identifiers, and while a book is open no two groups of the layer carry
    the same node identifier and the identifiers on the layer are exactly
    those of the stored nodes of the open book. *)
Theorem layer_and_store_agree (a : AppState) (acts : list Action) :
  keyed_by_id (db (world a)) ->
  layer_mirrors_store a ->
  imports_on_bookshelf acts a ->
  keyed_by_id (db (world (perform_all acts a))) /\
  layer_mirrors_store (perform_all acts a) /\
  forall ses, session (perform_all acts a) = Some ses ->
    NoDup (g_nodeId <$> layer (canvas ses)).
Proof.
  revert a. induction acts as [|act acts IH]; intros a Hk Hm Himp.
  - split; [exact Hk|]. split; [exact Hm|].
    intros ses Hses. change (session a = Some ses) in Hses.
    unfold layer_mirrors_store in Hm. rewrite Hses in Hm. apply Hm.
  - rewrite perform_all_cons. destruct Himp as [Hact Himp].
    apply IH; [| |exact Himp].
    + destruct (is_import_dec act) as [Hi|Hi].
      * destruct act; try contradiction.
        apply (proj1 (import_step _ _ a)), Hk.
      * apply (proj1 (perform_step act a Hi)), Hk.
    + destruct (is_import_dec act) as [Hi|Hi].
      * destruct act; try contradiction.
        apply (proj1 (proj2 (import_step _ _ a))), Hact, Hi.
      * apply (proj1 (proj2 (perform_step act a Hi))); assumption.
Qed.

(** X27 — The visible bookshelf is never stale.  After [main] and any
    sequence of events, whenever the bookshelf screen is shown its spines
    are the stored books, most recently updated first, six to a shelf. *)
Theorem visible_bookshelf_is_current (w : World) (uuid : string)
    (acts : list Action) :
  shelf_shows_store (perform_all acts (after (main uuid) (initial_app w))).
Proof.
  assert (Hboot : shelf_shows_store (after (main uuid) (initial_app w))).
  { intros _. destruct (main_run (initial_app w) uuid) as (a1 & _ & -> & _).
    apply renderBookshelf_fresh. }
  revert Hboot. generalize (after (main uuid) (initial_app w)).
  induction acts as [|act acts IH]; intros a Ha; [exact Ha|].
  rewrite perform_all_cons. apply IH.
  destruct (is_import_dec act) as [Hi|Hi].
  - destruct act; try contradiction.
    apply (proj2 (proj2 (import_step _ _ a))), Ha.
  - apply (proj1 (proj2 (proj2 (perform_step act a Hi)))), Ha.
Qed.

(** X28 — No uncounted change.  Every event other than the choice of a
    file to import either leaves the books, the nodes and the change
    counter as they are, or adds exactly one to the change counter: books
    and nodes never change without [markChanged] counting it, and no event
    counts twice. *)
Theorem mutations_are_counted (a : AppState) (act : Action) :
  let a' := after (perform act) a in
  is_import act \/
  (change_count (world a') = change_count (world a) /\
   books (db (world a')) = books (db (world a)) /\
   nodes (db (world a')) = nodes (db (world a))) \/
  change_count (world a') = change_count (world a) + 1.
Proof.
  cbv zeta. destruct (is_import_dec act) as [Hi|Hi]; [left; exact Hi|].
  right. exact (proj2 (proj2 (proj2 (perform_step act a Hi)))).
Qed.


(** ** Examples *)

Lemma importBackup_replaces_tables_witness :
  change_count
    (world (after (importBackup (ParsedObject sample_file) true) sample_app))
    = 7 /\
  nodes (db (world (after (importBackup (ParsedObject sample_file) true)
                          sample_app))) = ∅.
Proof.
  assert (H : result (importBackup (ParsedObject sample_file) true) sample_app
              = Some (Some "Imported.")) by (vm_compute; reflexivity).
  pose proof (importBackup_replaces_tables sample_app sample_file sample_data
                eq_refl eq_refl H) as Hthm.
  cbv zeta in Hthm.
  destruct Hthm as (_ & _ & _ & _ & _ & _ & _ & Hn & _ & Hc & _).
  split; [exact Hc|exact Hn].
Defined.

Lemma backup_round_trip_witness :
  exists p : Parsed,
    parsed_backup (eval buildBackupObject sample_world) = Some p /\
    books (db (world (after (importBackup p true)
                            (initial_app (fresh_world ∅ ∅ true sample_clock)))))
      = sample_books /\
    nodes (db (world (after (importBackup p true)
                            (initial_app (fresh_world ∅ ∅ true sample_clock)))))
      = sample_nodes.
Proof.
  assert (Hk : keyed_by_id (db sample_world)).
  { split; cbn [sample_world fresh_world fresh_db db books nodes];
      repeat (apply map_Forall_insert_2; [reflexivity|]);
      apply map_Forall_empty. }
  assert (Hf : map_Forall (fun _ r => is_finite (node_x r) = true /\
                                      is_finite (node_y r) = true)
                          (nodes (db sample_world))).
  { cbn [sample_world fresh_world fresh_db db nodes].
    repeat (apply map_Forall_insert_2; [split; reflexivity|]).
    apply map_Forall_empty. }
  assert (Hz : map_Forall (fun _ r => is_neg_zero (node_x r) = false /\
                                      is_neg_zero (node_y r) = false)
                          (nodes (db sample_world))).
  { cbn [sample_world fresh_world fresh_db db nodes].
    repeat (apply map_Forall_insert_2; [split; reflexivity|]).
    apply map_Forall_empty. }
  pose proof (backup_round_trip sample_world
                (initial_app (fresh_world ∅ ∅ true sample_clock)) Hk) as Hthm.
  cbv zeta in Hthm.
  destruct Hthm as (_ & _ & Hsome & Himport & _).
  destruct (proj2 Hsome Hf) as [p Hp]. exists p. split; [exact Hp|].
  destruct (Himport p Hp) as (_ & Hb & _ & Hn & _).
  split; [exact Hb|exact (Hn Hz)].
Defined.

Lemma layer_and_store_agree_witness :
  session (perform_all sample_sitting (initial_app sample_world)) <> None /\
  layer_mirrors_store (perform_all sample_sitting (initial_app sample_world)) /\
  keyed_by_id
    (db (world (perform_all sample_import (initial_app sample_world)))).
Proof.
  assert (Hk : keyed_by_id (db (world (initial_app sample_world)))).
  { split; cbn [initial_app world sample_world fresh_world fresh_db db books
                nodes];
      repeat (apply map_Forall_insert_2; [reflexivity|]);
      apply map_Forall_empty. }
  assert (Hm : layer_mirrors_store (initial_app sample_world)) by exact I.
  assert (H1 : imports_on_bookshelf sample_sitting (initial_app sample_world)).
  { cbn [sample_sitting imports_on_bookshelf is_import].
    repeat (split; [intros []|]). exact I. }
  assert (H2 : imports_on_bookshelf sample_import (initial_app sample_world)).
  { cbn [sample_import imports_on_bookshelf is_import].
    split; [intros []|]. split; [|exact I].
    intros _. vm_compute. reflexivity. }
  split; [vm_compute; discriminate|]. split.
  - exact (proj1 (proj2 (layer_and_store_agree (initial_app sample_world)
                           sample_sitting Hk Hm H1))).
  - exact (proj1 (layer_and_store_agree (initial_app sample_world)
                    sample_import Hk Hm H2)).
Defined.


End AppProps.
